(** * Privacy-preserving federated learning: aggregation engine

    A shallow embedding of the aggregation core of the pipeline
    ([fl_pipeline/app/custom]): the Weiszfeld geometric-median aggregator,
    the Gaussian differential-privacy mechanism, the selective
    homomorphic-encryption shape registry, the metrics writer and the round
    controller, followed by the properties established about them.

    Conventions of the embedding.
    - NumPy / PyTorch [float32] values are IEEE-754 binary32 numbers, taken
      from the standard library's [SpecFloat] (precision 24, emax 128) with
      round-to-nearest-even on every operation.  NumPy's reductions
      ([np.sum], [np.mean], the sum inside [np.linalg.norm]) accumulate
      from left to right, the order NumPy uses along axis 0 and for
      contiguous runs of fewer than eight addends.  The values of
      [torch.mean] come from PyTorch's kernel, whose order of summation is
      not fixed: the kernel is a parameter of the round.
    - A Python scalar that meets a float32 array or scalar is rounded to
      float32 first (NumPy's promotion rule for Python scalars); this
      concerns the thresholds [1e-12] and [eps] and the weight [1e12] of
      the Weiszfeld loop.
    - Python [float] values elsewhere in the aggregation code (distances,
      losses, trust scores) are binary64 numbers.
    - Python [float] computations of [dp_noise.py] are binary64
      computations, modelled by value ([pyfloat]): a finite real, an
      infinity or NaN, every operation rounding to the nearest binary64
      number, with the exceptions CPython raises.  [math.exp] and
      [math.log] call the C library, whose values are parameters.  The
      value of the noise scale [sigma] is also given over the real
      numbers ([DPNoise]), where its formula is exact.
    - Python exceptions are values of [exn]; a call that may raise returns a
      [result].
    - A [dict] / [OrderedDict] is an association list in insertion order. *)

From Stdlib Require Import Ascii String.
From Stdlib Require Import ZArith QArith Qabs List Bool Arith Lia.
From Stdlib Require Import Reals Lra Psatz.
From Stdlib Require Import Floats.SpecFloat.
Import ListNotations.

Close Scope Q_scope.
Close Scope R_scope.
Open Scope string_scope.
Open Scope list_scope.
Open Scope nat_scope.

Set Implicit Arguments.

(** ** Exceptions *)

Inductive exn : Type :=
| ValueError
| KeyError
| TypeError
| RuntimeError
| ZeroDivisionError
| OverflowError.

Inductive result (A : Type) : Type :=
| Ok (a : A)
| Raise (e : exn).

Arguments Ok {A} a.
Arguments Raise {A} e.

Definition bind {A B : Type} (r : result A) (k : A -> result B) : result B :=
  match r with
  | Ok a => k a
  | Raise e => Raise e
  end.

Notation "x <- r ;; k" := (bind r (fun x => k))
  (at level 61, r at next level, right associativity).

Fixpoint mapM {A B : Type} (f : A -> result B) (l : list A) : result (list B) :=
  match l with
  | [] => Ok []
  | a :: l' => b <- f a ;; bs <- mapM f l' ;; Ok (b :: bs)
  end.

(** ** Binary floating point *)

(** Conversions into the IEEE format of precision [prec] and maximal
    exponent [emax], on top of the operations of [SpecFloat]. *)
Section Conversions.
Variables prec emax : Z.

(** The float nearest to an integer. *)
Definition float_of_Z (z : Z) : spec_float :=
  binary_normalize prec emax z 0 false.

(** The float nearest to the rational [n / d]. *)
Definition float_of_ratio (n : Z) (d : positive) : spec_float :=
  match n with
  | Z0 => S754_zero false
  | Zpos p => SFdiv prec emax (S754_finite false p 0) (S754_finite false d 0)
  | Zneg p => SFdiv prec emax (S754_finite true p 0) (S754_finite false d 0)
  end.

(** Rounding of a float of another (wider) format into this one. *)
Definition float_round (x : spec_float) : spec_float :=
  match x with
  | S754_finite s m e => binary_round prec emax s m e
  | _ => x
  end.
End Conversions.

(** binary32: NumPy and PyTorch [float32]. *)
Module F32.
Definition prec := 24%Z.
Definition emax := 128%Z.
Definition add := SFadd prec emax.
Definition sub := SFsub prec emax.
Definition mul := SFmul prec emax.
Definition div := SFdiv prec emax.
Definition sqrt := SFsqrt prec emax.
Definition ltb := SFltb.
Definition zero : spec_float := S754_zero false.
Definition one : spec_float := SFone prec emax.
Definition of_Z := float_of_Z prec emax.
Definition of_nat (n : nat) : spec_float := of_Z (Z.of_nat n).
Definition of_ratio := float_of_ratio prec emax.
Definition round := float_round prec emax.
End F32.

(** binary64: Python [float]. *)
Module F64.
Definition prec := 53%Z.
Definition emax := 1024%Z.
Definition add := SFadd prec emax.
Definition sub := SFsub prec emax.
Definition mul := SFmul prec emax.
Definition div := SFdiv prec emax.
Definition sqrt := SFsqrt prec emax.
Definition ltb := SFltb.
Definition zero : spec_float := S754_zero false.
Definition one : spec_float := SFone prec emax.
Definition of_Z := float_of_Z prec emax.
Definition of_nat (n : nat) : spec_float := of_Z (Z.of_nat n).
Definition of_ratio := float_of_ratio prec emax.
Definition round := float_round prec emax.
End F64.

Definition float32 := spec_float.
Definition float64 := spec_float.

(** The exact rational value of a finite float. *)
Definition SF2Q (x : spec_float) : option Q :=
  match x with
  | S754_zero _ => Some 0%Q
  | S754_finite s m e =>
      let v := match e with
               | Z0 => inject_Z (Zpos m)
               | Zpos p => inject_Z (Zpos m * 2 ^ Zpos p)%Z
               | Zneg p => Qmake (Zpos m) (2 ^ p)%positive
               end in
      Some (if s then Qopp v else v)
  | _ => None
  end.

(** [within tol c x]: [x] is finite and [|x - c| <= tol]. *)
Definition within (tol c : Q) (x : spec_float) : bool :=
  match SF2Q x with
  | Some q => Qle_bool (Qabs (q - c)) tol
  | None => false
  end.

(** ** Tensors and state dicts *)

(** A dense float32 tensor: its shape and its elements in row-major order. *)
Record tensor : Type := mkTensor {
  shape : list nat;
  data : list float32
}.

Definition prod_shape (s : list nat) : nat := fold_right Nat.mul 1 s.

(** [t.numel()] *)
Definition numel (t : tensor) : nat := prod_shape (shape t).

(** The invariant of every PyTorch tensor. *)
Definition wf_tensor (t : tensor) : Prop := length (data t) = numel t.

(** [torch.tensor(arr, dtype=torch.float32).reshape(shape)] on a 1-D array. *)
Definition reshape (arr : list float32) (s : list nat) : result tensor :=
  if length arr =? prod_shape s then Ok (mkTensor s arr) else Raise RuntimeError.

(** A state dict: parameter names to tensors, in insertion order. *)
Definition state_dict := list (string * tensor).

Definition keys {V : Type} (d : list (string * V)) : list string := map fst d.

Fixpoint dict_get {V : Type} (d : list (string * V)) (k : string) : option V :=
  match d with
  | [] => None
  | (k', v) :: d' => if String.eqb k' k then Some v else dict_get d' k
  end.

(** [d[k]] *)
Definition dict_item {V : Type} (d : list (string * V)) (k : string) : result V :=
  match dict_get d k with
  | Some v => Ok v
  | None => Raise KeyError
  end.

(** [d[k] = v]: an existing key keeps its position, a new one goes last. *)
Fixpoint dict_set {V : Type} (d : list (string * V)) (k : string) (v : V)
  : list (string * V) :=
  match d with
  | [] => [(k, v)]
  | (k', v') :: d' =>
      if String.eqb k' k then (k', v) :: d' else (k', v') :: dict_set d' k v
  end.

Definition wf_state_dict (sd : state_dict) : Prop :=
  NoDup (keys sd) /\ Forall wf_tensor (map snd sd).

(** [a[lo:hi]] for [0 <= lo <= hi]. *)
Definition slice {A : Type} (a : list A) (lo hi : nat) : list A :=
  firstn (hi - lo) (skipn lo a).

(** ** NumPy helpers on float32 vectors *)

Definition vec := list float32.

Fixpoint zip_with {A B C : Type} (f : A -> B -> C) (a : list A) (b : list B)
  : list C :=
  match a, b with
  | x :: a', y :: b' => f x y :: zip_with f a' b'
  | _, _ => []
  end.

(** [np.sum] of a 1-D array. *)
Definition np_sum (v : vec) : float32 :=
  match v with
  | [] => F32.zero
  | x :: v' => fold_left F32.add v' x
  end.

(** [np.sum(rows, axis=0)] of a matrix given by its rows. *)
Definition np_sum_axis0 (rows : list vec) : vec :=
  match rows with
  | [] => []
  | r :: rows' => fold_left (zip_with F32.add) rows' r
  end.

(** [np.mean(rows, axis=0)] *)
Definition np_mean_axis0 (rows : list vec) : vec :=
  map (fun s => F32.div s (F32.of_nat (length rows))) (np_sum_axis0 rows).

(** [np.linalg.norm] of a 1-D array (or of one row with [axis=1]).  The
    squares are added from left to right, which is what NumPy does on
    fewer than eight elements; on longer rows it adds them in pairs, and
    the last bits of the norm may differ. *)
Definition np_norm (v : vec) : float32 :=
  F32.sqrt (np_sum (map (fun x => F32.mul x x) v)).

(** [a - b] on 1-D arrays, with NumPy broadcasting of a length-one operand. *)
Definition np_sub (a b : vec) : result vec :=
  if length a =? length b then Ok (zip_with F32.sub a b)
  else match a, b with
       | [x], _ => Ok (map (fun y => F32.sub x y) b)
       | _, [y] => Ok (map (fun x => F32.sub x y) a)
       | _, _ => Raise ValueError
       end.

(** [np.stack(rows, axis=0)]: the rows must exist and agree in length. *)
Definition np_stack (rows : list vec) : result (list vec) :=
  match rows with
  | [] => Raise ValueError
  | r :: rows' =>
      if forallb (fun r' => length r' =? length r) rows' then Ok rows
      else Raise ValueError
  end.

(** [np.concatenate(parts)] *)
Definition np_concatenate (parts : list vec) : result vec :=
  match parts with
  | [] => Raise ValueError
  | _ => Ok (concat parts)
  end.

(** ** geometric_median.py *)

Module GeometricMedianAggregator.

(** The aggregator object.  [__init__] sets [max_iter] and [eps]; the
    attribute [_last_iterations], which the controller reads with
    [getattr], is assigned by no method of the class, so it is present
    only if somebody else has set it. *)
Record t : Type := mk {
  max_iter : nat;
  eps : float64;
  _last_iterations : option nat
}.

Definition __init__ (max_iter : nat) (eps : float64) : t :=
  mk max_iter eps None.

(** [GeometricMedianAggregator()] : [max_iter=100], [eps=1e-5]. *)
Definition default : t := __init__ 100 (F64.of_ratio 1 (10 ^ 5)%positive).

(** [_flatten_state_dict(state_dict, keys)] *)
Definition _flatten_state_dict (sd : state_dict) (ks : list string)
  : result vec :=
  parts <- mapM (fun k => t <- dict_item sd k ;; Ok (data t)) ks ;;
  np_concatenate parts.

(** The loop of [_unflatten_to_state_dict], from [offset] and the
    [result] dict built so far. *)
Fixpoint unflatten_loop (flat : vec)
    (items : list (string * list nat * nat)) (offset : nat)
    (res : state_dict) : result state_dict :=
  match items with
  | [] => Ok res
  | (key, shp, n) :: items' =>
      let arr := slice flat offset (offset + n) in
      tn <- reshape arr shp ;;
      unflatten_loop flat items' (offset + n) (dict_set res key tn)
  end.

(** [_unflatten_to_state_dict(flat, keys, shapes, numels)] *)
Definition _unflatten_to_state_dict (flat : vec) (ks : list string)
    (shapes : list (list nat)) (numels : list nat) : result state_dict :=
  unflatten_loop flat (combine (combine ks shapes) numels) 0 [].

(** The inverse-distance weights of one iteration. *)
Definition weights_of (distances : vec) : vec :=
  map (fun d =>
         if F32.ltb (F32.round (F64.of_ratio 1 (10 ^ 12)%positive)) d
         then F32.div F32.one d
         else F32.round (F64.of_Z (10 ^ 12)))
      distances.

(** One Weiszfeld update [y -> y_new]. *)
Definition weiszfeld_step (points : list vec) (y : vec) : vec :=
  let diffs := map (fun p => zip_with F32.sub p y) points in
  let distances := map np_norm diffs in
  let weights := weights_of distances in
  let total_weight := np_sum weights in
  let weighted :=
    zip_with (fun w p => map (fun x => F32.mul w x) p) weights points in
  map (fun s => F32.div s total_weight) (np_sum_axis0 weighted).

(** The [for iteration in range(1, max_iter + 1)] loop with [fuel]
    iterations left. *)
Fixpoint weiszfeld_loop (points : list vec) (eps32 : float32)
    (max_iter fuel iteration : nat) (y : vec) : vec * nat :=
  match fuel with
  | 0 => (y, max_iter)
  | S fuel' =>
      let y_new := weiszfeld_step points y in
      let shift := np_norm (zip_with F32.sub y_new y) in
      if F32.ltb shift eps32 then (y_new, iteration)
      else weiszfeld_loop points eps32 max_iter fuel' (S iteration) y_new
  end.

(** [_weiszfeld(points)]: the median estimate and the number of
    iterations performed. *)
Definition _weiszfeld (self : t) (points : list vec) : vec * nat :=
  let y := np_mean_axis0 points in
  weiszfeld_loop points (F32.round (eps self)) (max_iter self)
                 (max_iter self) 1 y.

(** [aggregate(client_updates)].  The method assigns no attribute; the
    object is returned next to the result to make that explicit. *)
Definition aggregate (self : t) (client_updates : list state_dict)
  : t * result state_dict :=
  (self,
   match client_updates with
   | [] => Raise ValueError
   | [sd] => Ok (map (fun kv => (fst kv, snd kv)) sd)
   | sd0 :: _ =>
       let param_keys := keys sd0 in
       param_shapes <- mapM (fun k => tn <- dict_item sd0 k ;; Ok (shape tn))
                            param_keys ;;
       param_numels <- mapM (fun k => tn <- dict_item sd0 k ;; Ok (numel tn))
                            param_keys ;;
       rows <- mapM (fun sd => _flatten_state_dict sd param_keys)
                    client_updates ;;
       points <- np_stack rows ;;
       let '(median_flat, _num_iters) := _weiszfeld self points in
       _unflatten_to_state_dict median_flat param_keys param_shapes
                                param_numels
   end).

(** [compute_distances(client_updates, median)] *)
Definition compute_distances (self : t) (client_updates : list state_dict)
    (median : state_dict) : result (list float64) :=
  let param_keys := keys median in
  median_flat <- _flatten_state_dict median param_keys ;;
  mapM (fun sd =>
          client_flat <- _flatten_state_dict sd param_keys ;;
          d <- np_sub client_flat median_flat ;;
          Ok (np_norm d))
       client_updates.

End GeometricMedianAggregator.

(** ** dp_noise.py *)

(** The integer nearest to [x], a tie going to the even one. *)
Definition round_half_even (x : R) : Z :=
  let n := Int_part x in
  let f := (x - IZR n)%R in
  if Rlt_dec f (1 / 2) then n
  else if Rlt_dec (1 / 2) f then (n + 1)%Z
  else if Z.even n then n else (n + 1)%Z.

(** [math.log], [math.sqrt] and [/] with the errors Python raises. *)
Definition math_log (x : R) : result R :=
  if Rle_dec x 0 then Raise ValueError else Ok (ln x).

Definition math_sqrt (x : R) : result R :=
  if Rlt_dec x 0 then Raise ValueError else Ok (sqrt x).

Definition py_div (x y : R) : result R :=
  if Req_dec_T y 0 then Raise ZeroDivisionError else Ok (x / y)%R.

Module DPNoise.
Local Open Scope R_scope.

Record t : Type := mk {
  epsilon : R;
  delta : R;
  sensitivity : R;
  max_grad_norm : R;
  sigma : R
}.

(** [compute_sigma()], which reads [sensitivity], [delta] and [epsilon]. *)
Definition compute_sigma (self : t) : result R :=
  q <- py_div 1.25 (delta self) ;;
  l <- math_log q ;;
  r <- math_sqrt (2.0 * l) ;;
  py_div (sensitivity self * r) (epsilon self).

(** [DPNoise(epsilon, delta, sensitivity, max_grad_norm)] *)
Definition __init__ (epsilon delta sensitivity max_grad_norm : R)
  : result t :=
  if Rle_dec epsilon 0 then Raise ValueError
  else if Rle_dec delta 0 then Raise ValueError
  else if Rge_dec delta 1 then Raise ValueError
  else
    (* [self.sigma] is not yet assigned when [compute_sigma] runs *)
    let self := mk epsilon delta sensitivity max_grad_norm 0 in
    s <- compute_sigma self ;;
    Ok (mk epsilon delta sensitivity max_grad_norm s).

End DPNoise.

(** ** Python floats *)

(** A Python [float] by its value: a finite number, an infinity, or NaN.
    The finite values that arithmetic produces are binary64 numbers, every
    operation rounding its exact result to the nearest one (a tie to the
    even one) and overflowing to an infinity.  The sign of a zero is not
    kept: no operation below can tell [-0.0] from [0.0]. *)
Inductive pyfloat : Type :=
| Finite (x : R)
| Infinity (negative : bool)
| NaN.

Module PyFloat.
Local Open Scope R_scope.

(** [floor(log2 x)] for [x > 0]. *)
Definition mag (x : R) : Z := Int_part (ln x / ln 2).

(** The unit in the last place at [x > 0]: 53 significant bits, and no
    exponent below that of the subnormal numbers. *)
Definition ulp (x : R) : R := powerRZ 2 (Z.max (mag x - 52) (-1074)).

(** [x > 0] rounded to the nearest multiple of its unit in the last
    place, a tie going to the even multiple. *)
Definition round_pos (x : R) : R :=
  IZR (round_half_even (x / ulp x)) * ulp x.

(** The exact result [x] as a binary64 number; it is an infinity from
    [2^1024] on. *)
Definition rnd (x : R) : pyfloat :=
  if Rlt_dec 0 x then
    if Rle_dec (powerRZ 2 1024) (round_pos x) then Infinity false
    else Finite (round_pos x)
  else if Rlt_dec x 0 then
    if Rle_dec (powerRZ 2 1024) (round_pos (- x)) then Infinity true
    else Finite (- round_pos (- x))
  else Finite 0.

Definition negative (x : R) : bool := if Rlt_dec x 0 then true else false.

(** [a + b] *)
Definition add (a b : pyfloat) : pyfloat :=
  match a, b with
  | NaN, _ | _, NaN => NaN
  | Finite x, Finite y => rnd (x + y)
  | Infinity s, Finite _ | Finite _, Infinity s => Infinity s
  | Infinity s, Infinity s' => if Bool.eqb s s' then Infinity s else NaN
  end.

(** [- a] *)
Definition neg (a : pyfloat) : pyfloat :=
  match a with
  | Finite x => Finite (- x)
  | Infinity s => Infinity (negb s)
  | NaN => NaN
  end.

(** [a - b] *)
Definition sub (a b : pyfloat) : pyfloat := add a (neg b).

(** [a * b] *)
Definition mul (a b : pyfloat) : pyfloat :=
  match a, b with
  | NaN, _ | _, NaN => NaN
  | Finite x, Finite y => rnd (x * y)
  | Infinity s, Finite y | Finite y, Infinity s =>
      if Req_dec_T y 0 then NaN else Infinity (xorb s (negative y))
  | Infinity s, Infinity s' => Infinity (xorb s s')
  end.

(** [a / b], which raises on a zero divisor. *)
Definition truediv (a b : pyfloat) : result pyfloat :=
  match b with
  | Finite y =>
      if Req_dec_T y 0 then Raise ZeroDivisionError
      else Ok (match a with
               | Finite x => rnd (x / y)
               | Infinity s => Infinity (xorb s (negative y))
               | NaN => NaN
               end)
  | Infinity _ =>
      Ok (match a with
          | Finite _ => Finite 0
          | _ => NaN
          end)
  | NaN => Ok NaN
  end.

(** [a <= b]: false as soon as one side is NaN. *)
Definition leb (a b : pyfloat) : bool :=
  match a, b with
  | NaN, _ | _, NaN => false
  | Infinity true, _ => true
  | _, Infinity false => true
  | Infinity false, _ => false
  | _, Infinity true => false
  | Finite x, Finite y => if Rle_dec x y then true else false
  end.

(** [a >= b] *)
Definition geb (a b : pyfloat) : bool := leb b a.

(** [float(n)] for an [int], as in [2.0 * n]: an [int] too large for a
    float raises. *)
Definition of_int (n : Z) : result pyfloat :=
  match rnd (IZR n) with
  | Infinity _ => Raise OverflowError
  | r => Ok r
  end.

(** [math.sqrt] *)
Definition math_sqrt (a : pyfloat) : result pyfloat :=
  match a with
  | Finite x => if Rlt_dec x 0 then Raise ValueError else Ok (rnd (sqrt x))
  | Infinity false => Ok a
  | Infinity true => Raise ValueError
  | NaN => Ok NaN
  end.

(** [math.exp] and [math.log] call the C library, whose value at a finite
    argument ([c_exp x]; [c_log x] for [x > 0]) is a parameter.  CPython
    turns a NaN result at an argument that is no NaN into [ValueError],
    and an infinite result at a finite argument into [OverflowError] for
    [exp] and [ValueError] for [log]; [log] of a number that is not
    positive is a [ValueError]. *)
Definition math_exp (c_exp : R -> pyfloat) (a : pyfloat) : result pyfloat :=
  match a with
  | Finite x =>
      match c_exp x with
      | NaN => Raise ValueError
      | Infinity _ => Raise OverflowError
      | r => Ok r
      end
  | Infinity false => Ok a
  | Infinity true => Ok (Finite 0)
  | NaN => Ok NaN
  end.

Definition math_log (c_log : R -> pyfloat) (a : pyfloat) : result pyfloat :=
  match a with
  | Finite x =>
      if Rlt_dec 0 x then
        match c_log x with
        | Finite r => Ok (Finite r)
        | _ => Raise ValueError
        end
      else Raise ValueError
  | Infinity false => Ok a
  | Infinity true => Raise ValueError
  | NaN => Ok NaN
  end.

(** [round(a, ndigits)]: the decimal number with [ndigits] places nearest
    to [a] (a tie to the even one), as a float; infinities and NaN are
    returned as they are. *)
Definition round (a : pyfloat) (ndigits : nat) : result pyfloat :=
  match a with
  | Finite x =>
      match rnd (IZR (round_half_even (x * 10 ^ ndigits)) / 10 ^ ndigits) with
      | Infinity _ => Raise OverflowError
      | r => Ok r
      end
  | _ => Ok a
  end.

End PyFloat.

(** ** dp_noise.py, in binary64 *)

Module DPNoise64.

Record t : Type := mk {
  epsilon : pyfloat;
  delta : pyfloat;
  sensitivity : pyfloat;
  max_grad_norm : pyfloat;
  sigma : pyfloat
}.

(** The dict returned by [get_privacy_spent]. *)
Record privacy_spent : Type := mkSpent {
  epsilon_total : pyfloat;
  delta_total : pyfloat;
  num_rounds : Z;
  spent_sigma : pyfloat
}.

Section Libm.
Variables c_exp c_log : R -> pyfloat.

(** [compute_sigma()], which reads [sensitivity], [delta] and [epsilon]. *)
Definition compute_sigma (self : t) : result pyfloat :=
  q <- PyFloat.truediv (Finite 1.25) (delta self) ;;
  l <- PyFloat.math_log c_log q ;;
  r <- PyFloat.math_sqrt (PyFloat.mul (Finite 2.0) l) ;;
  PyFloat.truediv (PyFloat.mul (sensitivity self) r) (epsilon self).

(** [DPNoise(epsilon, delta, sensitivity, max_grad_norm)] *)
Definition __init__ (epsilon delta sensitivity max_grad_norm : pyfloat)
  : result t :=
  if PyFloat.leb epsilon (Finite 0) then Raise ValueError
  else if PyFloat.leb delta (Finite 0) || PyFloat.geb delta (Finite 1)
  then Raise ValueError
  else
    (* [self.sigma] is not yet assigned when [compute_sigma] runs *)
    let self := mk epsilon delta sensitivity max_grad_norm NaN in
    s <- compute_sigma self ;;
    Ok (mk epsilon delta sensitivity max_grad_norm s).

(** [get_privacy_spent(num_rounds)], in the order in which Python
    evaluates the operands. *)
Definition get_privacy_spent (self : t) (num_rounds : Z)
  : result privacy_spent :=
  let eps := epsilon self in
  let delta_prime := delta self in
  T <- PyFloat.of_int num_rounds ;;
  q <- PyFloat.truediv (Finite 1.0) delta_prime ;;
  l <- PyFloat.math_log c_log q ;;
  r <- PyFloat.math_sqrt (PyFloat.mul (PyFloat.mul (Finite 2.0) T) l) ;;
  e <- PyFloat.math_exp c_exp eps ;;
  let eps_total :=
    PyFloat.add (PyFloat.mul eps r)
                (PyFloat.mul (PyFloat.mul T eps)
                             (PyFloat.sub e (Finite 1.0))) in
  let delta_total := PyFloat.add (PyFloat.mul T (delta self)) delta_prime in
  a <- PyFloat.round eps_total 6 ;;
  b <- PyFloat.round delta_total 10 ;;
  c <- PyFloat.round (sigma self) 6 ;;
  Ok (mkSpent a b num_rounds c).

End Libm.

End DPNoise64.

(** ** selective_he.py *)

(** Serialised ciphertexts. *)
Definition bytes := string.

Module SelectiveHE.

(** The TenSEAL context, as far as this module uses it:
    [ts.ckks_vector(context, flat).serialize()], which raises on a vector
    that TenSEAL does not encrypt (a [ValueError] on an empty one), and
    [lazy_ckks_vector_from(b)], [link_context], [decrypt()], which yields
    the list of decrypted values or fails on bytes that are no ciphertext
    of this context. *)
Record context : Type := mkContext {
  ckks_encrypt : list float64 -> result bytes;
  ckks_decrypt : bytes -> result (list float64)
}.

Record t : Type := mk {
  ctx : context;
  _shapes : list (string * list nat)
}.

Definition __init__ (c : context) : t := mk c [].

(** [encrypt_tensor(tensor)] *)
Definition encrypt_tensor (self : t) (tn : tensor) : result bytes :=
  ckks_encrypt (ctx self) (data tn).

(** [decrypt_tensor(encrypted_bytes, shape)] *)
Definition decrypt_tensor (self : t) (encrypted_bytes : bytes)
    (shp : list nat) : result tensor :=
  decrypted_flat <- ckks_decrypt (ctx self) encrypted_bytes ;;
  let num_elements := prod_shape shp in
  let decrypted_flat := firstn num_elements decrypted_flat in
  reshape (map F32.round decrypted_flat) shp.

(** [encrypt_head(state_dict)]: every shape is recorded before its tensor
    is encrypted, so that a failing encryption leaves the shapes recorded
    so far, the one of the failing tensor included. *)
Fixpoint encrypt_head_loop (self : t) (items : state_dict)
    (encrypted : list (string * bytes))
  : t * result (list (string * bytes)) :=
  match items with
  | [] => (self, Ok encrypted)
  | (name, tn) :: items' =>
      let self' := mk (ctx self) (dict_set (_shapes self) name (shape tn)) in
      match encrypt_tensor self' tn with
      | Ok b => encrypt_head_loop self' items' (dict_set encrypted name b)
      | Raise e => (self', Raise e)
      end
  end.

Definition encrypt_head (self : t) (sd : state_dict)
  : t * result (list (string * bytes)) :=
  encrypt_head_loop self sd [].

(** [decrypt_head(encrypted_dict)].  The [ValueError] raised for a name
    without a recorded shape is the specification's [MissingShape]. *)
Fixpoint decrypt_head_loop (self : t) (items : list (string * bytes))
    (decrypted : state_dict) : result state_dict :=
  match items with
  | [] => Ok decrypted
  | (name, enc_bytes) :: items' =>
      match dict_get (_shapes self) name with
      | None => Raise ValueError
      | Some shp =>
          tn <- decrypt_tensor self enc_bytes shp ;;
          decrypt_head_loop self items' (dict_set decrypted name tn)
      end
  end.

Definition decrypt_head (self : t) (encrypted_dict : list (string * bytes))
  : result state_dict :=
  decrypt_head_loop self encrypted_dict [].

(** [register_shapes(state_dict)] *)
Definition register_shapes (self : t) (sd : state_dict) : t :=
  fold_left (fun s kv => mk (ctx s) (dict_set (_shapes s) (fst kv)
                                              (shape (snd kv))))
            sd self.

(** [get_shapes()] *)
Definition get_shapes (self : t) : list (string * list nat) := _shapes self.

(** [set_shapes(shapes)] *)
Definition set_shapes (self : t) (shapes : list (string * list nat)) : t :=
  mk (ctx self) (fold_left (fun d kv => dict_set d (fst kv) (snd kv)) shapes []).

End SelectiveHE.

(** ** db_writer.py *)

Module DBWriter.

Record training_round : Type := mkRound {
  tr_id : Z;
  tr_round_number : Z;
  tr_job_id : option string;
  tr_status : option string;
  tr_num_clients : option Z;
  tr_global_loss : option float64;
  tr_global_auc : option float64;
  tr_started_at : option Z;
  tr_completed_at : option Z
}.

Record client_update : Type := mkClientUpdate {
  cu_id : Z;
  cu_round_id : Z;
  cu_client_id : option Z;
  cu_local_loss : float64;
  cu_local_auc : float64;
  cu_num_samples : Z;
  cu_euclidean_distance : float64;
  cu_encryption_status : string;
  cu_submitted_at : Z
}.

Record round_metric : Type := mkRoundMetric {
  rm_id : Z;
  rm_round_id : Z;
  rm_aggregation_method : string;
  rm_weiszfeld_iterations : nat;
  rm_convergence_epsilon : float64;
  rm_encryption_overhead_ms : Z;
  rm_aggregation_time_ms : Z;
  rm_poisoned_clients_detected : nat
}.

Record trust_score : Type := mkTrustScore {
  ts_id : Z;
  ts_client_id : option Z;
  ts_round_id : Z;
  ts_score : float64;
  ts_deviation_avg : float64;
  ts_is_flagged : bool;
  ts_created_at : Z
}.

Record client : Type := mkClient {
  cl_id : Z;
  cl_client_id : string;
  cl_name : string;
  cl_status : string;
  cl_last_heartbeat : option Z
}.

(** The database behind the writer: the five tables, the next value of
    each autoincrement key, and the failures to come.  Every public
    method runs one transaction; the head of [faults] tells whether the
    next transaction raises (and is rolled back), an empty list meaning
    that none does. *)
Record t : Type := mk {
  training_rounds : list training_round;
  client_updates : list client_update;
  round_metrics : list round_metric;
  trust_scores : list trust_score;
  clients : list client;
  next_round_id : Z;
  next_update_id : Z;
  next_metric_id : Z;
  next_trust_id : Z;
  faults : list bool
}.

(** Opening a session: whether this transaction fails, and the database
    with that fault consumed. *)
Definition begin_session (db : t) : bool * t :=
  match faults db with
  | [] => (false, db)
  | f :: fs =>
      (f, mk (training_rounds db) (client_updates db) (round_metrics db)
             (trust_scores db) (clients db) (next_round_id db)
             (next_update_id db) (next_metric_id db) (next_trust_id db) fs)
  end.

(** [_get_client_id_by_name(session, client_name)] *)
Definition _get_client_id_by_name (db : t) (client_name : string)
  : option Z :=
  match find (fun c => String.eqb (cl_name c) client_name) (clients db) with
  | Some c => Some (cl_id c)
  | None => None
  end.

(** The [values] dict of [write_round]: [None] is an absent key. *)
Record round_values : Type := mkValues {
  v_round_number : Z;
  v_status : string;
  v_num_clients : Z;
  v_job_id : option string;
  v_global_loss : option float64;
  v_global_auc : option float64;
  v_started_at : option Z;
  v_completed_at : option Z
}.

Definition or_keep {A : Type} (new old : option A) : option A :=
  match new with
  | Some _ => new
  | None => old
  end.

(** [UPDATE ... SET values] on one row. *)
Definition update_row (v : round_values) (r : training_round)
  : training_round :=
  mkRound (tr_id r) (v_round_number v)
          (or_keep (v_job_id v) (tr_job_id r))
          (Some (v_status v))
          (Some (v_num_clients v))
          (or_keep (v_global_loss v) (tr_global_loss r))
          (or_keep (v_global_auc v) (tr_global_auc r))
          (or_keep (v_started_at v) (tr_started_at r))
          (or_keep (v_completed_at v) (tr_completed_at r)).

(** [INSERT ... VALUES values] with primary key [i]. *)
Definition insert_row (i : Z) (v : round_values) : training_round :=
  mkRound i (v_round_number v) (v_job_id v) (Some (v_status v))
          (Some (v_num_clients v)) (v_global_loss v) (v_global_auc v)
          (v_started_at v) (v_completed_at v).

Definition set_rounds (db : t) (rows : list training_round) (next : Z) : t :=
  mk rows (client_updates db) (round_metrics db) (trust_scores db)
     (clients db) next (next_update_id db) (next_metric_id db)
     (next_trust_id db) (faults db).

(** [write_round(round_number, job_id, status, num_clients, global_loss,
    global_auc, started_at, completed_at)]: the database afterwards and
    the returned primary key ([None] after a swallowed exception). *)
Definition write_round (db : t) (round_number : Z) (job_id : option string)
    (status : string) (num_clients : Z)
    (global_loss global_auc : option float64)
    (started_at completed_at : option Z) : t * option Z :=
  let '(fault, db) := begin_session db in
  if fault then (db, None)
  else
    let existing :=
      find (fun r => Z.eqb (tr_round_number r) round_number)
           (training_rounds db) in
    let values := mkValues round_number status num_clients job_id
                           global_loss global_auc started_at completed_at in
    match existing with
    | Some row =>
        (set_rounds db
           (map (fun r => if Z.eqb (tr_id r) (tr_id row)
                          then update_row values r else r)
                (training_rounds db))
           (next_round_id db),
         Some (tr_id row))
    | None =>
        let i := next_round_id db in
        (set_rounds db (training_rounds db ++ [insert_row i values])
                    (i + 1)%Z,
         Some i)
    end.

(** [write_client_update(...)]; [now] is [datetime.utcnow()]. *)
Definition write_client_update (db : t) (now : Z) (round_id : Z)
    (client_name : string) (local_loss local_auc : float64)
    (num_samples : Z) (euclidean_distance : float64)
    (encryption_status : string) : t * option Z :=
  let '(fault, db) := begin_session db in
  if fault then (db, None)
  else
    let client_pk := _get_client_id_by_name db client_name in
    let i := next_update_id db in
    (mk (training_rounds db)
        (client_updates db ++
           [mkClientUpdate i round_id client_pk local_loss local_auc
                           num_samples euclidean_distance encryption_status
                           now])
        (round_metrics db) (trust_scores db) (clients db)
        (next_round_id db) (i + 1)%Z (next_metric_id db) (next_trust_id db)
        (faults db),
     Some i).

(** [write_round_metric(...)] *)
Definition write_round_metric (db : t) (round_id : Z)
    (aggregation_method : string) (weiszfeld_iterations : nat)
    (convergence_epsilon : float64)
    (encryption_overhead_ms aggregation_time_ms : Z)
    (poisoned_clients_detected : nat) : t * option Z :=
  let '(fault, db) := begin_session db in
  if fault then (db, None)
  else
    let i := next_metric_id db in
    (mk (training_rounds db) (client_updates db)
        (round_metrics db ++
           [mkRoundMetric i round_id aggregation_method weiszfeld_iterations
                          convergence_epsilon encryption_overhead_ms
                          aggregation_time_ms poisoned_clients_detected])
        (trust_scores db) (clients db)
        (next_round_id db) (next_update_id db) (i + 1)%Z (next_trust_id db)
        (faults db),
     Some i).

(** [write_trust_score(...)]; [now] is [datetime.utcnow()]. *)
Definition write_trust_score (db : t) (now : Z) (client_name : string)
    (round_id : Z) (score deviation_avg : float64) (is_flagged : bool)
  : t * option Z :=
  let '(fault, db) := begin_session db in
  if fault then (db, None)
  else
    let client_pk := _get_client_id_by_name db client_name in
    let i := next_trust_id db in
    (mk (training_rounds db) (client_updates db) (round_metrics db)
        (trust_scores db ++
           [mkTrustScore i client_pk round_id score deviation_avg is_flagged
                         now])
        (clients db)
        (next_round_id db) (next_update_id db) (next_metric_id db)
        (i + 1)%Z (faults db),
     Some i).

(** [update_client_heartbeat(client_id_str, status)]; [now] is
    [datetime.utcnow()].  The method returns nothing and swallows every
    exception. *)
Definition update_client_heartbeat (db : t) (now : Z)
    (client_id_str : string) (status : string) : t :=
  let '(fault, db) := begin_session db in
  if fault then db
  else
    mk (training_rounds db) (client_updates db) (round_metrics db)
       (trust_scores db)
       (map (fun c => if String.eqb (cl_client_id c) client_id_str
                      then mkClient (cl_id c) (cl_client_id c) (cl_name c)
                                    status (Some now)
                      else c)
            (clients db))
       (next_round_id db) (next_update_id db) (next_metric_id db)
       (next_trust_id db) (faults db).

End DBWriter.

(** ** aggregator.py *)

(** A value of a mixed weight map: a plaintext tensor or ciphertext bytes. *)
Inductive weight : Type :=
| Plain (tn : tensor)
| Cipher (b : bytes).

(** Python's [x / y] on floats. *)
Definition py_fdiv (x y : float64) : result float64 :=
  match y with
  | S754_zero _ => Raise ZeroDivisionError
  | _ => Ok (F64.div x y)
  end.

(** [torch.stack(stacked).mean(dim=0)].  What is modelled of PyTorch is
    what the controller relies on: [torch.stack] raises [TypeError] on an
    element that is no tensor (such as [bytes]) and [RuntimeError] on no
    tensor or on tensors of different shapes, and the mean has the shape of
    the stacked tensors.  The values come from PyTorch's reduction kernel,
    whose order of summation is its own: [mean_dim0 rows] stands for the
    float32 values that it returns for the flattened tensors [rows]. *)
Definition torch_stack_mean (mean_dim0 : list vec -> vec)
    (stacked : list weight) : result tensor :=
  tensors <- mapM (fun w => match w with
                            | Plain tn => Ok tn
                            | Cipher _ => Raise TypeError
                            end) stacked ;;
  match tensors with
  | [] => Raise RuntimeError
  | t0 :: rest =>
      if forallb (fun tn => if list_eq_dec Nat.eq_dec (shape tn) (shape t0)
                            then true else false) rest
      then Ok (mkTensor (shape t0) (mean_dim0 (map data tensors)))
      else Raise RuntimeError
  end.

Module GeomMedianController.

Inductive return_code : Type :=
| RC_OK
| TASK_ABORTED
| TASK_UNKNOWN
| EXECUTION_EXCEPTION.

Definition return_code_eqb (a b : return_code) : bool :=
  match a, b with
  | RC_OK, RC_OK | TASK_ABORTED, TASK_ABORTED
  | TASK_UNKNOWN, TASK_UNKNOWN
  | EXECUTION_EXCEPTION, EXECUTION_EXCEPTION => true
  | _, _ => false
  end.

(** A client's reply; [None] is a key that the reply does not have. *)
Record shareable : Type := mkShareable {
  sh_return_code : return_code;
  sh_body_weights : option state_dict;
  sh_head_weights : option (list (string * weight));
  sh_local_loss : option float64;
  sh_local_auc : option float64;
  sh_num_samples : option Z;
  sh_encryption_status : option string
}.

Record client_task : Type := mkClientTask {
  ct_client_name : string;
  ct_result : option shareable
}.

Record meta : Type := mkMeta {
  local_loss : float64;
  local_auc : float64;
  num_samples : Z;
  encryption_status : string
}.

(** An element of [client_results]. *)
Record client_result : Type := mkClientResult {
  client_name : string;
  body_weights : state_dict;
  head_weights : list (string * weight);
  cr_meta : meta
}.

(** What one round receives from outside: the abort signal at the top of
    the round, the clock readings, the job id of the context, the client
    tasks after [broadcast_and_wait], the measured aggregation time, and
    the reduction kernel of the installed PyTorch (see
    [torch_stack_mean]). *)
Record round_env : Type := mkEnv {
  abort_triggered : bool;
  round_start : Z;
  round_end : Z;
  write_time : Z;
  job_id : option string;
  client_tasks : list client_task;
  agg_time_ms : Z;
  torch_mean_dim0 : list vec -> vec
}.

Record t : Type := mk {
  num_rounds : nat;
  min_clients : nat;
  aggregator : GeometricMedianAggregator.t;
  db_writer : option DBWriter.t;
  global_model_weights : option state_dict
}.

(** [GeomMedianController(num_rounds, min_clients, db_url)], the database
    reached through [db_url] being [db]. *)
Definition __init__ (num_rounds min_clients : nat) (db : option DBWriter.t)
  : t :=
  mk num_rounds min_clients GeometricMedianAggregator.default db None.

(** Computations of the controller: they change the controller and its
    database, and return a value or raise. *)
Definition M (A : Type) : Type := t -> t * result A.

Definition ret {A : Type} (a : A) : M A := fun s => (s, Ok a).

Definition raise {A : Type} (e : exn) : M A := fun s => (s, Raise e).

Definition bindM {A B : Type} (m : M A) (k : A -> M B) : M B :=
  fun s => match m s with
           | (s', Ok a) => k a s'
           | (s', Raise e) => (s', Raise e)
           end.

Definition lift {A : Type} (r : result A) : M A := fun s => (s, r).

Definition get : M t := fun s => (s, Ok s).

Notation "x <~ m ;; k" := (bindM m (fun x => k))
  (at level 61, m at next level, right associativity).
Notation "m ;;; k" := (bindM m (fun _ => k))
  (at level 61, right associativity).

(** A call [self.db_writer.f(...)]; without a writer nothing happens. *)
Definition db_call (f : DBWriter.t -> DBWriter.t * option Z) : M (option Z) :=
  fun s => match db_writer s with
           | Some db =>
               let '(db', r) := f db in
               (mk (num_rounds s) (min_clients s) (aggregator s) (Some db')
                   (global_model_weights s), Ok r)
           | None => (s, Ok None)
           end.

Definition set_global_model_weights (w : state_dict) : M unit :=
  fun s => (mk (num_rounds s) (min_clients s) (aggregator s) (db_writer s)
               (Some w), Ok tt).

(** [self.aggregator.aggregate(body_updates)] *)
Definition call_aggregate (body_updates : list state_dict) : M state_dict :=
  fun s =>
    let '(agg', r) :=
      GeometricMedianAggregator.aggregate (aggregator s) body_updates in
    (mk (num_rounds s) (min_clients s) agg' (db_writer s)
        (global_model_weights s), r).

(** Truth value of [self.db_writer and round_db_id]. *)
Definition writer_and_id (s : t) (round_db_id : option Z) : option Z :=
  match db_writer s, round_db_id with
  | Some _, Some i => if Z.eqb i 0 then None else Some i
  | _, _ => None
  end.

Definition or_default {A : Type} (o : option A) (d : A) : A :=
  match o with
  | Some a => a
  | None => d
  end.

(** The collection loop over [task.client_tasks]. *)
Fixpoint collect_results (tasks : list client_task) : list client_result :=
  match tasks with
  | [] => []
  | ct :: tasks' =>
      match ct_result ct with
      | Some r =>
          if return_code_eqb (sh_return_code r) RC_OK
          then mkClientResult (ct_client_name ct)
                 (or_default (sh_body_weights r) [])
                 (or_default (sh_head_weights r) [])
                 (mkMeta (or_default (sh_local_loss r) F64.zero)
                         (or_default (sh_local_auc r) F64.zero)
                         (or_default (sh_num_samples r) 0%Z)
                         (or_default (sh_encryption_status r) "plaintext"))
               :: collect_results tasks'
          else collect_results tasks'
      | None => collect_results tasks'
      end
  end.

(** The head aggregation of one round: for every key of the first head,
    the mean of the values that the heads hold under it. *)
Fixpoint aggregate_head_keys (mean_dim0 : list vec -> vec)
    (head_updates : list (list (string * weight)))
    (ks : list string) (aggregated_head : state_dict) : result state_dict :=
  match ks with
  | [] => Ok aggregated_head
  | key :: ks' =>
      let stacked :=
        flat_map (fun h => match dict_get h key with
                           | Some w => [w]
                           | None => []
                           end) head_updates in
      match stacked with
      | [] => aggregate_head_keys mean_dim0 head_updates ks' aggregated_head
      | _ =>
          m <- torch_stack_mean mean_dim0 stacked ;;
          aggregate_head_keys mean_dim0 head_updates ks'
                              (dict_set aggregated_head key m)
      end
  end.

Definition aggregate_head (mean_dim0 : list vec -> vec)
    (head_updates : list (list (string * weight))) : result state_dict :=
  match head_updates with
  | [] => Ok []
  | [] :: _ => Ok []
  | h0 :: _ => aggregate_head_keys mean_dim0 head_updates (keys h0) []
  end.

(** [{**a, **b}] *)
Definition dict_merge {V : Type} (a b : list (string * V))
  : list (string * V) :=
  fold_left (fun d kv => dict_set d (fst kv) (snd kv)) b a.

(** [sum(xs) / len(xs)] on Python floats, the sum accumulated from left
    to right. *)
Definition py_mean (xs : list float64) : result float64 :=
  match xs with
  | [] => Raise ZeroDivisionError
  | _ => Ok (F64.div (fold_left F64.add xs F64.zero)
                     (F64.of_nat (length xs)))
  end.

(** The per-client writes of the persistence step, from index [i]. *)
Fixpoint write_clients (now round_db_id : Z) (distances : list float64)
    (crs : list client_result) (i : nat) : M unit :=
  match crs with
  | [] => ret tt
  | cr :: crs' =>
      let dist := nth i distances F64.zero in
      trust <~ lift (py_fdiv F64.one (F64.add F64.one dist)) ;;
      db_call (fun db =>
        DBWriter.write_client_update db now round_db_id (client_name cr)
          (local_loss (cr_meta cr)) (local_auc (cr_meta cr))
          (num_samples (cr_meta cr)) dist
          (encryption_status (cr_meta cr))) ;;;
      db_call (fun db =>
        DBWriter.write_trust_score db now (client_name cr) round_db_id
          trust dist (F64.ltb trust (F64.of_ratio 3 10))) ;;;
      write_clients now round_db_id distances crs' (S i)
  end.

(** How the body of the [for] loop ends. *)
Inductive loop_control : Type :=
| Break
| NextRound.

(** The body of the loop of [control_flow] for round [round_num]. *)
Definition round_body (env : round_env) (round_num : nat) : M loop_control :=
  if abort_triggered env then ret Break
  else
    self <~ get ;;
    (* Report round start to DB *)
    round_db_id <~
      db_call (fun db =>
        DBWriter.write_round db (Z.of_nat round_num) (job_id env)
          "in_progress" (Z.of_nat (min_clients self))
          None None (Some (round_start env)) None) ;;
    (* Collect results *)
    let client_results := collect_results (client_tasks env) in
    if length client_results <? min_clients self then
      match writer_and_id self round_db_id with
      | Some _ =>
          db_call (fun db =>
            DBWriter.write_round db (Z.of_nat round_num) None "failed"
              (Z.of_nat (length client_results)) None None None None) ;;;
          ret NextRound
      | None => ret NextRound
      end
    else
      (* Aggregate body weights using geometric median *)
      let body_updates := map body_weights client_results in
      aggregated_body <~ call_aggregate body_updates ;;
      distances <~
        lift (GeometricMedianAggregator.compute_distances
                (aggregator self) body_updates aggregated_body) ;;
      (* Aggregate head weights *)
      let head_updates := map head_weights client_results in
      aggregated_head <~
        lift (aggregate_head (torch_mean_dim0 env) head_updates) ;;
      (* Update global model *)
      set_global_model_weights (dict_merge aggregated_body aggregated_head) ;;;
      avg_loss <~
        lift (py_mean (map (fun r => local_loss (cr_meta r)) client_results)) ;;
      avg_auc <~
        lift (py_mean (map (fun r => local_auc (cr_meta r)) client_results)) ;;
      (* Write metrics to DB *)
      match writer_and_id self round_db_id with
      | Some round_db_id =>
          db_call (fun db =>
            DBWriter.write_round db (Z.of_nat round_num) None "completed"
              (Z.of_nat (length client_results)) (Some avg_loss)
              (Some avg_auc) (Some (round_start env))
              (Some (round_end env))) ;;;
          self <~ get ;;
          let weiszfeld_iters :=
            or_default
              (GeometricMedianAggregator._last_iterations (aggregator self))
              0 in
          db_call (fun db =>
            DBWriter.write_round_metric db round_db_id "geometric_median"
              weiszfeld_iters
              (GeometricMedianAggregator.eps (aggregator self)) 0%Z
              (agg_time_ms env)
              (length (filter (fun d => F64.ltb (F64.of_Z 2) d)
                              distances))) ;;;
          write_clients (write_time env) round_db_id distances
                        client_results 0 ;;;
          ret NextRound
      | None => ret NextRound
      end.

(** How [control_flow] ends. *)
Inductive exit : Type :=
| Finished
| Aborted
| Raised (e : exn).

(** The [for round_num in range(...)] loop with [remaining] rounds left;
    [env n] is what round [n] receives. *)
Fixpoint rounds_from (env : nat -> round_env) (round_num remaining : nat)
    (self : t) : t * exit :=
  match remaining with
  | 0 => (self, Finished)
  | S remaining' =>
      match round_body (env round_num) round_num self with
      | (self', Ok Break) => (self', Aborted)
      | (self', Ok NextRound) =>
          rounds_from env (S round_num) remaining' self'
      | (self', Raise e) => (self', Raised e)
      end
  end.

(** [control_flow(abort_signal, fl_ctx)] *)
Definition control_flow (env : nat -> round_env) (self : t) : t * exit :=
  rounds_from env 1 (num_rounds self) self.

End GeomMedianController.

Unset Implicit Arguments.

(** * Notions of the statements, and test data *)

(** ** Notions used in the statements *)

(** The shapes, element counts and concatenated elements of a state
    dict, in key order. *)

Definition shapes_of (sd : state_dict) : list (list nat) :=
  map (fun kv => shape (snd kv)) sd.

Definition numels_of (sd : state_dict) : list nat :=
  map (fun kv => numel (snd kv)) sd.

Definition flat_of (sd : state_dict) : vec :=
  concat (map (fun kv => data (snd kv)) sd).

(** The quantity that the geometric median minimises, for the triangle
    [(0,0)], [(1,0)], [(0,1)]: the sum of the Euclidean distances from
    [(x, y)] to the three points. *)
Definition sum_of_distances (x y : R) : R :=
  (sqrt (x * x + y * y) + sqrt ((x - 1) * (x - 1) + y * y)
   + sqrt (x * x + (y - 1) * (y - 1)))%R.

(** Lower bounds of [exp] at rational points, computed in fixed-point
    arithmetic with thirty decimal digits that rounds down: from
    [1 + y <= exp y] at [y = (n/10^6) / 2^16], squared sixteen times. *)

Definition fixed_scale : Z := 1000000000000000000000000000000%Z.

Definition sq_floor (u : Z) : Z := (u * u / fixed_scale)%Z.

(** [S * (1 + (n/1000000) / 2^16)], rounded down. *)
Definition exp_seed (n : Z) : Z :=
  (fixed_scale * (1000000 * 65536 + n) / (1000000 * 65536))%Z.

Definition exp_lower_bound (n : Z) : Z := Nat.iter 16 sq_floor (exp_seed n).

(** Every ciphertext of the map decrypts under the context of [self], to at
    least as many values as the shape registered for its key (if any)
    needs. *)
Definition decryptable (self : SelectiveHE.t) (cm : list (string * bytes))
  : Prop :=
  Forall (fun kv =>
            exists v,
              SelectiveHE.ckks_decrypt (SelectiveHE.ctx self) (snd kv) = Ok v /\
              forall shp,
                dict_get (SelectiveHE._shapes self) (fst kv) = Some shp ->
                prod_shape shp <= length v)
         cm.

(** What [decrypt_head] returns for one entry of the input. *)
Definition decrypted_entry (self : SelectiveHE.t) (kv : string * bytes)
    (out : string * tensor) : Prop :=
  fst out = fst kv /\
  exists shp v,
    dict_get (SelectiveHE._shapes self) (fst kv) = Some shp /\
    SelectiveHE.ckks_decrypt (SelectiveHE.ctx self) (snd kv) = Ok v /\
    shape (snd out) = shp /\
    data (snd out) = map F32.round (firstn (prod_shape shp) v) /\
    length (data (snd out)) = prod_shape shp.

(** The table is consistent: primary keys are distinct, so are the round
    numbers, and every key is below the next autoincrement value. *)
Definition consistent (db : DBWriter.t) : Prop :=
  NoDup (map DBWriter.tr_id (DBWriter.training_rounds db)) /\
  NoDup (map DBWriter.tr_round_number (DBWriter.training_rounds db)) /\
  Forall (fun i => (i < DBWriter.next_round_id db)%Z)
         (map DBWriter.tr_id (DBWriter.training_rounds db)).

Definition has_round_number (rn : Z) (r : DBWriter.training_round) : bool :=
  (DBWriter.tr_round_number r =? rn)%Z.


(** The table after [UPDATE ... WHERE id = i]. *)
Definition update_rows (i : Z) (v : DBWriter.round_values)
    (rows : list DBWriter.training_round) : list DBWriter.training_round :=
  map (fun r => if (DBWriter.tr_id r =? i)%Z
                then DBWriter.update_row v r else r)
      rows.

(** The row that records the failure of round [n] with [len] responses. *)
Definition failed_row (n len : nat) (row : DBWriter.training_round) : Prop :=
  DBWriter.tr_round_number row = Z.of_nat n /\
  DBWriter.tr_status row = Some "failed" /\
  DBWriter.tr_num_clients row = Some (Z.of_nat len).

(** The tensor that a head holds under [k]. *)
Definition tensor_at (k : string) (h : state_dict) : tensor :=
  match dict_get h k with
  | Some tn => tn
  | None => mkTensor [] []
  end.

(** A head as it arrives from a client: ciphertext bytes under each key. *)
Definition cipher_head (c : list (string * bytes)) : list (string * weight) :=
  map (fun kv => (fst kv, Cipher (snd kv))) c.

(** ** Test data *)

(** A state dict of two parameters, as in the aggregation test of the
    repository (shapes reduced). *)
Definition two_layer_dict : state_dict :=
  [ ("layer1.weight",
     mkTensor [2; 3] (map F32.of_Z [1; -2; 3; 0; 5; -7]%Z));
    ("layer2.bias", mkTensor [2] (map F32.of_Z [4; -1]%Z)) ].

(** The client updates [{p:[0,0]}, {p:[1,0]}, {p:[0,1]}]. *)
Definition three_points : list state_dict :=
  [ [("p", mkTensor [2] [F32.of_Z 0; F32.of_Z 0])];
    [("p", mkTensor [2] [F32.of_Z 1; F32.of_Z 0])];
    [("p", mkTensor [2] [F32.of_Z 0; F32.of_Z 1])] ].

(** The float32 number [14182528 * 2^-26 = 0.21133613...]. *)
Definition median_coordinate : float32 := S754_finite false 14182528 (-26).

Definition sample_clients : list DBWriter.client :=
  [ DBWriter.mkClient 1 "c-1" "site-1" "online" None;
    DBWriter.mkClient 2 "c-2" "site-2" "online" None;
    DBWriter.mkClient 3 "c-3" "site-3" "online" None ].

(** A database with the three clients and no rounds, which never fails. *)
Definition fresh_db : DBWriter.t :=
  DBWriter.mk [] [] [] [] sample_clients 1 1 1 1 [].

(** A database that holds a row for round 1 and whose next transaction
    fails. *)
Definition flaky_db : DBWriter.t :=
  DBWriter.mk
    [DBWriter.mkRound 1 1 None (Some "in_progress") (Some 3%Z) None None
                      (Some 500%Z) None]
    [] [] [] sample_clients 2 1 1 1 [true].

Definition ok_reply (body : state_dict) : GeomMedianController.shareable :=
  GeomMedianController.mkShareable GeomMedianController.RC_OK (Some body)
    (Some []) (Some (F64.of_ratio 1 2)) (Some (F64.of_ratio 3 4))
    (Some 100%Z) (Some "encrypted").

(** Three clients answer OK with the bodies of [three_points]. *)
Definition three_ok_tasks : list GeomMedianController.client_task :=
  zip_with (fun name body =>
              GeomMedianController.mkClientTask name (Some (ok_reply body)))
           ["site-1"; "site-2"; "site-3"] three_points.

(** Two of three clients answer OK, the third with an execution error. *)
Definition two_ok_tasks : list GeomMedianController.client_task :=
  [ GeomMedianController.mkClientTask "site-1"
      (Some (ok_reply [("p", mkTensor [2] [F32.of_Z 0; F32.of_Z 0])]));
    GeomMedianController.mkClientTask "site-2"
      (Some (ok_reply [("p", mkTensor [2] [F32.of_Z 1; F32.of_Z 0])]));
    GeomMedianController.mkClientTask "site-3"
      (Some (GeomMedianController.mkShareable
               GeomMedianController.EXECUTION_EXCEPTION
               None None None None None None)) ].

Definition env_of (tasks : list GeomMedianController.client_task)
  : GeomMedianController.round_env :=
  GeomMedianController.mkEnv false 1000 2000 2000 None tasks 7 np_mean_axis0.

(** A stand-in context for examples: [n > 0] values encrypt to [n] bytes,
    no value to a [ValueError], and a ciphertext of [n] bytes decrypts to
    [n] values. *)
Definition toy_context : SelectiveHE.context :=
  SelectiveHE.mkContext
    (fun flat => match flat with
                 | [] => Raise ValueError
                 | _ => Ok (string_of_list_ascii
                              (repeat "c"%char (length flat)))
                 end)
    (fun b => Ok (repeat F64.one (String.length b))).

Definition toy_he : SelectiveHE.t :=
  SelectiveHE.set_shapes (SelectiveHE.__init__ toy_context)
    [("classifier.weight", [2; 2]); ("classifier.bias", [2])].

Definition toy_cipher_map : list (string * bytes) :=
  [("classifier.weight", "cccccc"); ("classifier.bias", "cc")].

(** Two classifier heads as the clients send them: under each key the
    bytes of a serialised CKKS vector. *)
Definition encrypted_heads : list (list (string * bytes)) :=
  [ [("classifier.weight", "cccc"); ("classifier.bias", "cc")];
    [("classifier.weight", "cccc"); ("classifier.bias", "cc")] ].

(** The replies of two clients whose heads are encrypted. *)
Definition encrypted_tasks : list GeomMedianController.client_task :=
  zip_with (fun name c =>
              GeomMedianController.mkClientTask name
                (Some (GeomMedianController.mkShareable
                         GeomMedianController.RC_OK
                         (Some [("p", mkTensor [2] [F32.of_Z 0; F32.of_Z 1])])
                         (Some (cipher_head c)) (Some (F64.of_ratio 1 2))
                         (Some (F64.of_ratio 3 4)) (Some 100%Z)
                         (Some "encrypted"))))
           ["site-1"; "site-2"] encrypted_heads.

(** A C library that rounds correctly: the value of [exp] and [log]
    rounded to the nearest binary64 number. *)
Definition rounded_exp (x : R) : pyfloat := PyFloat.rnd (exp x).
Definition rounded_log (x : R) : pyfloat := PyFloat.rnd (ln x).

(** Three mechanisms with [delta = 0.5] or the subnormal [delta = 2^-1030]
    and [epsilon = 1] or [epsilon = 1024]. *)
Definition half_delta : DPNoise64.t :=
  DPNoise64.mk (Finite 1) (Finite (1 / 2)) (Finite 1) (Finite 1) (Finite 1).

Definition tiny_delta : DPNoise64.t :=
  DPNoise64.mk (Finite 1) (Finite (powerRZ 2 (-1030))) (Finite 1) (Finite 1)
               (Finite 1).

Definition huge_epsilon : DPNoise64.t :=
  DPNoise64.mk (Finite 1024) (Finite (1 / 2)) (Finite 1) (Finite 1)
               (Finite 1).

(** ** Notions of the further properties *)

(** [sd] can be aggregated beside [sd0]: it holds every key of [sd0], with
    as many elements under it. *)
Definition compatible (sd0 sd : state_dict) : Prop :=
  forall k, In k (keys sd0) ->
            exists tn, dict_get sd k = Some tn /\
                       length (data tn) = length (data (tensor_at k sd0)).

(** Neither an infinity nor a NaN. *)
Definition finite_float (x : spec_float) : Prop :=
  match x with
  | S754_zero _ | S754_finite _ _ _ => True
  | _ => False
  end.

Definition finite_dict (sd : state_dict) : Prop :=
  Forall (fun kv => Forall finite_float (data (snd kv))) sd.

(** The keys of a table are distinct and below the next autoincrement
    value. *)
Definition keys_below (ids : list Z) (next : Z) : Prop :=
  NoDup ids /\ Forall (fun i => (i < next)%Z) ids.

(** Every table that the writer inserts into has distinct primary keys
    below its next autoincrement value, and the round numbers are
    distinct. *)
Definition well_keyed (db : DBWriter.t) : Prop :=
  consistent db /\
  keys_below (map DBWriter.cu_id (DBWriter.client_updates db))
             (DBWriter.next_update_id db) /\
  keys_below (map DBWriter.rm_id (DBWriter.round_metrics db))
             (DBWriter.next_metric_id db) /\
  keys_below (map DBWriter.ts_id (DBWriter.trust_scores db))
             (DBWriter.next_trust_id db).

(** A database with a row for round 1 that is in progress. *)
Definition running_db : DBWriter.t :=
  DBWriter.mk
    [DBWriter.mkRound 1 1 (Some "job-7") (Some "in_progress") (Some 3%Z)
                      None None (Some 500%Z) None]
    [] [] [] sample_clients 2 1 1 1 [].

(** The controller without its database writer. *)
Definition without_db (s : GeomMedianController.t) : GeomMedianController.t :=
  GeomMedianController.mk
    (GeomMedianController.num_rounds s) (GeomMedianController.min_clients s)
    (GeomMedianController.aggregator s) None
    (GeomMedianController.global_model_weights s).

(** A computation of the controller that changes nothing but the
    database. *)
Definition db_only {A : Type} (m : GeomMedianController.M A) : Prop :=
  forall s s' r, m s = (s', r) -> without_db s' = without_db s.

(** * Properties *)

(** ** Dictionaries *)

Section DictFacts.
Context {V : Type}.
Implicit Types (d : list (string * V)) (k : string) (v : V).

Lemma dict_get_in d k : In k (keys d) -> exists v, dict_get d k = Some v.
Proof.
  induction d as [|[k' v'] d IH]; simpl; intros Hin; [contradiction|].
  destruct (String.eqb_spec k' k) as [->|Hne]; [now exists v'|].
  apply IH. destruct Hin; [contradiction | assumption].
Qed.

Lemma dict_get_app_fresh d1 d2 k v :
  ~ In k (keys d1) -> dict_get (d1 ++ (k, v) :: d2) k = Some v.
Proof.
  induction d1 as [|[k' v'] d1 IH]; simpl; intros Hn.
  - now rewrite String.eqb_refl.
  - destruct (String.eqb_spec k' k) as [->|Hne]; [exfalso; tauto|].
    apply IH; tauto.
Qed.

Lemma dict_set_fresh d k v :
  ~ In k (keys d) -> dict_set d k v = d ++ [(k, v)].
Proof.
  induction d as [|[k' v'] d IH]; simpl; intros Hn; [reflexivity|].
  destruct (String.eqb_spec k' k) as [->|Hne]; [exfalso; tauto|].
  rewrite IH by tauto. reflexivity.
Qed.

Lemma keys_app d1 d2 : keys (d1 ++ d2) = keys d1 ++ keys d2.
Proof. unfold keys. apply map_app. Qed.

End DictFacts.

(** ** Flatten and unflatten *)

Lemma tensor_eta (tn : tensor) : mkTensor (shape tn) (data tn) = tn.
Proof. now destruct tn. Qed.

Lemma reshape_own (tn : tensor) :
  wf_tensor tn -> reshape (data tn) (shape tn) = Ok tn.
Proof.
  unfold wf_tensor, reshape, numel. intros ->.
  now rewrite Nat.eqb_refl, tensor_eta.
Qed.

Lemma slice_middle {A : Type} (pre mid post : list A) :
  slice (pre ++ mid ++ post) (length pre) (length pre + length mid) = mid.
Proof.
  unfold slice.
  replace (length pre + length mid - length pre) with (length mid) by lia.
  rewrite skipn_app, skipn_all, Nat.sub_diag. simpl.
  rewrite firstn_app, firstn_all, Nat.sub_diag. simpl.
  apply app_nil_r.
Qed.

(** Reading the tensors of a dict by its own keys finds each of them. *)
Lemma flatten_parts_own (pre sd : state_dict) :
  NoDup (keys (pre ++ sd)) ->
  mapM (fun k => tn <- dict_item (pre ++ sd) k ;; Ok (data tn)) (keys sd)
  = Ok (map (fun kv => data (snd kv)) sd).
Proof.
  revert pre. induction sd as [|[k tn] sd IH]; intros pre Hnd; [reflexivity|].
  simpl. unfold dict_item at 1.
  rewrite keys_app in Hnd. simpl in Hnd.
  rewrite dict_get_app_fresh
    by (apply NoDup_remove_2 in Hnd; intros Hin; apply Hnd, in_or_app; now left).
  simpl.
  specialize (IH (pre ++ [(k, tn)])).
  rewrite <- app_assoc in IH. simpl in IH. rewrite IH; [reflexivity|].
  rewrite keys_app. simpl. exact Hnd.
Qed.

Lemma flatten_own (sd : state_dict) :
  sd <> [] -> NoDup (keys sd) ->
  GeometricMedianAggregator._flatten_state_dict sd (keys sd) = Ok (flat_of sd).
Proof.
  intros Hne Hnd. unfold GeometricMedianAggregator._flatten_state_dict.
  pose proof (flatten_parts_own [] sd Hnd) as Hparts. simpl in Hparts.
  rewrite Hparts. simpl.
  destruct sd; [congruence | reflexivity].
Qed.

(** The invariant of the unflatten loop: with [acc] rebuilt from the part
    [done] of the vector, the loop appends the tensors of [sd]. *)
Lemma unflatten_loop_own (sd acc : state_dict) (done : vec) :
  NoDup (keys acc ++ keys sd) ->
  Forall wf_tensor (map snd sd) ->
  GeometricMedianAggregator.unflatten_loop (done ++ flat_of sd)
    (combine (combine (keys sd) (shapes_of sd)) (numels_of sd))
    (length done) acc
  = Ok (acc ++ sd).
Proof.
  revert acc done.
  induction sd as [|[k tn] sd IH]; intros acc done Hnd Hwf; simpl.
  - now rewrite app_nil_r.
  - inversion Hwf as [|? ? Hwt Hwf']; subst. simpl in Hwt.
    unfold flat_of. simpl. fold (flat_of sd).
    red in Hwt. rewrite <- Hwt.
    rewrite slice_middle, reshape_own by exact Hwt. simpl.
    assert (Hfresh : ~ In k (keys acc)).
    { apply NoDup_remove_2 in Hnd. intros Hin. apply Hnd, in_or_app. now left. }
    rewrite dict_set_fresh by exact Hfresh.
    specialize (IH (acc ++ [(k, tn)]) (done ++ data tn)).
    rewrite length_app, <- !app_assoc in IH. simpl in IH.
    apply IH; [|exact Hwf'].
    rewrite keys_app, <- app_assoc. exact Hnd.
Qed.

(** C5 (as amended): for every non-empty state dict [T] of float32 tensors
    with distinct keys, flattening [T] along its own key list succeeds, and
    unflattening the vector with the keys, shapes and element counts of [T]
    returns exactly [T]: the same keys in the same order, the same shapes,
    and the same element values. *)
Theorem unflatten_flatten_roundtrip (T : state_dict) :
  T <> [] ->
  wf_state_dict T ->
  exists flat,
    GeometricMedianAggregator._flatten_state_dict T (keys T) = Ok flat /\
    GeometricMedianAggregator._unflatten_to_state_dict
      flat (keys T) (shapes_of T) (numels_of T) = Ok T.
Proof.
  intros Hne [Hnd Hwf]. exists (flat_of T). split.
  - now apply flatten_own.
  - unfold GeometricMedianAggregator._unflatten_to_state_dict.
    apply (unflatten_loop_own T [] []); assumption.
Qed.

Lemma two_layer_dict_wf : wf_state_dict two_layer_dict.
Proof.
  split.
  - repeat constructor; simpl; intuition discriminate.
  - repeat constructor.
Defined.

Lemma unflatten_flatten_roundtrip_witness :
  exists flat,
    GeometricMedianAggregator._flatten_state_dict
      two_layer_dict (keys two_layer_dict) = Ok flat /\
    GeometricMedianAggregator._unflatten_to_state_dict
      flat (keys two_layer_dict) (shapes_of two_layer_dict)
      (numels_of two_layer_dict) = Ok two_layer_dict.
Proof.
  apply (unflatten_flatten_roundtrip two_layer_dict).
  - discriminate.
  - exact two_layer_dict_wf.
Defined.

(** C5 (as stated) fails at the empty state dict: it is well formed, and
    flattening it raises ([np.concatenate] of no arrays), so that there is
    no vector to unflatten. *)
Lemma flatten_empty_dict_raises :
  wf_state_dict [] /\
  GeometricMedianAggregator._flatten_state_dict [] (keys ([] : state_dict))
  = Raise ValueError.
Proof.
  split; [split; constructor | reflexivity].
Qed.

(** ** The known geometric median *)

Lemma aggregate_three_points :
  snd (GeometricMedianAggregator.aggregate
         GeometricMedianAggregator.default three_points)
  = Ok [("p", mkTensor [2] [median_coordinate; median_coordinate])].
Proof. vm_compute. reflexivity. Qed.

(** C1 (as stated) fails: on the three updates the aggregate at [p] is
    [[0.21134, 0.21134]], which is not within 0.01 of [[0.3113, 0.3113]]. *)
Lemma known_median_is_not_03113 :
  snd (GeometricMedianAggregator.aggregate
         GeometricMedianAggregator.default three_points)
  = Ok [("p", mkTensor [2] [median_coordinate; median_coordinate])] /\
  within (1 # 100) (3113 # 10000) median_coordinate = false.
Proof. split; vm_compute; reflexivity. Qed.

(** C1 (as amended): for the three client updates [{p:[0,0]}], [{p:[1,0]}],
    [{p:[0,1]}], [aggregate] with the default parameters ([max_iter=100],
    [eps=1e-5]) returns a map with the single key [p], of shape [(2,)],
    whose two values are within absolute tolerance 0.01 of 0.2113, the
    geometric median [(3 - sqrt 3) / 6] of the triangle. *)
Theorem known_geometric_median :
  exists tn,
    snd (GeometricMedianAggregator.aggregate
           GeometricMedianAggregator.default three_points) = Ok [("p", tn)] /\
    shape tn = [2] /\
    length (data tn) = 2 /\
    forallb (within (1 # 100) (2113 # 10000)) (data tn) = true.
Proof.
  exists (mkTensor [2] [median_coordinate; median_coordinate]).
  split; [exact aggregate_three_points|].
  repeat split; vm_compute; reflexivity.
Qed.

(** The point [(0.3113, 0.3113)] is not the geometric median of the
    triangle: the point [(0.2113, 0.2113)] has a smaller sum of
    distances. *)
Section ExactMedian.
Local Open Scope R_scope.

Lemma sqrt_le_of_square (a u : R) : 0 <= u -> a <= u * u -> sqrt a <= u.
Proof.
  intros Hu Ha. rewrite <- (sqrt_square u) by assumption.
  now apply sqrt_le_1_alt.
Qed.

Lemma sqrt_ge_of_square (a l : R) : 0 <= l -> l * l <= a -> l <= sqrt a.
Proof.
  intros Hl Ha. rewrite <- (sqrt_square l) at 1 by assumption.
  now apply sqrt_le_1_alt.
Qed.

Lemma sum_of_distances_03113_not_minimal :
  sum_of_distances (2113 / 10000) (2113 / 10000)
  < sum_of_distances (3113 / 10000) (3113 / 10000).
Proof.
  unfold sum_of_distances.
  set (a := 2113 / 10000). set (b := 3113 / 10000).
  assert (Ha0 : sqrt (a * a + a * a) <= 2989 / 10000)
    by (apply sqrt_le_of_square; unfold a; lra).
  assert (Ha1 : sqrt ((a - 1) * (a - 1) + a * a) <= 8166 / 10000)
    by (apply sqrt_le_of_square; unfold a; lra).
  assert (Ha2 : sqrt (a * a + (a - 1) * (a - 1)) <= 8166 / 10000)
    by (apply sqrt_le_of_square; unfold a; lra).
  assert (Hb0 : 4402 / 10000 <= sqrt (b * b + b * b))
    by (apply sqrt_ge_of_square; unfold b; lra).
  assert (Hb1 : 7557 / 10000 <= sqrt ((b - 1) * (b - 1) + b * b))
    by (apply sqrt_ge_of_square; unfold b; lra).
  assert (Hb2 : 7557 / 10000 <= sqrt (b * b + (b - 1) * (b - 1)))
    by (apply sqrt_ge_of_square; unfold b; lra).
  lra.
Qed.

End ExactMedian.

(** ** The iteration count *)

Lemma weiszfeld_three_points_iterations :
  snd (GeometricMedianAggregator._weiszfeld GeometricMedianAggregator.default
         (map (fun sd => flat_of sd) three_points)) = 23.
Proof. vm_compute. reflexivity. Qed.

(** C4: on the three updates of C1 the Weiszfeld loop performs 23
    iterations, yet after [aggregate] the aggregator has no
    [_last_iterations] attribute, and a controller round over these updates
    persists [weiszfeld_iterations = 0] in its round-metric row. *)
Theorem weiszfeld_iterations_not_recorded :
  snd (GeometricMedianAggregator._weiszfeld GeometricMedianAggregator.default
         (map (fun sd => flat_of sd) three_points)) = 23 /\
  GeometricMedianAggregator._last_iterations
    (fst (GeometricMedianAggregator.aggregate
            GeometricMedianAggregator.default three_points)) = None /\
  (let out := GeomMedianController.round_body (env_of three_ok_tasks) 1
                (GeomMedianController.__init__ 1 3 (Some fresh_db)) in
   snd out = Ok GeomMedianController.NextRound /\
   option_map (fun db => map DBWriter.rm_weiszfeld_iterations
                             (DBWriter.round_metrics db))
              (GeomMedianController.db_writer (fst out)) = Some [0]).
Proof.
  split; [exact weiszfeld_three_points_iterations|].
  split; [reflexivity|].
  vm_compute. split; reflexivity.
Qed.

(** ** Differential privacy: construction of the mechanism *)

Section DPNoiseFacts.
Local Open Scope R_scope.

Lemma ln_pos_gt_1 (x : R) : 1 < x -> 0 < ln x.
Proof. intros H. rewrite <- ln_1. apply ln_increasing; lra. Qed.

Lemma ratio_gt (c d : R) : 0 < c -> 0 < d -> d < 1 -> c < c / d.
Proof.
  intros Hc Hd Hd1. unfold Rdiv.
  rewrite <- (Rmult_1_r c) at 1.
  apply Rmult_lt_compat_l; [assumption|].
  rewrite <- Rinv_1. apply Rinv_lt_contravar; lra.
Qed.

(** With [0 < delta < 1] and [epsilon <> 0] none of the operations of
    [compute_sigma] raises. *)
Lemma compute_sigma_ok (self : DPNoise.t) :
  0 < DPNoise.delta self -> DPNoise.delta self < 1 ->
  DPNoise.epsilon self <> 0 ->
  DPNoise.compute_sigma self
  = Ok (DPNoise.sensitivity self
        * sqrt (2 * ln (1.25 / DPNoise.delta self)) / DPNoise.epsilon self).
Proof.
  intros Hd Hd1 He. unfold DPNoise.compute_sigma, py_div, math_log, math_sqrt.
  destruct (Req_dec_T (DPNoise.delta self) 0) as [E|_]; [lra|]. simpl.
  pose proof (ratio_gt 1.25 _ ltac:(lra) Hd Hd1) as Hq.
  destruct (Rle_dec (1.25 / DPNoise.delta self) 0) as [E|_]; [lra|]. simpl.
  pose proof (ln_pos_gt_1 (1.25 / DPNoise.delta self) ltac:(lra)) as Hl.
  destruct (Rlt_dec (2.0 * ln (1.25 / DPNoise.delta self)) 0) as [E|_]; [lra|].
  simpl.
  destruct (Req_dec_T (DPNoise.epsilon self) 0) as [E|_]; [contradiction|].
  replace (2.0 * ln (1.25 / DPNoise.delta self))
    with (2 * ln (1.25 / DPNoise.delta self)) by lra.
  reflexivity.
Qed.

(** The constructor on valid [epsilon] and [delta]. *)
Lemma DPNoise_init_ok (epsilon delta sensitivity max_grad_norm : R) :
  0 < epsilon -> 0 < delta -> delta < 1 ->
  DPNoise.__init__ epsilon delta sensitivity max_grad_norm
  = Ok (DPNoise.mk epsilon delta sensitivity max_grad_norm
          (sensitivity * sqrt (2 * ln (1.25 / delta)) / epsilon)).
Proof.
  intros He Hd Hd1. unfold DPNoise.__init__.
  destruct (Rle_dec epsilon 0) as [E|_]; [lra|].
  destruct (Rle_dec delta 0) as [E|_]; [lra|].
  destruct (Rge_dec delta 1) as [E|_]; [lra|].
  rewrite compute_sigma_ok by (simpl; lra). reflexivity.
Qed.



(** *** Rounding to the nearest integer is monotone *)

Lemma Int_part_bounds (x : R) : IZR (Int_part x) <= x < IZR (Int_part x) + 1.
Proof. destruct (base_Int_part x). lra. Qed.

Lemma Int_part_le (x y : R) : x <= y -> (Int_part x <= Int_part y)%Z.
Proof.
  intros Hxy.
  pose proof (Int_part_bounds x). pose proof (Int_part_bounds y).
  assert (H1 : IZR (Int_part x) < IZR (Int_part y + 1)).
  { rewrite plus_IZR. lra. }
  apply lt_IZR in H1. lia.
Qed.

Lemma round_half_even_range (x : R) :
  (Int_part x <= round_half_even x <= Int_part x + 1)%Z.
Proof.
  unfold round_half_even.
  repeat match goal with |- context [if ?c then _ else _] => destruct c end;
    lia.
Qed.

Lemma round_half_even_monotone (x y : R) :
  x <= y -> (round_half_even x <= round_half_even y)%Z.
Proof.
  intros Hxy.
  pose proof (Int_part_le x y Hxy) as Hn.
  pose proof (round_half_even_range x) as Hx.
  pose proof (round_half_even_range y) as Hy.
  destruct (Z.eq_dec (Int_part x) (Int_part y)) as [E|NE]; [|lia].
  revert Hx Hy. unfold round_half_even. rewrite <- E.
  destruct (Rlt_dec (x - IZR (Int_part x)) (1 / 2)) as [Hx1|Hx1];
    [intros; lia|].
  destruct (Rlt_dec (y - IZR (Int_part x)) (1 / 2)) as [Hy1|Hy1]; [lra|].
  destruct (Rlt_dec (1 / 2) (y - IZR (Int_part x))) as [Hy2|Hy2];
    [repeat match goal with |- context [if ?c then _ else _] => destruct c end;
     intros; lia|].
  destruct (Rlt_dec (1 / 2) (x - IZR (Int_part x))) as [Hx2|Hx2]; [lra|].
  intros; lia.
Qed.

End DPNoiseFacts.

(** ** The noise scale of the default configuration *)

(** Bounds on [exp] at rational points, from [1 + y <= exp y] and repeated
    squaring in fixed-point arithmetic that rounds down. *)

Section ExpBounds.
Local Open Scope R_scope.

Lemma fixed_scale_pos : 0 < IZR fixed_scale.
Proof. unfold fixed_scale. lra. Qed.

Lemma sq_floor_sound (u : Z) (y : R) :
  (0 <= u)%Z -> IZR u / IZR fixed_scale <= exp y ->
  (0 <= sq_floor u)%Z /\ IZR (sq_floor u) / IZR fixed_scale <= exp (2 * y).
Proof.
  intros Hu Hb. pose proof fixed_scale_pos as HS.
  assert (HSz : (0 < fixed_scale)%Z) by reflexivity.
  split.
  - unfold sq_floor. apply Z.div_pos; [nia | assumption].
  - assert (Hq : IZR (sq_floor u) * IZR fixed_scale <= IZR u * IZR u).
    { rewrite <- !mult_IZR. apply IZR_le. unfold sq_floor.
      rewrite Z.mul_comm. apply Z.mul_div_le. assumption. }
    assert (H0 : 0 <= IZR u / IZR fixed_scale).
    { apply Rmult_le_pos; [now apply IZR_le|].
      left. now apply Rinv_0_lt_compat. }
    replace (2 * y) with (y + y) by lra. rewrite exp_plus.
    apply Rle_trans
      with ((IZR u / IZR fixed_scale) * (IZR u / IZR fixed_scale)).
    + apply Rmult_le_reg_r with (IZR fixed_scale); [assumption|].
      transitivity (IZR (sq_floor u)); [right; field; lra|].
      apply Rmult_le_reg_r with (IZR fixed_scale); [assumption|].
      transitivity (IZR u * IZR u); [assumption | right; field; lra].
    + apply Rmult_le_compat; assumption.
Qed.

Lemma sq_floor_iter_sound (k : nat) (u : Z) (y : R) :
  (0 <= u)%Z -> IZR u / IZR fixed_scale <= exp y ->
  (0 <= Nat.iter k sq_floor u)%Z /\
  IZR (Nat.iter k sq_floor u) / IZR fixed_scale <= exp (2 ^ k * y).
Proof.
  intros Hu Hb. induction k as [|k [IH0 IH]].
  - simpl. split; [assumption|]. now rewrite Rmult_1_l.
  - simpl Nat.iter.
    replace (2 ^ S k * y) with (2 * (2 ^ k * y)) by (simpl; lra).
    now apply sq_floor_sound.
Qed.

(** For [-65536000000 <= n], [exp_lower_bound n / S <= exp (n / 10^6)]. *)
Lemma exp_lower_bound_sound (n : Z) :
  (- 65536000000 <= n)%Z ->
  IZR (exp_lower_bound n) / IZR fixed_scale <= exp (IZR n / 1000000).
Proof.
  intros Hn. pose proof fixed_scale_pos as HS.
  set (y := IZR n / 1000000 / 65536).
  assert (Hseed0 : (0 <= exp_seed n)%Z).
  { unfold exp_seed. apply Z.div_pos; [unfold fixed_scale; lia | lia]. }
  assert (Hseed : IZR (exp_seed n) / IZR fixed_scale <= exp y).
  { apply Rle_trans with (1 + y); [|apply exp_ineq1_le].
    assert (Hq : IZR (exp_seed n) * IZR (1000000 * 65536)
                 <= IZR (fixed_scale * (1000000 * 65536 + n))).
    { rewrite <- mult_IZR. apply IZR_le. unfold exp_seed.
      rewrite Z.mul_comm. apply Z.mul_div_le. lia. }
    rewrite !mult_IZR, plus_IZR in Hq.
    apply Rmult_le_reg_r with (IZR fixed_scale * 65536000000); [nra|].
    replace (IZR (exp_seed n) / IZR fixed_scale
             * (IZR fixed_scale * 65536000000))
      with (IZR (exp_seed n) * (1000000 * 65536)) by (field; lra).
    replace ((1 + y) * (IZR fixed_scale * 65536000000))
      with (IZR fixed_scale * (1000000 * 65536 + IZR n))
      by (unfold y; field).
    rewrite mult_IZR in Hq. exact Hq. }
  destruct (sq_floor_iter_sound 16 (exp_seed n) y Hseed0 Hseed) as [_ H].
  replace (IZR n / 1000000) with (2 ^ 16 * y) by (unfold y; field).
  exact H.
Qed.

Lemma exp_11_741858_lower : 125000 <= exp (11741858 / 1000000).
Proof.
  pose proof (exp_lower_bound_sound 11741858 ltac:(lia)) as H.
  assert (E : exp_lower_bound 11741858
              = 125593559221875036613958737903400996%Z)
    by (vm_compute; reflexivity).
  rewrite E in H. unfold fixed_scale in H. lra.
Qed.

Lemma exp_11_732168_upper : exp (11732168 / 1000000) <= 125000.
Proof.
  pose proof (exp_lower_bound_sound (-11732168) ltac:(lia)) as H.
  assert (E : exp_lower_bound (-11732168) = 8022838556808162634146662%Z)
    by (vm_compute; reflexivity).
  rewrite E in H. unfold fixed_scale in H.
  replace (IZR (-11732168) / 1000000) with (- (11732168 / 1000000)) in H
    by lra.
  rewrite exp_Ropp in H.
  pose proof (exp_pos (11732168 / 1000000)) as Hp.
  set (e := exp (11732168 / 1000000)) in *.
  assert (Hlow : / 125000 <= / e) by lra.
  apply Rnot_lt_le. intros Hlt.
  assert (Hinv : / e < / 125000) by (apply Rinv_lt_contravar; nra).
  lra.
Qed.

Lemma ln_125000_bounds :
  11732168 / 1000000 <= ln 125000 <= 11741858 / 1000000.
Proof.
  assert (He : exp (ln 125000) = 125000) by (apply exp_ln; lra).
  split; apply Rnot_lt_le; intros Hlt; apply exp_increasing in Hlt;
    rewrite He in Hlt.
  - pose proof exp_11_732168_upper. lra.
  - pose proof exp_11_741858_lower. lra.
Qed.

Lemma sqrt_2_ln_125000_bounds :
  4844 / 1000 <= sqrt (2 * ln 125000) <= 4846 / 1000.
Proof.
  destruct ln_125000_bounds as [Hl Hu].
  split.
  - rewrite <- (sqrt_square (4844 / 1000)) by lra.
    apply sqrt_le_1; lra.
  - rewrite <- (sqrt_square (4846 / 1000)) by lra.
    apply sqrt_le_1; lra.
Qed.

(** The sigma of [DPNoise(epsilon=1.0, delta=1e-5, sensitivity=1.0)]. *)
Lemma default_sigma_value :
  exists d,
    DPNoise.__init__ 1 (1 / 100000) 1 1 = Ok d /\
    DPNoise.sigma d = sqrt (2 * ln 125000).
Proof.
  eexists. split; [apply DPNoise_init_ok; lra|]. simpl.
  replace (1.25 / (1 / 100000)) with 125000 by lra.
  unfold Rdiv. rewrite Rinv_1. lra.
Qed.

(** C3 (as stated) fails: the sigma of the default configuration is
    [4.8448...], further than [1e-3] from [4.823]. *)
Lemma default_sigma_is_not_4823 :
  exists d,
    DPNoise.__init__ 1 (1 / 100000) 1 1 = Ok d /\
    ~ Rabs (DPNoise.sigma d - 4823 / 1000) <= 1 / 1000.
Proof.
  destruct default_sigma_value as [d [E Hs]].
  exists d. split; [exact E|].
  rewrite Hs. destruct sqrt_2_ln_125000_bounds as [Hl _].
  intros Habs. unfold Rabs in Habs.
  destruct (Rcase_abs (sqrt (2 * ln 125000) - 4823 / 1000)); lra.
Qed.

(** C3 (as amended): a DPNoise constructed with [epsilon=1.0],
    [delta=1e-5], [sensitivity=1.0] stores at construction the noise scale
    [sigma = sensitivity * sqrt(2 * ln(1.25/delta)) / epsilon], and this
    value is within [1e-3] of [4.845]. *)
Theorem default_sigma_is_4845 :
  exists d,
    DPNoise.__init__ 1 (1 / 100000) 1 1 = Ok d /\
    DPNoise.sigma d = 1 * sqrt (2 * ln (1.25 / (1 / 100000))) / 1 /\
    Rabs (DPNoise.sigma d - 4845 / 1000) <= 1 / 1000.
Proof.
  destruct default_sigma_value as [d [E Hs]].
  exists d. split; [exact E|]. split.
  - rewrite Hs. replace (1.25 / (1 / 100000)) with 125000 by lra.
    unfold Rdiv. rewrite Rinv_1. lra.
  - rewrite Hs. destruct sqrt_2_ln_125000_bounds as [Hl Hu].
    apply Rabs_le. lra.
Qed.

End ExpBounds.

(** ** Selective HE: decryption against the shape registry *)

Lemma decrypt_tensor_ok (self : SelectiveHE.t) (enc : bytes) (shp : list nat)
    (v : list float64) :
  SelectiveHE.ckks_decrypt (SelectiveHE.ctx self) enc = Ok v ->
  prod_shape shp <= length v ->
  SelectiveHE.decrypt_tensor self enc shp
  = Ok (mkTensor shp (map F32.round (firstn (prod_shape shp) v))).
Proof.
  intros Hd Hlen. unfold SelectiveHE.decrypt_tensor. rewrite Hd. simpl.
  unfold reshape. rewrite length_map, firstn_length_le by assumption.
  now rewrite Nat.eqb_refl.
Qed.

Lemma registered_or_missing (self : SelectiveHE.t) (ks : list string) :
  (forall name, In name ks ->
                dict_get (SelectiveHE._shapes self) name <> None) \/
  (exists name, In name ks /\
                dict_get (SelectiveHE._shapes self) name = None).
Proof.
  induction ks as [|k ks [IH|[name [Hin Hn]]]].
  - left. intros ? [].
  - destruct (dict_get (SelectiveHE._shapes self) k) eqn:E.
    + left. intros name [<-|Hin]; [congruence | now apply IH].
    + right. exists k. split; [now left | assumption].
  - right. exists name. split; [now right | assumption].
Qed.

Lemma decrypt_head_loop_ok (self : SelectiveHE.t) (cm : list (string * bytes))
    (acc : state_dict) :
  NoDup (keys acc ++ keys cm) ->
  decryptable self cm ->
  (forall name, In name (keys cm) ->
                dict_get (SelectiveHE._shapes self) name <> None) ->
  exists d,
    SelectiveHE.decrypt_head_loop self cm acc = Ok (acc ++ d) /\
    Forall2 (decrypted_entry self) cm d.
Proof.
  revert acc. induction cm as [|[name enc] cm IH]; intros acc Hnd Hdec Hreg.
  - exists []. simpl. rewrite app_nil_r. split; constructor.
  - inversion Hdec as [|? ? [v [Hv Hlen]] Hdec']; subst. simpl in *.
    destruct (dict_get (SelectiveHE._shapes self) name) as [shp|] eqn:Hs;
      [|exfalso; apply (Hreg name); [now left | assumption]].
    rewrite (decrypt_tensor_ok self enc shp v Hv (Hlen shp eq_refl)). simpl.
    assert (Hfresh : ~ In name (keys acc)).
    { apply NoDup_remove_2 in Hnd. intros Hin. apply Hnd, in_or_app.
      now left. }
    rewrite dict_set_fresh by exact Hfresh.
    set (tn := mkTensor shp (map F32.round (firstn (prod_shape shp) v))).
    destruct (IH (acc ++ [(name, tn)])) as [d [Hd Hall]].
    + rewrite keys_app, <- app_assoc. exact Hnd.
    + exact Hdec'.
    + intros n Hin. apply Hreg. now right.
    + exists ((name, tn) :: d). split.
      * rewrite Hd, <- app_assoc. reflexivity.
      * constructor; [|exact Hall].
        split; [reflexivity|]. exists shp, v. simpl.
        repeat split; try assumption.
        rewrite length_map. apply firstn_length_le. now apply Hlen.
Qed.

Lemma decrypt_head_loop_missing (self : SelectiveHE.t)
    (cm : list (string * bytes)) (acc : state_dict) :
  decryptable self cm ->
  (exists name, In name (keys cm) /\
                dict_get (SelectiveHE._shapes self) name = None) ->
  SelectiveHE.decrypt_head_loop self cm acc = Raise ValueError.
Proof.
  revert acc. induction cm as [|[name enc] cm IH]; intros acc Hdec Hmiss.
  - destruct Hmiss as [? [[] _]].
  - inversion Hdec as [|? ? [v [Hv Hlen]] Hdec']; subst. simpl in *.
    destruct (dict_get (SelectiveHE._shapes self) name) as [shp|] eqn:Hs;
      [|reflexivity].
    rewrite (decrypt_tensor_ok self enc shp v Hv (Hlen shp eq_refl)). simpl.
    apply IH; [exact Hdec'|].
    destruct Hmiss as [n [[<-|Hin] Hn]]; [congruence|].
    exists n. now split.
Qed.

(** C9 (as amended): let the ciphertexts of [cipher_map] decrypt under the
    context of the instance, each to at least as many values as the shape
    registered for its key needs.  Then [decrypt_head] fails with the
    [ValueError] of a missing shape if and only if some key of the map has
    no shape in the registry; and when every key is registered it returns,
    for each input entry in order, the same key with a tensor of exactly
    the registered shape, holding the first [product(shape)] decrypted
    values. *)
Theorem decrypt_head_missing_shape (self : SelectiveHE.t)
    (cipher_map : list (string * bytes)) :
  NoDup (keys cipher_map) ->
  decryptable self cipher_map ->
  (SelectiveHE.decrypt_head self cipher_map = Raise ValueError <->
   exists name, In name (keys cipher_map) /\
                dict_get (SelectiveHE._shapes self) name = None) /\
  ((forall name, In name (keys cipher_map) ->
                 dict_get (SelectiveHE._shapes self) name <> None) ->
   exists d,
     SelectiveHE.decrypt_head self cipher_map = Ok d /\
     Forall2 (decrypted_entry self) cipher_map d).
Proof.
  intros Hnd Hdec. unfold SelectiveHE.decrypt_head. split; [split|].
  - intros Hraise.
    destruct (registered_or_missing self (keys cipher_map)) as [Hreg|Hmiss];
      [|exact Hmiss].
    destruct (decrypt_head_loop_ok self cipher_map [] Hnd Hdec Hreg)
      as [d [Hd _]].
    congruence.
  - now apply decrypt_head_loop_missing.
  - intros Hreg.
    destruct (decrypt_head_loop_ok self cipher_map [] Hnd Hdec Hreg)
      as [d [Hd Hall]].
    exists d. split; assumption.
Qed.

Lemma toy_cipher_map_decryptable : decryptable toy_he toy_cipher_map.
Proof.
  repeat constructor; simpl; eexists; (split; [reflexivity|]);
    intros shp E; injection E as <-; simpl; lia.
Defined.

Lemma decrypt_head_missing_shape_witness :
  (SelectiveHE.decrypt_head toy_he toy_cipher_map = Raise ValueError <->
   exists name, In name (keys toy_cipher_map) /\
                dict_get (SelectiveHE._shapes toy_he) name = None) /\
  ((forall name, In name (keys toy_cipher_map) ->
                 dict_get (SelectiveHE._shapes toy_he) name <> None) ->
   exists d,
     SelectiveHE.decrypt_head toy_he toy_cipher_map = Ok d /\
     Forall2 (decrypted_entry toy_he) toy_cipher_map d).
Proof.
  apply (decrypt_head_missing_shape toy_he toy_cipher_map).
  - repeat constructor; simpl; intuition discriminate.
  - exact toy_cipher_map_decryptable.
Defined.

(** C9 (as stated) fails: the only key is registered, with shape [(3,)],
    and its ciphertext decrypts under the context, to two values; the call
    returns no tensor of the registered shape but raises the
    [RuntimeError] of [reshape]. *)
Lemma decrypt_head_short_ciphertext :
  let he := SelectiveHE.set_shapes (SelectiveHE.__init__ toy_context)
              [("classifier.bias", [3])] in
  dict_get (SelectiveHE._shapes he) "classifier.bias" = Some [3] /\
  SelectiveHE.ckks_decrypt (SelectiveHE.ctx he) "cc"
  = Ok [F64.one; F64.one] /\
  SelectiveHE.decrypt_head he [("classifier.bias", "cc")]
  = Raise RuntimeError.
Proof. repeat split. Qed.

(** ** The metrics writer: upsert of rounds *)

Section WriteRound.
Local Open Scope Z_scope.

Lemma NoDup_map_injective {A B : Type} (f : A -> B) (l : list A) (x y : A) :
  NoDup (map f l) -> In x l -> In y l -> f x = f y -> x = y.
Proof.
  induction l as [|a l IH]; simpl; intros Hnd Hx Hy Hf; [contradiction|].
  inversion Hnd as [|? ? Hnotin Hnd']; subst.
  destruct Hx as [->|Hx], Hy as [->|Hy]; try reflexivity.
  - exfalso. apply Hnotin. rewrite Hf. now apply in_map.
  - exfalso. apply Hnotin. rewrite <- Hf. now apply in_map.
  - now apply IH.
Qed.

Lemma NoDup_snoc {A : Type} (l : list A) (x : A) :
  NoDup l -> ~ In x l -> NoDup (l ++ [x]).
Proof.
  induction l as [|a l IH]; simpl; intros Hnd Hn.
  - constructor; [intros [] | constructor].
  - inversion Hnd as [|? ? Hnotin Hnd']; subst. constructor.
    + intros Hin. apply in_app_or in Hin. destruct Hin as [Hin|[->|[]]].
      * contradiction.
      * apply Hn. now left.
    + apply IH; [assumption | tauto].
Qed.

Lemma update_rows_ids i v rows :
  map DBWriter.tr_id (update_rows i v rows) = map DBWriter.tr_id rows.
Proof.
  unfold update_rows. rewrite map_map. apply map_ext.
  intros r. now destruct (DBWriter.tr_id r =? i).
Qed.

Lemma update_rows_round_numbers v rows row :
  NoDup (map DBWriter.tr_id rows) -> In row rows ->
  DBWriter.tr_round_number row = DBWriter.v_round_number v ->
  map DBWriter.tr_round_number (update_rows (DBWriter.tr_id row) v rows)
  = map DBWriter.tr_round_number rows.
Proof.
  intros Hnd Hin Hrn. unfold update_rows. rewrite map_map.
  apply map_ext_in. intros r Hr.
  destruct (Z.eqb_spec (DBWriter.tr_id r) (DBWriter.tr_id row)) as [E|_];
    [|reflexivity].
  rewrite (NoDup_map_injective DBWriter.tr_id rows r row Hnd Hr Hin E).
  simpl. now rewrite Hrn.
Qed.

Lemma find_update_rows rn v rows row :
  NoDup (map DBWriter.tr_id rows) ->
  DBWriter.v_round_number v = rn ->
  find (has_round_number rn) rows = Some row ->
  find (has_round_number rn) (update_rows (DBWriter.tr_id row) v rows)
  = Some (DBWriter.update_row v row).
Proof.
  intros Hnd Hv. induction rows as [|r rows IH]; simpl; [discriminate|].
  inversion Hnd as [|? ? Hnotin Hnd']; subst.
  destruct (has_round_number (DBWriter.v_round_number v) r) eqn:Hr.
  - intros [= ->]. rewrite Z.eqb_refl.
    replace (has_round_number (DBWriter.v_round_number v)
               (DBWriter.update_row v row)) with true
      by (unfold has_round_number; simpl; now rewrite Z.eqb_refl).
    reflexivity.
  - intros Hfind.
    destruct (Z.eqb_spec (DBWriter.tr_id r) (DBWriter.tr_id row)) as [E|_].
    + exfalso. apply Hnotin. rewrite E.
      apply in_map. now apply find_some in Hfind.
    + rewrite Hr. now apply IH.
Qed.

Lemma find_app_last {A : Type} (p : A -> bool) (l : list A) (x : A) :
  find p l = None -> p x = true -> find p (l ++ [x]) = Some x.
Proof.
  induction l as [|a l IH]; simpl; intros Hn Hp; [now rewrite Hp|].
  destruct (p a); [discriminate | now apply IH].
Qed.


Lemma begin_session_tables (db : DBWriter.t) :
  DBWriter.training_rounds (snd (DBWriter.begin_session db))
  = DBWriter.training_rounds db /\
  DBWriter.next_round_id (snd (DBWriter.begin_session db))
  = DBWriter.next_round_id db.
Proof. unfold DBWriter.begin_session. destruct (DBWriter.faults db); now split. Qed.

(** A successful [write_round] either updated the row it found or
    inserted a new one. *)
Lemma write_round_success db rn job_id status num_clients gl ga st ct i :
  snd (DBWriter.write_round db rn job_id status num_clients gl ga st ct)
  = Some i ->
  let v := DBWriter.mkValues rn status num_clients job_id gl ga st ct in
  let rows := DBWriter.training_rounds db in
  let db' := fst (DBWriter.write_round db rn job_id status num_clients
                                       gl ga st ct) in
  (exists row,
      find (has_round_number rn) rows = Some row /\ i = DBWriter.tr_id row /\
      DBWriter.training_rounds db' = update_rows i v rows /\
      DBWriter.next_round_id db' = DBWriter.next_round_id db) \/
  (find (has_round_number rn) rows = None /\ i = DBWriter.next_round_id db /\
   DBWriter.training_rounds db' = rows ++ [DBWriter.insert_row i v] /\
   DBWriter.next_round_id db' = i + 1).
Proof.
  unfold DBWriter.write_round.
  destruct (begin_session_tables db) as [Ht Hn].
  destruct (DBWriter.begin_session db) as [fault db0]. simpl in Ht, Hn.
  destruct fault; [discriminate|].
  rewrite Ht, Hn.
  change (fun r => DBWriter.tr_round_number r =? rn) with (has_round_number rn).
  destruct (find (has_round_number rn) (DBWriter.training_rounds db))
    as [row|] eqn:Hf; simpl; intros [= <-].
  - left. exists row. repeat split.
  - right. repeat split.
Qed.

(** A successful [write_round] keeps the table consistent and leaves the
    row of the round, with the returned key, as the one found first. *)
Lemma write_round_invariant db rn job_id status num_clients gl ga st ct i :
  consistent db ->
  snd (DBWriter.write_round db rn job_id status num_clients gl ga st ct)
  = Some i ->
  let db' := fst (DBWriter.write_round db rn job_id status num_clients
                                       gl ga st ct) in
  consistent db' /\
  exists row,
    find (has_round_number rn) (DBWriter.training_rounds db') = Some row /\
    DBWriter.tr_id row = i.
Proof.
  intros [Hid [Hrn Hlt]] Hs.
  destruct (write_round_success _ _ _ _ _ _ _ _ _ _ Hs)
    as [[row [Hf [-> [Hrows Hnext]]]] | [Hf [-> [Hrows Hnext]]]]; simpl.
  - pose proof (find_some _ _ Hf) as [Hin Hp].
    apply Z.eqb_eq in Hp.
    unfold consistent. rewrite Hrows, Hnext, update_rows_ids.
    rewrite update_rows_round_numbers by assumption.
    repeat split; try assumption.
    eexists. split; [now apply find_update_rows | reflexivity].
  - unfold consistent. rewrite Hrows, Hnext, !map_app. simpl.
    repeat split.
    + apply NoDup_snoc; [assumption|]. intros Hin.
      rewrite Forall_forall in Hlt. apply Hlt in Hin. lia.
    + apply NoDup_snoc; [assumption|]. intros Hin.
      apply in_map_iff in Hin. destruct Hin as [x [Hx Hin]].
      pose proof (find_none _ _ Hf x Hin) as Hp.
      unfold has_round_number in Hp. apply Z.eqb_neq in Hp. contradiction.
    + apply Forall_app. split.
      * eapply Forall_impl; [|exact Hlt]. simpl. intros; lia.
      * constructor; [lia | constructor].
    + eexists. split.
      * apply find_app_last; [assumption|].
        unfold has_round_number. simpl. apply Z.eqb_refl.
      * reflexivity.
Qed.


Lemma fresh_db_consistent : consistent fresh_db.
Proof. repeat split; constructor. Defined.


End WriteRound.

(** ** The controller: a round without quorum *)

Section Quorum.
Local Open Scope Z_scope.

Lemma write_round_other_tables db rn job_id status num_clients gl ga st ct :
  let db' := fst (DBWriter.write_round db rn job_id status num_clients
                                       gl ga st ct) in
  DBWriter.round_metrics db' = DBWriter.round_metrics db /\
  DBWriter.client_updates db' = DBWriter.client_updates db /\
  DBWriter.trust_scores db' = DBWriter.trust_scores db.
Proof.
  unfold DBWriter.write_round, DBWriter.begin_session.
  destruct (DBWriter.faults db) as [|[|] fs]; simpl;
    try (repeat split; fail);
    match goal with
    | |- context [find ?p ?l] => destruct (find p l)
    end; repeat split.
Qed.

(** A successful [write_round] leaves a row with the returned key, the
    round number, the status and the client count of the call. *)
Lemma write_round_row db rn job_id status num_clients gl ga st ct i :
  snd (DBWriter.write_round db rn job_id status num_clients gl ga st ct)
  = Some i ->
  exists row,
    In row (DBWriter.training_rounds
              (fst (DBWriter.write_round db rn job_id status num_clients
                                         gl ga st ct))) /\
    DBWriter.tr_id row = i /\
    DBWriter.tr_round_number row = rn /\
    DBWriter.tr_status row = Some status /\
    DBWriter.tr_num_clients row = Some num_clients.
Proof.
  intros Hs.
  destruct (write_round_success _ _ _ _ _ _ _ _ _ _ Hs)
    as [[row [Hf [-> [Hrows _]]]] | [Hf [-> [Hrows _]]]]; rewrite Hrows.
  - exists (DBWriter.update_row
              (DBWriter.mkValues rn status num_clients job_id gl ga st ct)
              row).
    split; [|repeat split].
    unfold update_rows. apply in_map_iff. exists row.
    rewrite Z.eqb_refl. split; [reflexivity|].
    now apply find_some in Hf.
  - eexists. split; [apply in_or_app; right; now left|]. repeat split.
Qed.

End Quorum.

(** C7 (as amended): in every round that is not aborted and collects fewer
    than [min_clients] OK responses, the round body ends normally and the
    loop goes on with the next round; the global model is left as it was
    and no round-metric, client-update or trust-score row is written.
    Without a database writer nothing is persisted.  With one, if the
    initial [write_round] of the round returned a non-zero key, the
    controller issues [write_round(round, None, "failed", n)], and when
    that call succeeds the table holds a row of this round with status
    [failed] and the number of collected responses.  If the initial
    [write_round] returned [None] or the key 0, no further write is
    issued: the database is left as the initial call left it. *)
Theorem insufficient_quorum_round (env : GeomMedianController.round_env)
    (n : nat) (self : GeomMedianController.t) :
  GeomMedianController.abort_triggered env = false ->
  length (GeomMedianController.collect_results
            (GeomMedianController.client_tasks env))
  < GeomMedianController.min_clients self ->
  exists self',
    GeomMedianController.round_body env n self
    = (self', Ok GeomMedianController.NextRound) /\
    (forall envs remaining,
        envs n = env ->
        GeomMedianController.rounds_from envs n (S remaining) self
        = GeomMedianController.rounds_from envs (S n) remaining self') /\
    GeomMedianController.global_model_weights self'
    = GeomMedianController.global_model_weights self /\
    match GeomMedianController.db_writer self with
    | None => GeomMedianController.db_writer self' = None
    | Some db =>
        let first :=
          DBWriter.write_round db (Z.of_nat n)
            (GeomMedianController.job_id env) "in_progress"
            (Z.of_nat (GeomMedianController.min_clients self)) None None
            (Some (GeomMedianController.round_start env)) None in
        let second :=
          DBWriter.write_round (fst first) (Z.of_nat n) None "failed"
            (Z.of_nat (length (GeomMedianController.collect_results
                                 (GeomMedianController.client_tasks env))))
            None None None None in
        exists db',
          GeomMedianController.db_writer self' = Some db' /\
          DBWriter.round_metrics db' = DBWriter.round_metrics db /\
          DBWriter.client_updates db' = DBWriter.client_updates db /\
          DBWriter.trust_scores db' = DBWriter.trust_scores db /\
          (forall i, snd first = Some i -> i <> 0%Z ->
             db' = fst second /\
             (snd second <> None ->
              exists row,
                In row (DBWriter.training_rounds db') /\
                failed_row n (length (GeomMedianController.collect_results
                                        (GeomMedianController.client_tasks env)))
                           row)) /\
          (snd first = None \/ snd first = Some 0%Z -> db' = fst first)
    end.
Proof.
  intros Habort Hlen.
  apply Nat.ltb_lt in Hlen.
  assert (Hloop : forall self',
             GeomMedianController.round_body env n self
             = (self', Ok GeomMedianController.NextRound) ->
             forall envs remaining,
               envs n = env ->
               GeomMedianController.rounds_from envs n (S remaining) self
               = GeomMedianController.rounds_from envs (S n) remaining self').
  { intros self' E envs remaining Henv. simpl. now rewrite Henv, E. }
  unfold GeomMedianController.round_body in *.
  rewrite Habort in *.
  unfold GeomMedianController.bindM, GeomMedianController.get,
    GeomMedianController.db_call, GeomMedianController.ret in *.
  destruct (GeomMedianController.db_writer self) as [db|] eqn:Hdb.
  - destruct (DBWriter.write_round db (Z.of_nat n)
                (GeomMedianController.job_id env) "in_progress"
                (Z.of_nat (GeomMedianController.min_clients self)) None None
                (Some (GeomMedianController.round_start env)) None)
      as [db1 id1] eqn:Hw1.
    pose proof (write_round_other_tables db (Z.of_nat n)
                  (GeomMedianController.job_id env) "in_progress"
                  (Z.of_nat (GeomMedianController.min_clients self)) None None
                  (Some (GeomMedianController.round_start env)) None) as Ht1.
    rewrite Hw1 in Ht1. simpl in Ht1. destruct Ht1 as [Hm1 [Hu1 Hs1]].
    rewrite Hlen in *.
    unfold GeomMedianController.writer_and_id in *. rewrite Hdb in *.
    destruct id1 as [i|].
    + destruct (Z.eqb_spec i 0) as [->|Hne].
      * eexists. split; [reflexivity|]. split; [now apply Hloop|].
        split; [reflexivity|]. simpl.
        exists db1. repeat split; try assumption; congruence.
      * simpl in *.
        destruct (DBWriter.write_round db1 (Z.of_nat n) None "failed"
                    (Z.of_nat (length (GeomMedianController.collect_results
                                         (GeomMedianController.client_tasks env))))
                    None None None None) as [db2 id2] eqn:Hw2.
        pose proof (write_round_other_tables db1 (Z.of_nat n) None "failed"
                      (Z.of_nat (length (GeomMedianController.collect_results
                                           (GeomMedianController.client_tasks env))))
                      None None None None) as Ht2.
        rewrite Hw2 in Ht2. simpl in Ht2. destruct Ht2 as [Hm2 [Hu2 Hs2]].
        eexists. split; [reflexivity|]. split; [now apply Hloop|].
        split; [reflexivity|]. simpl.
        exists db2. repeat split; try congruence.
        2:{ intros [E|E]; congruence. }
        intros Hsome. destruct id2 as [i2|]; [|congruence].
        pose proof (write_round_row db1 (Z.of_nat n) None "failed"
                      (Z.of_nat (length (GeomMedianController.collect_results
                                           (GeomMedianController.client_tasks env))))
                      None None None None i2) as Hrow.
        rewrite Hw2 in Hrow. simpl in Hrow.
        destruct (Hrow eq_refl) as [row [Hin [_ [Hrn [Hst Hnc]]]]].
        exists row. split; [exact Hin|]. now repeat split.
    + eexists. split; [reflexivity|]. split; [now apply Hloop|].
      split; [reflexivity|]. simpl.
      exists db1. repeat split; try assumption; congruence.
  - rewrite Hlen in *.
    unfold GeomMedianController.writer_and_id in *. rewrite Hdb in *.
    eexists. split; [reflexivity|]. split; [now apply Hloop|].
    split; [reflexivity | assumption].
Qed.

Lemma insufficient_quorum_round_witness :
  exists self',
    GeomMedianController.round_body (env_of two_ok_tasks) 1
      (GeomMedianController.__init__ 2 3 (Some fresh_db))
    = (self', Ok GeomMedianController.NextRound) /\
    GeomMedianController.global_model_weights self' = None.
Proof.
  destruct (insufficient_quorum_round (env_of two_ok_tasks) 1
              (GeomMedianController.__init__ 2 3 (Some fresh_db)))
    as [self' [Hbody [_ [Hw _]]]].
  - reflexivity.
  - simpl. lia.
  - exists self'. split; [exact Hbody | exact Hw].
Defined.

(** The scenario of the specification: three clients configured, two OK
    responses, a database that works.  The round row ends with status
    [failed], no other row is written, and the second round is reached. *)
Lemma quorum_failure_scenario :
  let out := GeomMedianController.round_body (env_of two_ok_tasks) 1
               (GeomMedianController.__init__ 2 3 (Some fresh_db)) in
  snd out = Ok GeomMedianController.NextRound /\
  option_map (fun db =>
                (map (fun r => (DBWriter.tr_round_number r,
                                DBWriter.tr_status r,
                                DBWriter.tr_num_clients r))
                     (DBWriter.training_rounds db),
                 length (DBWriter.round_metrics db),
                 length (DBWriter.client_updates db),
                 length (DBWriter.trust_scores db)))
             (GeomMedianController.db_writer (fst out))
  = Some ([(1%Z, Some "failed", Some 2%Z)], 0, 0, 0).
Proof. vm_compute. split; reflexivity. Qed.

(** C7 (as stated) fails.  With the default [db_url=None] the controller
    has no writer and persists nothing, so no round row is set to
    [failed]; and with a writer whose initial [write_round] of the round
    fails, the status update is skipped although the database would have
    accepted it: the row of round 1 keeps its status. *)
Lemma quorum_failure_not_recorded :
  (let out := GeomMedianController.round_body (env_of two_ok_tasks) 1
                (GeomMedianController.__init__ 20 3 None) in
   snd out = Ok GeomMedianController.NextRound /\
   GeomMedianController.db_writer (fst out) = None) /\
  (let out := GeomMedianController.round_body (env_of two_ok_tasks) 1
                (GeomMedianController.__init__ 20 3 (Some flaky_db)) in
   snd out = Ok GeomMedianController.NextRound /\
   option_map (fun db =>
                 (map (fun r => (DBWriter.tr_round_number r,
                                 DBWriter.tr_status r))
                      (DBWriter.training_rounds db),
                  DBWriter.faults db))
              (GeomMedianController.db_writer (fst out))
   = Some ([(1%Z, Some "in_progress")], [])).
Proof. vm_compute. repeat split. Qed.

(** ** Lists combined element by element *)

Lemma length_zip_with {A B C : Type} (f : A -> B -> C) (a : list A)
    (b : list B) :
  length a = length b -> length (zip_with f a b) = length a.
Proof.
  revert b. induction a as [|x a IH]; intros [|y b]; simpl; intros H;
    try lia. f_equal. apply IH. lia.
Qed.

(** * Further properties *)

(** ** Sequencing of calls that may raise *)

Lemma mapM_length {A B : Type} (f : A -> result B) (l : list A) (r : list B) :
  mapM f l = Ok r -> length r = length l.
Proof.
  revert r. induction l as [|a l IH]; simpl; intros r H.
  - now injection H as <-.
  - destruct (f a) as [b|e]; simpl in H; [|discriminate].
    destruct (mapM f l) as [bs|e]; simpl in H; [|discriminate].
    injection H as <-. simpl. f_equal. now apply IH.
Qed.

Lemma mapM_ok_map {A B : Type} (f : A -> result B) (g : A -> B) (l : list A) :
  (forall a, In a l -> f a = Ok (g a)) -> mapM f l = Ok (map g l).
Proof.
  induction l as [|a l IH]; simpl; intros H; [reflexivity|].
  rewrite (H a) by now left. simpl.
  rewrite IH by (intros; apply H; now right). reflexivity.
Qed.

Lemma mapM_raise_one {A B : Type} (f : A -> result B) (e : exn) (l : list A) :
  (forall a, In a l -> (exists b, f a = Ok b) \/ f a = Raise e) ->
  (exists a, In a l /\ f a = Raise e) ->
  mapM f l = Raise e.
Proof.
  induction l as [|a l IH]; simpl; intros Hall [x [Hin Hx]]; [contradiction|].
  destruct (Hall a (or_introl eq_refl)) as [[b Hb]|Hr].
  - rewrite Hb. simpl. rewrite IH; [reflexivity | |].
    + intros y Hy. apply Hall. now right.
    + destruct Hin as [->|Hin]; [congruence|]. now exists x.
  - now rewrite Hr.
Qed.

(** ** The aggregator on whole client lists *)

Lemma dict_items_own {B : Type} (f : tensor -> B) (pre sd : state_dict) :
  NoDup (keys (pre ++ sd)) ->
  mapM (fun k => tn <- dict_item (pre ++ sd) k ;; Ok (f tn)) (keys sd)
  = Ok (map (fun kv => f (snd kv)) sd).
Proof.
  revert pre. induction sd as [|[k tn] sd IH]; intros pre Hnd; [reflexivity|].
  simpl. unfold dict_item at 1.
  rewrite keys_app in Hnd. simpl in Hnd.
  rewrite dict_get_app_fresh
    by (apply NoDup_remove_2 in Hnd; intros Hin; apply Hnd, in_or_app; now left).
  simpl.
  specialize (IH (pre ++ [(k, tn)])).
  rewrite <- app_assoc in IH. simpl in IH. rewrite IH; [reflexivity|].
  rewrite keys_app. simpl. exact Hnd.
Qed.

Lemma flatten_present (sd : state_dict) (ks : list string) :
  ks <> [] ->
  (forall k, In k ks -> exists tn, dict_get sd k = Some tn) ->
  GeometricMedianAggregator._flatten_state_dict sd ks
  = Ok (concat (map (fun k => data (tensor_at k sd)) ks)).
Proof.
  intros Hne Hall. unfold GeometricMedianAggregator._flatten_state_dict.
  rewrite (mapM_ok_map _ (fun k => data (tensor_at k sd))).
  - simpl. destruct ks; [congruence | reflexivity].
  - intros k Hk. destruct (Hall k Hk) as [tn Htn].
    unfold dict_item, tensor_at. now rewrite Htn.
Qed.

Lemma flatten_missing (sd : state_dict) (ks : list string) :
  (exists k, In k ks /\ dict_get sd k = None) ->
  GeometricMedianAggregator._flatten_state_dict sd ks = Raise KeyError.
Proof.
  intros Hmiss. unfold GeometricMedianAggregator._flatten_state_dict.
  rewrite (mapM_raise_one _ KeyError); [reflexivity | |].
  - intros k _. unfold dict_item.
    destruct (dict_get sd k) as [tn|]; [left; now eexists | now right].
  - destruct Hmiss as [k [Hin Hk]]. exists k. split; [exact Hin|].
    unfold dict_item. now rewrite Hk.
Qed.

Lemma present_or_missing (sd : state_dict) (ks : list string) :
  (forall k, In k ks -> exists tn, dict_get sd k = Some tn) \/
  (exists k, In k ks /\ dict_get sd k = None).
Proof.
  induction ks as [|k ks [IH|[x [Hin Hx]]]].
  - left. intros ? [].
  - destruct (dict_get sd k) as [tn|] eqn:E.
    + left. intros x [<-|Hin]; [now exists tn | now apply IH].
    + right. exists k. split; [now left | assumption].
  - right. exists x. split; [now right | assumption].
Qed.

Lemma length_concat_map {A : Type} (f g : A -> vec) (l : list A) :
  (forall a, In a l -> length (f a) = length (g a)) ->
  length (concat (map f l)) = length (concat (map g l)).
Proof.
  induction l as [|a l IH]; simpl; intros H; [reflexivity|].
  rewrite !length_app, (H a) by now left.
  f_equal. apply IH. intros; apply H; now right.
Qed.

(** The flattened vector of a dict, read through its own keys. *)
Lemma flat_of_by_keys (sd : state_dict) :
  NoDup (keys sd) ->
  flat_of sd = concat (map (fun k => data (tensor_at k sd)) (keys sd)).
Proof.
  intros Hnd. unfold flat_of. f_equal.
  assert (H : forall pre,
             NoDup (keys (pre ++ sd)) ->
             map (fun kv => data (snd kv)) sd
             = map (fun k => data (tensor_at k (pre ++ sd))) (keys sd)).
  { clear Hnd. induction sd as [|[k tn] sd IH]; intros pre Hnd; [reflexivity|].
    simpl. f_equal.
    - unfold tensor_at. rewrite keys_app in Hnd. simpl in Hnd.
      rewrite dict_get_app_fresh; [reflexivity|].
      apply NoDup_remove_2 in Hnd. intros Hin. apply Hnd, in_or_app. now left.
    - specialize (IH (pre ++ [(k, tn)])).
      rewrite <- app_assoc in IH. simpl in IH. apply IH.
      rewrite keys_app in *. simpl in *. exact Hnd. }
  exact (H [] Hnd).
Qed.

Lemma flatten_compatible (sd0 sd : state_dict) :
  sd0 <> [] -> NoDup (keys sd0) -> compatible sd0 sd ->
  exists v,
    GeometricMedianAggregator._flatten_state_dict sd (keys sd0) = Ok v /\
    length v = length (flat_of sd0).
Proof.
  intros Hne Hnd Hc. eexists. split.
  - apply flatten_present.
    + destruct sd0; [congruence | discriminate].
    + intros k Hk. destruct (Hc k Hk) as [tn [Htn _]]. now exists tn.
  - rewrite (flat_of_by_keys sd0 Hnd). apply length_concat_map.
    intros k Hk. destruct (Hc k Hk) as [tn [Htn Hlen]].
    unfold tensor_at at 1. now rewrite Htn.
Qed.

(** ** Dimensions and iteration count of the Weiszfeld loop *)

Lemma Forall_zip_with {A B C : Type} (f : A -> B -> C) (P : B -> Prop)
    (Q : C -> Prop) (a : list A) (b : list B) :
  (forall x y, P y -> Q (f x y)) -> Forall P b -> Forall Q (zip_with f a b).
Proof.
  intros Hf. revert b. induction a as [|x a IH]; intros [|y b] Hb; simpl;
    try constructor.
  - inversion Hb; subst. now apply Hf.
  - inversion Hb; subst. now apply IH.
Qed.

Lemma fold_zip_length (rows : list vec) (acc : vec) (D : nat) :
  length acc = D -> Forall (fun r => length r = D) rows ->
  length (fold_left (zip_with F32.add) rows acc) = D.
Proof.
  unfold vec, float32 in *.
  revert acc. induction rows as [|r rows IH]; intros acc Hacc Hall; simpl;
    [assumption|].
  inversion Hall as [|? ? Hr Hall']; subst.
  apply IH; [|assumption].
  rewrite length_zip_with; congruence.
Qed.

Lemma np_sum_axis0_length (rows : list vec) (D : nat) :
  rows <> [] -> Forall (fun r => length r = D) rows ->
  length (np_sum_axis0 rows) = D.
Proof.
  intros Hne Hall. destruct rows as [|r rows]; [congruence|].
  inversion Hall; subst. simpl. now apply fold_zip_length.
Qed.

Lemma weiszfeld_step_length (points : list vec) (y : vec) (D : nat) :
  points <> [] -> Forall (fun p => length p = D) points ->
  length (GeometricMedianAggregator.weiszfeld_step points y) = D.
Proof.
  intros Hne Hall. unfold GeometricMedianAggregator.weiszfeld_step.
  rewrite length_map. apply np_sum_axis0_length.
  - intros E. apply (f_equal (@length vec)) in E.
    rewrite length_zip_with in E.
    + unfold GeometricMedianAggregator.weights_of in E.
      rewrite !length_map in E. destruct points; [congruence | discriminate].
    + unfold GeometricMedianAggregator.weights_of. now rewrite !length_map.
  - apply Forall_zip_with with (P := fun p => length p = D); [|assumption].
    intros w p Hp. now rewrite length_map.
Qed.

Lemma weiszfeld_loop_length (points : list vec) (eps32 : float32)
    (max_iter fuel iteration : nat) (y : vec) (D : nat) :
  points <> [] -> Forall (fun p => length p = D) points -> length y = D ->
  length (fst (GeometricMedianAggregator.weiszfeld_loop
                 points eps32 max_iter fuel iteration y)) = D.
Proof.
  intros Hne Hall. revert iteration y.
  induction fuel as [|fuel IH]; intros iteration y Hy; simpl; [assumption|].
  pose proof (weiszfeld_step_length points y D Hne Hall) as Hs.
  destruct (F32.ltb _ eps32); [exact Hs | now apply IH].
Qed.

Lemma weiszfeld_loop_count (points : list vec) (eps32 : float32)
    (max_iter fuel iteration : nat) (y : vec) :
  let n := snd (GeometricMedianAggregator.weiszfeld_loop
                  points eps32 max_iter fuel iteration y) in
  n = max_iter \/ (iteration <= n /\ n < iteration + fuel).
Proof.
  revert iteration y. induction fuel as [|fuel IH]; intros iteration y; simpl.
  - now left.
  - destruct (F32.ltb _ eps32); simpl.
    + right. lia.
    + destruct (IH (S iteration) (GeometricMedianAggregator.weiszfeld_step points y))
        as [H|H]; [now left | right; lia].
Qed.

(** The number of iterations that [_weiszfeld] reports never exceeds
    [max_iter], and is at least one as soon as [max_iter] is. *)
Theorem weiszfeld_iteration_bounds (self : GeometricMedianAggregator.t)
    (points : list vec) :
  snd (GeometricMedianAggregator._weiszfeld self points)
  <= GeometricMedianAggregator.max_iter self /\
  (1 <= GeometricMedianAggregator.max_iter self ->
   1 <= snd (GeometricMedianAggregator._weiszfeld self points)).
Proof.
  unfold GeometricMedianAggregator._weiszfeld.
  pose proof (weiszfeld_loop_count points
                (F32.round (GeometricMedianAggregator.eps self))
                (GeometricMedianAggregator.max_iter self)
                (GeometricMedianAggregator.max_iter self) 1
                (np_mean_axis0 points)) as H.
  simpl in H. destruct H as [H|H]; lia.
Qed.

Lemma weiszfeld_length (self : GeometricMedianAggregator.t)
    (points : list vec) (D : nat) :
  points <> [] -> Forall (fun p => length p = D) points ->
  length (fst (GeometricMedianAggregator._weiszfeld self points)) = D.
Proof.
  intros Hne Hall. unfold GeometricMedianAggregator._weiszfeld.
  apply weiszfeld_loop_length; try assumption.
  unfold np_mean_axis0. rewrite length_map.
  now apply np_sum_axis0_length.
Qed.

(** On a non-empty matrix whose rows all have [D] entries, [_weiszfeld]
    returns a vector of [D] entries, whatever the values and whatever
    [max_iter] and [eps] are. *)
Theorem weiszfeld_dimension (self : GeometricMedianAggregator.t)
    (points : list vec) (D : nat) :
  points <> [] -> Forall (fun p => length p = D) points ->
  length (fst (GeometricMedianAggregator._weiszfeld self points)) = D.
Proof. exact (weiszfeld_length self points D). Qed.

Lemma weiszfeld_dimension_witness :
  length (fst (GeometricMedianAggregator._weiszfeld
                 GeometricMedianAggregator.default
                 (map flat_of three_points))) = 2.
Proof.
  apply (weiszfeld_dimension GeometricMedianAggregator.default
           (map flat_of three_points) 2).
  - discriminate.
  - repeat constructor.
Defined.

(** ** What [aggregate] returns and when it raises *)

Lemma length_slice {A : Type} (a : list A) (lo n : nat) :
  lo + n <= length a -> length (slice a lo (lo + n)) = n.
Proof.
  intros H. unfold slice.
  replace (lo + n - lo) with n by lia.
  rewrite length_firstn, length_skipn. lia.
Qed.

(** Cutting any long enough vector along the layout of [sd] gives a dict
    with the keys and shapes of [sd]. *)
Lemma unflatten_loop_layout (sd acc : state_dict) (flat : vec) (offset : nat) :
  NoDup (keys acc ++ keys sd) ->
  Forall wf_tensor (map snd sd) ->
  offset + length (flat_of sd) <= length flat ->
  exists d,
    GeometricMedianAggregator.unflatten_loop flat
      (combine (combine (keys sd) (shapes_of sd)) (numels_of sd)) offset acc
    = Ok (acc ++ d) /\
    keys d = keys sd /\ shapes_of d = shapes_of sd /\
    Forall wf_tensor (map snd d).
Proof.
  revert acc offset.
  induction sd as [|[k tn] sd IH]; intros acc offset Hnd Hwf Hlen.
  - exists []. simpl. rewrite app_nil_r. repeat split. constructor.
  - inversion Hwf as [|? ? Hwt Hwf']; subst. simpl in Hwt. red in Hwt.
    unfold flat_of in Hlen. simpl in Hlen. fold (flat_of sd) in Hlen.
    rewrite length_app in Hlen.
    simpl.
    assert (Hsl : length (slice flat offset (offset + numel tn)) = numel tn)
      by (apply length_slice; lia).
    unfold reshape. unfold numel in Hsl at 2. rewrite Hsl.
    fold (numel tn). unfold numel at 1 2. rewrite Nat.eqb_refl. simpl.
    assert (Hfresh : ~ In k (keys acc)).
    { apply NoDup_remove_2 in Hnd. intros Hin. apply Hnd, in_or_app. now left. }
    rewrite dict_set_fresh by exact Hfresh.
    set (piece := mkTensor (shape tn)
                           (slice flat offset (offset + numel tn))).
    destruct (IH (acc ++ [(k, piece)]) (offset + numel tn))
      as [d [Hd [Hk [Hs Hw]]]].
    + rewrite keys_app, <- app_assoc. exact Hnd.
    + exact Hwf'.
    + lia.
    + exists ((k, piece) :: d). rewrite Hd, <- app_assoc. simpl.
      repeat split.
      * now rewrite Hk.
      * now rewrite Hs.
      * constructor; [|exact Hw]. exact Hsl.
Qed.

(** Every client passes [np.stack] when its flat vector is as long as the
    first. *)
Lemma np_stack_same_length (rows : list vec) (D : nat) :
  rows <> [] -> Forall (fun r => length r = D) rows -> np_stack rows = Ok rows.
Proof.
  intros Hne Hall. destruct rows as [|r rows]; [congruence|].
  inversion Hall as [|? ? Hr Hall']; subst. simpl.
  replace (forallb (fun r' => length r' =? length r) rows) with true;
    [reflexivity|].
  symmetry. apply forallb_forall. intros r' Hin.
  rewrite Forall_forall in Hall'. apply Nat.eqb_eq. now apply Hall'.
Qed.

Lemma mapM_flatten_compatible (sd0 : state_dict) (ups : list state_dict) :
  sd0 <> [] -> NoDup (keys sd0) -> Forall (compatible sd0) ups ->
  exists rows,
    mapM (fun sd => GeometricMedianAggregator._flatten_state_dict sd (keys sd0))
         ups = Ok rows /\
    length rows = length ups /\
    Forall (fun r => length r = length (flat_of sd0)) rows.
Proof.
  intros Hne Hnd. induction ups as [|sd ups IH]; intros Hall.
  - exists []. repeat split. constructor.
  - inversion Hall as [|? ? Hc Hall']; subst.
    destruct (flatten_compatible sd0 sd Hne Hnd Hc) as [v [Hv Hlen]].
    destruct (IH Hall') as [rows [Hrows [Hl Hf]]].
    exists (v :: rows). simpl. rewrite Hv. simpl. rewrite Hrows. simpl.
    repeat split; [now rewrite Hl | now constructor].
Qed.

Lemma compatible_self (sd0 : state_dict) :
  NoDup (keys sd0) -> compatible sd0 sd0.
Proof.
  intros Hnd k Hk. destruct (dict_get_in sd0 k Hk) as [tn Htn].
  exists tn. split; [exact Htn|]. unfold tensor_at. now rewrite Htn.
Qed.

Lemma map_pair_eta {A B : Type} (l : list (A * B)) :
  map (fun kv => (fst kv, snd kv)) l = l.
Proof. induction l as [|[a b] l IH]; simpl; [|rewrite IH]; reflexivity. Qed.

(** For a first update that is a non-empty well-formed dict and further
    updates that hold its keys with as many elements each, [aggregate]
    returns a dict with the keys (in order) and the shapes of the first
    update, made of well-formed tensors. *)
Theorem aggregate_keeps_keys_and_shapes (self : GeometricMedianAggregator.t)
    (sd0 : state_dict) (rest : list state_dict) :
  sd0 <> [] -> wf_state_dict sd0 -> Forall (compatible sd0) rest ->
  exists agg,
    snd (GeometricMedianAggregator.aggregate self (sd0 :: rest)) = Ok agg /\
    keys agg = keys sd0 /\
    shapes_of agg = shapes_of sd0 /\
    Forall wf_tensor (map snd agg).
Proof.
  intros Hne [Hnd Hwf] Hall.
  destruct rest as [|sd1 rest].
  - exists sd0. simpl. rewrite map_pair_eta. now repeat split.
  - unfold GeometricMedianAggregator.aggregate. cbn [snd].
    pose proof (dict_items_own shape [] sd0 Hnd) as Hshapes.
    pose proof (dict_items_own numel [] sd0 Hnd) as Hnumels.
    simpl app in Hshapes, Hnumels. rewrite Hshapes, Hnumels. cbn [bind].
    destruct (mapM_flatten_compatible sd0 (sd0 :: sd1 :: rest) Hne Hnd)
      as [rows [Hrows [Hl Hf]]].
    { constructor; [now apply compatible_self | exact Hall]. }
    rewrite Hrows. cbn [bind].
    assert (Hrne : rows <> []) by (destruct rows; [discriminate | congruence]).
    rewrite (np_stack_same_length rows _ Hrne Hf). cbn [bind].
    pose proof (weiszfeld_length self rows _ Hrne Hf) as Hw.
    destruct (GeometricMedianAggregator._weiszfeld self rows)
      as [median_flat iters]. simpl in Hw.
    unfold GeometricMedianAggregator._unflatten_to_state_dict.
    destruct (unflatten_loop_layout sd0 [] median_flat 0)
      as [d [Hd Hrest]]; [assumption | assumption | simpl; lia |].
    fold (shapes_of sd0). fold (numels_of sd0).
    exists d. split; [exact Hd | exact Hrest].
Qed.

Lemma aggregate_keeps_keys_and_shapes_witness :
  exists agg,
    snd (GeometricMedianAggregator.aggregate GeometricMedianAggregator.default
           (two_layer_dict :: [two_layer_dict; two_layer_dict])) = Ok agg /\
    keys agg = keys two_layer_dict /\
    shapes_of agg = shapes_of two_layer_dict /\
    Forall wf_tensor (map snd agg).
Proof.
  apply (aggregate_keeps_keys_and_shapes GeometricMedianAggregator.default
           two_layer_dict [two_layer_dict; two_layer_dict]).
  - discriminate.
  - exact two_layer_dict_wf.
  - repeat constructor; apply compatible_self; apply two_layer_dict_wf.
Defined.

(** With two or more updates, a later update that lacks a key of the first
    makes [aggregate] raise [KeyError]. *)
Theorem aggregate_missing_key (self : GeometricMedianAggregator.t)
    (sd0 : state_dict) (rest : list state_dict) :
  sd0 <> [] -> NoDup (keys sd0) ->
  (exists sd k, In sd rest /\ In k (keys sd0) /\ dict_get sd k = None) ->
  snd (GeometricMedianAggregator.aggregate self (sd0 :: rest))
  = Raise KeyError.
Proof.
  intros Hne Hnd [sd [k [Hin [Hk Hmiss]]]].
  destruct rest as [|sd1 rest]; [contradiction|].
  unfold GeometricMedianAggregator.aggregate. cbn [snd].
  pose proof (dict_items_own shape [] sd0 Hnd) as Hshapes.
  pose proof (dict_items_own numel [] sd0 Hnd) as Hnumels.
  simpl app in Hshapes, Hnumels. rewrite Hshapes, Hnumels. cbn [bind].
  rewrite (mapM_raise_one _ KeyError); [reflexivity | |].
  - intros x _.
    destruct (present_or_missing x (keys sd0)) as [Hall|Hm].
    + left. eexists. apply flatten_present; [|exact Hall].
      destruct sd0; [congruence | discriminate].
    + right. now apply flatten_missing.
  - exists sd. split; [now right|]. apply flatten_missing. now exists k.
Qed.

Lemma aggregate_missing_key_witness :
  snd (GeometricMedianAggregator.aggregate GeometricMedianAggregator.default
         (two_layer_dict
            :: [[("layer1.weight",
                  mkTensor [2; 3] (map F32.of_Z [1; 1; 1; 1; 1; 1]%Z))]]))
  = Raise KeyError.
Proof.
  apply aggregate_missing_key.
  - discriminate.
  - apply two_layer_dict_wf.
  - eexists. exists "layer2.bias".
    split; [now left|]. split; [right; now left | reflexivity].
Defined.

(** When every update holds the keys of the first but one of them flattens
    to a different number of elements, [aggregate] raises the [ValueError]
    of [np.stack]. *)
Theorem aggregate_length_mismatch (self : GeometricMedianAggregator.t)
    (sd0 : state_dict) (rest : list state_dict) :
  sd0 <> [] -> NoDup (keys sd0) ->
  (forall sd k, In sd rest -> In k (keys sd0) ->
                exists tn, dict_get sd k = Some tn) ->
  (exists sd, In sd rest /\
              length (concat (map (fun k => data (tensor_at k sd)) (keys sd0)))
              <> length (flat_of sd0)) ->
  snd (GeometricMedianAggregator.aggregate self (sd0 :: rest))
  = Raise ValueError.
Proof.
  intros Hne Hnd Hpres [sd [Hin Hlen]].
  destruct rest as [|sd1 rest]; [contradiction|].
  assert (Hkne : keys sd0 <> []) by (destruct sd0; [congruence | discriminate]).
  unfold GeometricMedianAggregator.aggregate. cbn [snd].
  pose proof (dict_items_own shape [] sd0 Hnd) as Hshapes.
  pose proof (dict_items_own numel [] sd0 Hnd) as Hnumels.
  simpl app in Hshapes, Hnumels. rewrite Hshapes, Hnumels. cbn [bind].
  rewrite (mapM_ok_map _
             (fun x => concat (map (fun k => data (tensor_at k x)) (keys sd0)))).
  2:{ intros x [<-|Hx].
      - apply flatten_present; [exact Hkne|].
        intros k Hk. now apply dict_get_in.
      - apply flatten_present; [exact Hkne|].
        intros k Hk. now apply (Hpres x k). }
  cbn [bind map np_stack].
  replace (forallb _ _) with false; [reflexivity|].
  symmetry. apply not_true_is_false. intros Hall.
  rewrite forallb_forall in Hall.
  apply Hlen. rewrite (flat_of_by_keys sd0 Hnd).
  specialize (Hall (concat (map (fun k => data (tensor_at k sd)) (keys sd0)))).
  apply Nat.eqb_eq, Hall.
  exact (in_map (fun x => concat (map (fun k => data (tensor_at k x))
                                      (keys sd0)))
                (sd1 :: rest) sd Hin).
Qed.

Lemma aggregate_length_mismatch_witness :
  snd (GeometricMedianAggregator.aggregate GeometricMedianAggregator.default
         ([("p", mkTensor [2] [F32.of_Z 0; F32.of_Z 0])]
            :: [[("p", mkTensor [3] [F32.of_Z 0; F32.of_Z 1; F32.of_Z 2])]]))
  = Raise ValueError.
Proof.
  apply aggregate_length_mismatch.
  - discriminate.
  - repeat constructor. intros [].
  - intros sd k [<-|[]] [<-|[]]. now eexists.
  - eexists. split; [now left|]. simpl. discriminate.
Defined.

(** ** Distances to the median *)

(** When [compute_distances] returns, it returns one distance per client
    update. *)
Theorem compute_distances_length (self : GeometricMedianAggregator.t)
    (client_updates : list state_dict) (median : state_dict)
    (distances : list float64) :
  GeometricMedianAggregator.compute_distances self client_updates median
  = Ok distances ->
  length distances = length client_updates.
Proof.
  unfold GeometricMedianAggregator.compute_distances. intros H.
  destruct (GeometricMedianAggregator._flatten_state_dict median (keys median))
    as [median_flat|e]; simpl in H; [|discriminate].
  now apply mapM_length in H.
Qed.

Lemma compute_distances_length_witness :
  exists distances,
    GeometricMedianAggregator.compute_distances
      GeometricMedianAggregator.default three_points
      [("p", mkTensor [2] [median_coordinate; median_coordinate])]
    = Ok distances /\
    length distances = length three_points.
Proof.
  eexists. split.
  - vm_compute. reflexivity.
  - apply (compute_distances_length GeometricMedianAggregator.default
             three_points
             [("p", mkTensor [2] [median_coordinate; median_coordinate])]).
    vm_compute. reflexivity.
Defined.

Lemma sub_self_zero (x : spec_float) :
  finite_float x -> F32.sub x x = F32.zero.
Proof.
  destruct x as [[|]|[|]| |s m e]; simpl; intros H; try contradiction;
    try reflexivity.
  unfold F32.sub, SFsub. rewrite Z.sub_diag. reflexivity.
Qed.

Lemma zip_sub_self (v : vec) :
  Forall finite_float v ->
  zip_with F32.sub v v = map (fun _ => F32.zero) v.
Proof.
  induction v as [|x v IH]; intros H; [reflexivity|].
  inversion H; subst. simpl. rewrite sub_self_zero, IH by assumption.
  reflexivity.
Qed.

Lemma np_norm_zeros {A : Type} (l : list A) :
  np_norm (map (fun _ => F32.zero) l) = F32.zero.
Proof.
  unfold np_norm. rewrite map_map.
  assert (H : forall (l' : list A) acc,
              acc = F32.zero ->
              fold_left F32.add
                (map (fun _ : A => F32.mul F32.zero F32.zero) l') acc
              = F32.zero).
  { induction l' as [|a l' IH]; intros acc ->; [reflexivity|].
    simpl. apply IH. reflexivity. }
  destruct l as [|a l]; [reflexivity|].
  change (F32.sqrt
            (fold_left F32.add
               (map (fun _ : A => F32.mul F32.zero F32.zero) l)
               (F32.mul F32.zero F32.zero)) = F32.zero).
  rewrite H; reflexivity.
Qed.

Lemma Forall_concat {A : Type} (P : A -> Prop) (ls : list (list A)) :
  Forall (Forall P) ls -> Forall P (concat ls).
Proof.
  induction ls as [|l ls IH]; intros H; simpl; [constructor|].
  inversion H; subst. apply Forall_app. split; [assumption | now apply IH].
Qed.

(** A single update is returned as it is; and an update that equals the
    median, with finite values, is at distance exactly zero from it. *)
Theorem distance_to_itself_is_zero (self : GeometricMedianAggregator.t)
    (sd : state_dict) (n : nat) :
  sd <> [] -> NoDup (keys sd) -> finite_dict sd ->
  snd (GeometricMedianAggregator.aggregate self [sd]) = Ok sd /\
  GeometricMedianAggregator.compute_distances self (repeat sd n) sd
  = Ok (repeat F64.zero n).
Proof.
  intros Hne Hnd Hfin. split.
  - simpl. now rewrite map_pair_eta.
  - unfold GeometricMedianAggregator.compute_distances.
    rewrite (flatten_own sd Hne Hnd). simpl.
    assert (Hf : Forall finite_float (flat_of sd)).
    { unfold flat_of. apply Forall_concat.
      apply Forall_map. exact Hfin. }
    induction n as [|n IH]; [reflexivity|].
    cbn [repeat mapM]. rewrite (flatten_own sd Hne Hnd). cbn [bind].
    unfold np_sub at 1. rewrite Nat.eqb_refl. cbn [bind].
    rewrite zip_sub_self by exact Hf. rewrite np_norm_zeros.
    rewrite IH. reflexivity.
Qed.

Lemma two_layer_dict_finite : finite_dict two_layer_dict.
Proof. repeat constructor. Defined.

Lemma distance_to_itself_is_zero_witness :
  snd (GeometricMedianAggregator.aggregate GeometricMedianAggregator.default
         [two_layer_dict]) = Ok two_layer_dict /\
  GeometricMedianAggregator.compute_distances GeometricMedianAggregator.default
    (repeat two_layer_dict 3) two_layer_dict
  = Ok (repeat F64.zero 3).
Proof.
  apply (distance_to_itself_is_zero GeometricMedianAggregator.default
           two_layer_dict 3).
  - discriminate.
  - apply two_layer_dict_wf.
  - exact two_layer_dict_finite.
Defined.

(** ** Dictionaries: assignment and lookup *)

Section DictUpdates.
Context {V : Type}.
Implicit Types (d : list (string * V)) (k : string) (v : V).

Lemma dict_get_set_same d k v : dict_get (dict_set d k v) k = Some v.
Proof.
  induction d as [|[k' v'] d IH]; simpl.
  - now rewrite String.eqb_refl.
  - destruct (String.eqb_spec k' k) as [->|Hne]; simpl.
    + now rewrite String.eqb_refl.
    + destruct (String.eqb_spec k' k); [contradiction | exact IH].
Qed.

Lemma dict_get_set_other d k k' v :
  k' <> k -> dict_get (dict_set d k v) k' = dict_get d k'.
Proof.
  intros Hne. induction d as [|[k0 v0] d IH]; simpl.
  - destruct (String.eqb_spec k k'); [congruence | reflexivity].
  - destruct (String.eqb_spec k0 k) as [->|Hk]; simpl.
    + destruct (String.eqb_spec k k'); [congruence | reflexivity].
    + now rewrite IH.
Qed.

Lemma keys_dict_set_present d k v :
  In k (keys d) -> keys (dict_set d k v) = keys d.
Proof.
  induction d as [|[k0 v0] d IH]; simpl; intros Hin; [contradiction|].
  destruct (String.eqb_spec k0 k) as [->|Hk]; simpl; [reflexivity|].
  rewrite IH; [reflexivity|]. destruct Hin; [contradiction | assumption].
Qed.

Lemma NoDup_keys_dict_set d k v :
  NoDup (keys d) -> NoDup (keys (dict_set d k v)).
Proof.
  intros Hnd. destruct (in_dec string_dec k (keys d)) as [Hin|Hout].
  - now rewrite keys_dict_set_present.
  - rewrite dict_set_fresh, keys_app by assumption. simpl.
    apply NoDup_snoc; assumption.
Qed.

Lemma fold_dict_set_fresh (d acc : list (string * V)) :
  NoDup (keys acc ++ keys d) ->
  fold_left (fun a kv => dict_set a (fst kv) (snd kv)) d acc = acc ++ d.
Proof.
  revert acc. induction d as [|[k v] d IH]; intros acc Hnd; simpl.
  - now rewrite app_nil_r.
  - assert (Hfresh : ~ In k (keys acc)).
    { apply NoDup_remove_2 in Hnd. intros Hin. apply Hnd, in_or_app.
      now left. }
    rewrite dict_set_fresh by exact Hfresh.
    rewrite IH by (rewrite keys_app, <- app_assoc; exact Hnd).
    now rewrite <- app_assoc.
Qed.

End DictUpdates.

(** ** Selective HE: encryption, the shape registry and its transfer *)

Lemma register_shapes_ctx (self : SelectiveHE.t) (sd : state_dict) :
  SelectiveHE.ctx (SelectiveHE.register_shapes self sd) = SelectiveHE.ctx self.
Proof.
  revert self. induction sd as [|[k tn] sd IH]; intros self; [reflexivity|].
  unfold SelectiveHE.register_shapes in *. simpl. now rewrite IH.
Qed.

Lemma register_shapes_other (self : SelectiveHE.t) (sd : state_dict)
    (name : string) :
  ~ In name (keys sd) ->
  dict_get (SelectiveHE._shapes (SelectiveHE.register_shapes self sd)) name
  = dict_get (SelectiveHE._shapes self) name.
Proof.
  revert self. induction sd as [|[k tn] sd IH]; intros self Hout;
    [reflexivity|].
  unfold SelectiveHE.register_shapes in *. simpl in *.
  rewrite IH by tauto. simpl.
  apply dict_get_set_other. intros ->. tauto.
Qed.

Lemma register_shapes_registered (self : SelectiveHE.t) (sd : state_dict)
    (name : string) (tn : tensor) :
  NoDup (keys sd) -> In (name, tn) sd ->
  dict_get (SelectiveHE._shapes (SelectiveHE.register_shapes self sd)) name
  = Some (shape tn).
Proof.
  revert self. induction sd as [|[k tn0] sd IH]; intros self Hnd Hin;
    [contradiction|].
  simpl in Hnd. inversion Hnd as [|? ? Hk Hnd']; subst.
  destruct Hin as [E|Hin].
  - inversion E; subst.
    change (SelectiveHE.register_shapes self ((name, tn) :: sd))
      with (SelectiveHE.register_shapes
              (SelectiveHE.mk (SelectiveHE.ctx self)
                 (dict_set (SelectiveHE._shapes self) name (shape tn))) sd).
    rewrite register_shapes_other by exact Hk. simpl.
    apply dict_get_set_same.
  - change (SelectiveHE.register_shapes self ((k, tn0) :: sd))
      with (SelectiveHE.register_shapes
              (SelectiveHE.mk (SelectiveHE.ctx self)
                 (dict_set (SelectiveHE._shapes self) k (shape tn0))) sd).
    now apply IH.
Qed.

(** Registering shapes keeps the names of the registry distinct. *)
Lemma register_shapes_NoDup (self : SelectiveHE.t) (sd : state_dict) :
  NoDup (keys (SelectiveHE._shapes self)) ->
  NoDup (keys (SelectiveHE._shapes (SelectiveHE.register_shapes self sd))).
Proof.
  revert self. induction sd as [|[k tn] sd IH]; intros self Hnd; [exact Hnd|].
  change (SelectiveHE.register_shapes self ((k, tn) :: sd))
    with (SelectiveHE.register_shapes
            (SelectiveHE.mk (SelectiveHE.ctx self)
               (dict_set (SelectiveHE._shapes self) k (shape tn))) sd).
  apply IH. simpl. now apply NoDup_keys_dict_set.
Qed.

Lemma encrypt_head_loop_ok (self : SelectiveHE.t) (items : state_dict)
    (acc : list (string * bytes)) :
  NoDup (keys acc ++ keys items) ->
  (forall name tn, In (name, tn) items ->
                   exists b, SelectiveHE.encrypt_tensor self tn = Ok b) ->
  exists encs,
    SelectiveHE.encrypt_head_loop self items acc
    = (SelectiveHE.register_shapes self items, Ok (acc ++ encs)) /\
    Forall2 (fun kv e => fst e = fst kv /\
                         SelectiveHE.encrypt_tensor self (snd kv)
                         = Ok (snd e)) items encs.
Proof.
  revert self acc. induction items as [|[k tn] items IH];
    intros self acc Hnd Hok.
  - exists []. simpl. rewrite app_nil_r. split; [reflexivity | constructor].
  - destruct (Hok k tn (or_introl eq_refl)) as [b Hb].
    simpl. unfold SelectiveHE.encrypt_tensor in *. simpl. rewrite Hb.
    assert (Hfresh : ~ In k (keys acc)).
    { apply NoDup_remove_2 in Hnd. intros Hin. apply Hnd, in_or_app.
      now left. }
    rewrite (dict_set_fresh acc) by exact Hfresh.
    destruct (IH (SelectiveHE.mk (SelectiveHE.ctx self)
                    (dict_set (SelectiveHE._shapes self) k (shape tn)))
                 (acc ++ [(k, b)])) as [encs [Hloop Hall]].
    + rewrite keys_app, <- app_assoc. exact Hnd.
    + intros name t Hin. apply (Hok name t). now right.
    + exists ((k, b) :: encs). split.
      * rewrite Hloop, <- app_assoc. reflexivity.
      * constructor; [now split | exact Hall].
Qed.

Lemma encrypt_head_loop_raise (self : SelectiveHE.t)
    (done rest : state_dict) (name : string) (tn : tensor) (e : exn)
    (acc : list (string * bytes)) :
  (forall k t, In (k, t) done ->
               exists b, SelectiveHE.encrypt_tensor self t = Ok b) ->
  SelectiveHE.encrypt_tensor self tn = Raise e ->
  SelectiveHE.encrypt_head_loop self (done ++ (name, tn) :: rest) acc
  = (SelectiveHE.register_shapes self (done ++ [(name, tn)]), Raise e).
Proof.
  revert self acc. induction done as [|[k t] done IH];
    intros self acc Hok Hraise.
  - simpl. unfold SelectiveHE.encrypt_tensor in *. simpl. now rewrite Hraise.
  - destruct (Hok k t (or_introl eq_refl)) as [b Hb].
    simpl. unfold SelectiveHE.encrypt_tensor in *. simpl. rewrite Hb.
    apply (IH (SelectiveHE.mk (SelectiveHE.ctx self)
                 (dict_set (SelectiveHE._shapes self) k (shape t)))).
    + intros k' t' Hin. apply (Hok k' t'). now right.
    + exact Hraise.
Qed.

Lemma encrypt_head_loop_registered (self : SelectiveHE.t) (items : state_dict)
    (acc : list (string * bytes)) :
  exists done,
    incl (keys done) (keys items) /\
    fst (SelectiveHE.encrypt_head_loop self items acc)
    = SelectiveHE.register_shapes self done.
Proof.
  revert self acc. induction items as [|[k tn] items IH]; intros self acc.
  - exists []. split; [apply incl_refl | reflexivity].
  - simpl.
    destruct (SelectiveHE.encrypt_tensor
                (SelectiveHE.mk (SelectiveHE.ctx self)
                   (dict_set (SelectiveHE._shapes self) k (shape tn))) tn)
      as [b|e].
    + destruct (IH (SelectiveHE.mk (SelectiveHE.ctx self)
                      (dict_set (SelectiveHE._shapes self) k (shape tn)))
                   (dict_set acc k b)) as [done [Hincl Hfst]].
      exists ((k, tn) :: done). split.
      * simpl. intros x [<-|Hx]; [now left | right; now apply Hincl].
      * rewrite Hfst. reflexivity.
    + exists [(k, tn)]. split.
      * simpl. intros x [<-|[]]. now left.
      * reflexivity.
Qed.

(** [encrypt_head] records the shape of a parameter before it encrypts the
    tensor.  When every tensor is encrypted, it returns one ciphertext per
    parameter, under the same names and in the same order, and leaves the
    object with the registry that [register_shapes] would have built, the
    shape of every parameter being registered.  When the encryption of a
    tensor fails (TenSEAL raises [ValueError] on an empty one), the
    exception goes to the caller and nothing is returned, but the shapes
    of the parameters up to and including the failing one stay registered.
    In both cases the registrations of all other names are as before. *)
Theorem encrypt_head_registers_shapes (self : SelectiveHE.t) (sd : state_dict) :
  NoDup (keys sd) ->
  let self' := fst (SelectiveHE.encrypt_head self sd) in
  ((forall name tn, In (name, tn) sd ->
                    exists b, SelectiveHE.encrypt_tensor self tn = Ok b) ->
   self' = SelectiveHE.register_shapes self sd /\
   exists encrypted,
     snd (SelectiveHE.encrypt_head self sd) = Ok encrypted /\
     keys encrypted = keys sd /\
     forall name tn, In (name, tn) sd ->
       dict_get (SelectiveHE._shapes self') name = Some (shape tn) /\
       exists b, SelectiveHE.encrypt_tensor self tn = Ok b /\
                 dict_get encrypted name = Some b) /\
  (forall done name tn rest e,
     sd = done ++ (name, tn) :: rest ->
     (forall k t, In (k, t) done ->
                  exists b, SelectiveHE.encrypt_tensor self t = Ok b) ->
     SelectiveHE.encrypt_tensor self tn = Raise e ->
     snd (SelectiveHE.encrypt_head self sd) = Raise e /\
     self' = SelectiveHE.register_shapes self (done ++ [(name, tn)]) /\
     dict_get (SelectiveHE._shapes self') name = Some (shape tn)) /\
  (forall name, ~ In name (keys sd) ->
     dict_get (SelectiveHE._shapes self') name
     = dict_get (SelectiveHE._shapes self) name).
Proof.
  intros Hnd self'. split; [|split].
  - intros Hok.
    destruct (encrypt_head_loop_ok self sd [] Hnd Hok) as [encs [Hloop Hall]].
    unfold self', SelectiveHE.encrypt_head. rewrite Hloop. simpl.
    split; [reflexivity|]. exists encs. split; [reflexivity|].
    assert (Hkeys : keys encs = keys sd).
    { clear -Hall. induction Hall as [|kv e l l' [Hk _] _ IH]; simpl;
        [reflexivity|]. now rewrite Hk, IH. }
    split; [exact Hkeys|].
    intros name tn Hin. split; [now apply register_shapes_registered|].
    clear Hloop self'. revert Hnd Hin. rewrite <- Hkeys. clear Hkeys Hok.
    induction Hall as [|[k t] [k' b] l l' [Hk He] Hall IH]; intros Hnd Hin;
      [contradiction|].
    simpl in Hk, He. subst k'. simpl in Hnd.
    inversion Hnd as [|? ? Hnotin Hnd']; subst.
    destruct Hin as [E|Hin].
    + injection E as -> ->. exists b. split; [exact He|].
      simpl. now rewrite String.eqb_refl.
    + destruct (IH Hnd' Hin) as [b' [Hb' Hget]].
      exists b'. split; [exact Hb'|]. simpl.
      destruct (String.eqb_spec k name) as [->|_]; [|exact Hget].
      exfalso. apply Hnotin.
      assert (Hk : keys l' = keys l).
      { clear -Hall. induction Hall as [|kv e l l' [Hk _] _ IH]; simpl;
          [reflexivity|]. now rewrite Hk, IH. }
      rewrite Hk. apply (in_map fst) in Hin. exact Hin.
  - intros done name tn rest e -> Hok Hraise.
    unfold self', SelectiveHE.encrypt_head.
    rewrite (encrypt_head_loop_raise self done rest name tn e [] Hok Hraise).
    simpl. split; [reflexivity|]. split; [reflexivity|].
    apply register_shapes_registered.
    + rewrite keys_app in *. simpl in *.
      apply NoDup_remove in Hnd. destruct Hnd as [Hnd Hn].
      apply NoDup_snoc.
      * now apply NoDup_app_remove_r in Hnd.
      * intros Hin. apply Hn, in_or_app. now left.
    + apply in_or_app. right. now left.
  - intros name Hout.
    destruct (encrypt_head_loop_registered self sd []) as [done [Hincl Hfst]].
    unfold self', SelectiveHE.encrypt_head. rewrite Hfst.
    apply register_shapes_other. intros Hin. apply Hout, Hincl, Hin.
Qed.

Lemma encrypt_head_registers_shapes_witness :
  let sd := [("classifier.weight", mkTensor [2; 2] (map F32.of_Z [1; 2; 3; 4]%Z));
             ("classifier.bias", mkTensor [0] [])] in
  let self := SelectiveHE.__init__ toy_context in
  snd (SelectiveHE.encrypt_head self sd) = Raise ValueError /\
  SelectiveHE.get_shapes (fst (SelectiveHE.encrypt_head self sd))
  = [("classifier.weight", [2; 2]); ("classifier.bias", [0])].
Proof.
  destruct (encrypt_head_registers_shapes (SelectiveHE.__init__ toy_context)
              [("classifier.weight",
                mkTensor [2; 2] (map F32.of_Z [1; 2; 3; 4]%Z));
               ("classifier.bias", mkTensor [0] [])])
    as [_ [Hraise _]].
  - repeat constructor; simpl; intuition discriminate.
  - destruct (Hraise [("classifier.weight",
                       mkTensor [2; 2] (map F32.of_Z [1; 2; 3; 4]%Z))]
                     "classifier.bias" (mkTensor [0] []) [] ValueError)
      as [Hr [Hs _]].
    + reflexivity.
    + intros k t [E|[]]. injection E as <- <-. eexists. reflexivity.
    + reflexivity.
    + split; [exact Hr|]. rewrite Hs. reflexivity.
Defined.

(** A receiver that holds the same context and takes over the encryptor's
    registry by [set_shapes(get_shapes())] ends with exactly that registry
    (whatever it had registered before is forgotten) and decrypts every
    ciphertext map to what the encryptor itself would. *)
Theorem decrypt_with_transferred_shapes (sender receiver : SelectiveHE.t)
    (cm : list (string * bytes)) :
  SelectiveHE.ctx receiver = SelectiveHE.ctx sender ->
  NoDup (keys (SelectiveHE.get_shapes sender)) ->
  SelectiveHE.get_shapes
    (SelectiveHE.set_shapes receiver (SelectiveHE.get_shapes sender))
  = SelectiveHE.get_shapes sender /\
  SelectiveHE.decrypt_head
    (SelectiveHE.set_shapes receiver (SelectiveHE.get_shapes sender)) cm
  = SelectiveHE.decrypt_head sender cm.
Proof.
  intros Hctx Hnd.
  assert (E : SelectiveHE.set_shapes receiver (SelectiveHE.get_shapes sender)
              = sender).
  { unfold SelectiveHE.set_shapes, SelectiveHE.get_shapes in *.
    rewrite (fold_dict_set_fresh (SelectiveHE._shapes sender) [])
      by exact Hnd.
    rewrite Hctx. now destruct sender. }
  now rewrite E.
Qed.

Lemma decrypt_with_transferred_shapes_witness :
  let sender :=
    fst (SelectiveHE.encrypt_head (SelectiveHE.__init__ toy_context)
           [("classifier.bias", mkTensor [2] (map F32.of_Z [0; -1]%Z))]) in
  let receiver :=
    SelectiveHE.set_shapes (SelectiveHE.__init__ toy_context)
      [("features.conv0.weight", [3])] in
  SelectiveHE.get_shapes
    (SelectiveHE.set_shapes receiver (SelectiveHE.get_shapes sender))
  = SelectiveHE.get_shapes sender /\
  SelectiveHE.decrypt_head
    (SelectiveHE.set_shapes receiver (SelectiveHE.get_shapes sender))
    [("classifier.bias", "cc")]
  = SelectiveHE.decrypt_head sender [("classifier.bias", "cc")].
Proof.
  apply (decrypt_with_transferred_shapes
           (fst (SelectiveHE.encrypt_head (SelectiveHE.__init__ toy_context)
                   [("classifier.bias", mkTensor [2] (map F32.of_Z [0; -1]%Z))]))
           (SelectiveHE.set_shapes (SelectiveHE.__init__ toy_context)
              [("features.conv0.weight", [3])])).
  - reflexivity.
  - repeat constructor. intros [].
Defined.

(** ** The metrics writer: rows, keys and the clients table *)

Section DatabaseWrites.
Local Open Scope Z_scope.

Lemma keys_below_snoc (ids : list Z) (next : Z) :
  keys_below ids next -> keys_below (ids ++ [next]) (next + 1).
Proof.
  intros [Hnd Hlt]. split.
  - apply NoDup_snoc; [assumption|]. intros Hin.
    rewrite Forall_forall in Hlt. apply Hlt in Hin. lia.
  - apply Forall_app. split.
    + eapply Forall_impl; [|exact Hlt]. simpl. intros; lia.
    + constructor; [lia | constructor].
Qed.

Lemma write_round_frame db rn job_id status num_clients gl ga st ct :
  let db' := fst (DBWriter.write_round db rn job_id status num_clients
                                       gl ga st ct) in
  DBWriter.client_updates db' = DBWriter.client_updates db /\
  DBWriter.round_metrics db' = DBWriter.round_metrics db /\
  DBWriter.trust_scores db' = DBWriter.trust_scores db /\
  DBWriter.clients db' = DBWriter.clients db /\
  DBWriter.next_update_id db' = DBWriter.next_update_id db /\
  DBWriter.next_metric_id db' = DBWriter.next_metric_id db /\
  DBWriter.next_trust_id db' = DBWriter.next_trust_id db.
Proof.
  unfold DBWriter.write_round, DBWriter.begin_session.
  destruct (DBWriter.faults db) as [|[|] fs]; simpl;
    try (repeat split; fail);
    match goal with
    | |- context [find ?p ?l] => destruct (find p l)
    end; repeat split.
Qed.

Lemma write_round_failure db rn job_id status num_clients gl ga st ct :
  snd (DBWriter.write_round db rn job_id status num_clients gl ga st ct)
  = None ->
  let db' := fst (DBWriter.write_round db rn job_id status num_clients
                                       gl ga st ct) in
  DBWriter.training_rounds db' = DBWriter.training_rounds db /\
  DBWriter.next_round_id db' = DBWriter.next_round_id db.
Proof.
  unfold DBWriter.write_round, DBWriter.begin_session.
  destruct (DBWriter.faults db) as [|[|] fs]; simpl;
    try (intros _; split; reflexivity);
    match goal with
    | |- context [find ?p ?l] => destruct (find p l)
    end; simpl; discriminate.
Qed.

Lemma write_round_well_keyed db rn job_id status num_clients gl ga st ct :
  well_keyed db ->
  well_keyed (fst (DBWriter.write_round db rn job_id status num_clients
                                        gl ga st ct)).
Proof.
  intros [Hc [Hu [Hm Ht]]].
  destruct (write_round_frame db rn job_id status num_clients gl ga st ct)
    as [Eu [Em [Et [_ [Nu [Nm Nt]]]]]].
  unfold well_keyed. rewrite Eu, Em, Et, Nu, Nm, Nt.
  split; [|tauto].
  destruct (snd (DBWriter.write_round db rn job_id status num_clients
                                      gl ga st ct)) as [i|] eqn:Hs.
  - now destruct (write_round_invariant _ _ _ _ _ _ _ _ _ _ Hc Hs).
  - destruct (write_round_failure _ _ _ _ _ _ _ _ _ Hs) as [Er En].
    unfold consistent. rewrite Er, En. exact Hc.
Qed.

(** Whatever the writer does, and whether the transaction succeeds or
    fails, the primary keys of every table stay distinct and below the
    next autoincrement value, and no two rows of [training_rounds] share a
    round number. *)
Theorem primary_keys_stay_unique (db : DBWriter.t) :
  well_keyed db ->
  (forall rn job_id status num_clients gl ga st ct,
     well_keyed (fst (DBWriter.write_round db rn job_id status num_clients
                                           gl ga st ct))) /\
  (forall now round_id name ll la ns ed es,
     well_keyed (fst (DBWriter.write_client_update db now round_id name
                                                   ll la ns ed es))) /\
  (forall round_id method iters ce eo at_ms pc,
     well_keyed (fst (DBWriter.write_round_metric db round_id method iters
                                                  ce eo at_ms pc))) /\
  (forall now name round_id score dev flagged,
     well_keyed (fst (DBWriter.write_trust_score db now name round_id score
                                                 dev flagged))) /\
  (forall now cid status,
     well_keyed (DBWriter.update_client_heartbeat db now cid status)).
Proof.
  intros Hw. split; [|split; [|split; [|split]]].
  - intros. now apply write_round_well_keyed.
  - intros. destruct Hw as [Hc [Hu [Hm Ht]]].
    unfold DBWriter.write_client_update, DBWriter.begin_session.
    destruct (DBWriter.faults db) as [|[|] fs]; simpl;
      unfold well_keyed; simpl; rewrite ?map_app; simpl;
      (split; [exact Hc|]); (split; [|split]);
      first [assumption | apply keys_below_snoc; assumption].
  - intros. destruct Hw as [Hc [Hu [Hm Ht]]].
    unfold DBWriter.write_round_metric, DBWriter.begin_session.
    destruct (DBWriter.faults db) as [|[|] fs]; simpl;
      unfold well_keyed; simpl; rewrite ?map_app; simpl;
      (split; [exact Hc|]); (split; [|split]);
      first [assumption | apply keys_below_snoc; assumption].
  - intros. destruct Hw as [Hc [Hu [Hm Ht]]].
    unfold DBWriter.write_trust_score, DBWriter.begin_session.
    destruct (DBWriter.faults db) as [|[|] fs]; simpl;
      unfold well_keyed; simpl; rewrite ?map_app; simpl;
      (split; [exact Hc|]); (split; [|split]);
      first [assumption | apply keys_below_snoc; assumption].
  - intros. destruct Hw as [Hc [Hu [Hm Ht]]].
    unfold DBWriter.update_client_heartbeat, DBWriter.begin_session.
    destruct (DBWriter.faults db) as [|[|] fs]; simpl;
      unfold well_keyed; simpl;
      (split; [exact Hc|]); (split; [|split]); assumption.
Qed.

Lemma fresh_db_well_keyed : well_keyed fresh_db.
Proof.
  split; [exact fresh_db_consistent|].
  unfold keys_below. simpl. repeat split; constructor.
Qed.

Lemma primary_keys_stay_unique_witness :
  well_keyed
    (fst (DBWriter.write_client_update fresh_db 900 1 "site-2" F64.one
            F64.one 100 F64.zero "encrypted")).
Proof.
  destruct (primary_keys_stay_unique fresh_db fresh_db_well_keyed)
    as [_ [H _]].
  apply H.
Defined.

Lemma unknown_name_unresolved (db : DBWriter.t) (name : string) :
  (forall c, In c (DBWriter.clients db) -> DBWriter.cl_name c <> name) ->
  DBWriter._get_client_id_by_name db name = None.
Proof.
  intros Hn. unfold DBWriter._get_client_id_by_name.
  destruct (find (fun c => String.eqb (DBWriter.cl_name c) name)
                 (DBWriter.clients db)) as [c|] eqn:Hf; [|reflexivity].
  apply find_some in Hf. destruct Hf as [Hin He].
  apply String.eqb_eq in He. now apply Hn in Hin.
Qed.

Lemma begin_session_clients (db : DBWriter.t) :
  DBWriter.clients (snd (DBWriter.begin_session db)) = DBWriter.clients db /\
  DBWriter.client_updates (snd (DBWriter.begin_session db))
  = DBWriter.client_updates db /\
  DBWriter.trust_scores (snd (DBWriter.begin_session db))
  = DBWriter.trust_scores db /\
  DBWriter.next_update_id (snd (DBWriter.begin_session db))
  = DBWriter.next_update_id db /\
  DBWriter.next_trust_id (snd (DBWriter.begin_session db))
  = DBWriter.next_trust_id db.
Proof.
  unfold DBWriter.begin_session. destruct (DBWriter.faults db); now repeat split.
Qed.

(** A client name that the [clients] table does not hold is no error: when
    the transaction succeeds, [write_client_update] and [write_trust_score]
    still insert their row, at the end of the table and under the next
    key, which they return; the row's [client_id] is NULL. *)
Theorem unregistered_client_rows (db : DBWriter.t) (now round_id : Z)
    (name : string) (ll la : float64) (ns : Z) (ed : float64) (es : string)
    (score dev : float64) (flagged : bool) :
  fst (DBWriter.begin_session db) = false ->
  (forall c, In c (DBWriter.clients db) -> DBWriter.cl_name c <> name) ->
  (let out := DBWriter.write_client_update db now round_id name ll la ns
                                           ed es in
   snd out = Some (DBWriter.next_update_id db) /\
   DBWriter.client_updates (fst out)
   = DBWriter.client_updates db
     ++ [DBWriter.mkClientUpdate (DBWriter.next_update_id db) round_id None
                                 ll la ns ed es now]) /\
  (let out := DBWriter.write_trust_score db now name round_id score dev
                                         flagged in
   snd out = Some (DBWriter.next_trust_id db) /\
   DBWriter.trust_scores (fst out)
   = DBWriter.trust_scores db
     ++ [DBWriter.mkTrustScore (DBWriter.next_trust_id db) None round_id
                               score dev flagged now]).
Proof.
  intros Hok Hn.
  destruct (begin_session_clients db) as [Ec [Eu [Et [Nu Nt]]]].
  assert (Hres : DBWriter._get_client_id_by_name
                   (snd (DBWriter.begin_session db)) name = None).
  { apply unknown_name_unresolved. now rewrite Ec. }
  unfold DBWriter.write_client_update, DBWriter.write_trust_score.
  destruct (DBWriter.begin_session db) as [fault db0]. simpl in *.
  subst fault. simpl. rewrite Hres, Eu, Et, Nu, Nt. repeat split.
Qed.

Lemma unregistered_client_rows_witness :
  (let out := DBWriter.write_client_update fresh_db 900 1 "site-9" F64.one
                F64.one 100 F64.zero "plaintext" in
   snd out = Some (DBWriter.next_update_id fresh_db) /\
   DBWriter.client_updates (fst out)
   = DBWriter.client_updates fresh_db
     ++ [DBWriter.mkClientUpdate (DBWriter.next_update_id fresh_db) 1 None
           F64.one F64.one 100 F64.zero "plaintext" 900]) /\
  (let out := DBWriter.write_trust_score fresh_db 900 "site-9" 1 F64.one
                F64.zero false in
   snd out = Some (DBWriter.next_trust_id fresh_db) /\
   DBWriter.trust_scores (fst out)
   = DBWriter.trust_scores fresh_db
     ++ [DBWriter.mkTrustScore (DBWriter.next_trust_id fresh_db) None 1
           F64.one F64.zero false 900]).
Proof.
  apply (unregistered_client_rows fresh_db 900 1 "site-9").
  - reflexivity.
  - intros c Hin. simpl in Hin.
    destruct Hin as [<-|[<-|[<-|[]]]]; discriminate.
Defined.

(** An update by [write_round] changes the row of the round only: the
    status and the client count are overwritten, and each of [job_id],
    [global_loss], [global_auc], [started_at] and [completed_at] is
    overwritten when the call passes a value and kept when it passes
    [None].  All other rows stay, and no row is added. *)
Theorem write_round_update_keeps_unset_fields (db : DBWriter.t) (rn : Z)
    (job_id : option string) (status : string) (num_clients : Z)
    (gl ga : option float64) (st ct : option Z)
    (row : DBWriter.training_round) (i : Z) :
  NoDup (map DBWriter.tr_id (DBWriter.training_rounds db)) ->
  find (has_round_number rn) (DBWriter.training_rounds db) = Some row ->
  snd (DBWriter.write_round db rn job_id status num_clients gl ga st ct)
  = Some i ->
  let rows' :=
    DBWriter.training_rounds
      (fst (DBWriter.write_round db rn job_id status num_clients gl ga
                                 st ct)) in
  i = DBWriter.tr_id row /\
  length rows' = length (DBWriter.training_rounds db) /\
  (forall r, In r (DBWriter.training_rounds db) -> DBWriter.tr_id r <> i ->
             In r rows') /\
  find (has_round_number rn) rows'
  = Some (DBWriter.mkRound i rn
            (DBWriter.or_keep job_id (DBWriter.tr_job_id row))
            (Some status) (Some num_clients)
            (DBWriter.or_keep gl (DBWriter.tr_global_loss row))
            (DBWriter.or_keep ga (DBWriter.tr_global_auc row))
            (DBWriter.or_keep st (DBWriter.tr_started_at row))
            (DBWriter.or_keep ct (DBWriter.tr_completed_at row))).
Proof.
  intros Hnd Hf Hs rows'.
  destruct (write_round_success _ _ _ _ _ _ _ _ _ _ Hs)
    as [[row0 [Hf0 [Hi [Hrows _]]]] | [Hf0 _]]; [|congruence].
  rewrite Hf in Hf0. injection Hf0 as <-.
  unfold rows'. rewrite Hrows. subst i.
  split; [reflexivity|]. split; [|split].
  - unfold update_rows. apply length_map.
  - intros r Hin Hne. unfold update_rows. apply in_map_iff. exists r.
    split; [|exact Hin].
    destruct (Z.eqb_spec (DBWriter.tr_id r) (DBWriter.tr_id row));
      [contradiction | reflexivity].
  - rewrite (find_update_rows rn
               (DBWriter.mkValues rn status num_clients job_id gl ga st ct)
               _ row Hnd eq_refl Hf).
    reflexivity.
Qed.

Lemma write_round_update_keeps_unset_fields_witness :
  let rows' :=
    DBWriter.training_rounds
      (fst (DBWriter.write_round running_db 1 None "failed" 2 None None
                                 None None)) in
  1 = 1 /\
  length rows' = length (DBWriter.training_rounds running_db) /\
  (forall r, In r (DBWriter.training_rounds running_db) ->
             DBWriter.tr_id r <> 1 -> In r rows') /\
  find (has_round_number 1) rows'
  = Some (DBWriter.mkRound 1 1 (Some "job-7") (Some "failed") (Some 2)
            None None (Some 500) None).
Proof.
  apply (write_round_update_keeps_unset_fields running_db 1 None "failed" 2
           None None None None
           (DBWriter.mkRound 1 1 (Some "job-7") (Some "in_progress") (Some 3)
                             None None (Some 500) None) 1).
  - repeat constructor. intros [].
  - reflexivity.
  - reflexivity.
Defined.

Lemma heartbeat_resolution (now : Z) (cid status name : string)
    (cs : list DBWriter.client) :
  match find (fun c => String.eqb (DBWriter.cl_name c) name)
             (map (fun c => if String.eqb (DBWriter.cl_client_id c) cid
                            then DBWriter.mkClient (DBWriter.cl_id c)
                                   (DBWriter.cl_client_id c)
                                   (DBWriter.cl_name c) status (Some now)
                            else c) cs) with
  | Some c => Some (DBWriter.cl_id c)
  | None => None
  end
  = match find (fun c => String.eqb (DBWriter.cl_name c) name) cs with
    | Some c => Some (DBWriter.cl_id c)
    | None => None
    end.
Proof.
  induction cs as [|c cs IH]; simpl; [reflexivity|].
  destruct (String.eqb (DBWriter.cl_client_id c) cid); simpl;
    destruct (String.eqb (DBWriter.cl_name c) name); simpl;
    try reflexivity; exact IH.
Qed.

(** [update_client_heartbeat] touches the [clients] table only, and there
    only the status and the heartbeat of the rows whose [client_id] is the
    given one: primary keys, client ids and names stay, so every name
    resolves to the same client as before.  An unknown [client_id] is no
    error and changes nothing; when the transaction succeeds, every row
    with the given [client_id] carries the new status and time. *)
Theorem heartbeat_updates_matching_clients (db : DBWriter.t) (now : Z)
    (cid status : string) :
  let db' := DBWriter.update_client_heartbeat db now cid status in
  (DBWriter.training_rounds db' = DBWriter.training_rounds db /\
   DBWriter.client_updates db' = DBWriter.client_updates db /\
   DBWriter.round_metrics db' = DBWriter.round_metrics db /\
   DBWriter.trust_scores db' = DBWriter.trust_scores db) /\
  map (fun c => (DBWriter.cl_id c, DBWriter.cl_client_id c,
                 DBWriter.cl_name c)) (DBWriter.clients db')
  = map (fun c => (DBWriter.cl_id c, DBWriter.cl_client_id c,
                   DBWriter.cl_name c)) (DBWriter.clients db) /\
  (forall name, DBWriter._get_client_id_by_name db' name
                = DBWriter._get_client_id_by_name db name) /\
  ((forall c, In c (DBWriter.clients db) -> DBWriter.cl_client_id c <> cid) ->
   DBWriter.clients db' = DBWriter.clients db) /\
  (fst (DBWriter.begin_session db) = false ->
   forall c, In c (DBWriter.clients db) -> DBWriter.cl_client_id c = cid ->
     In (DBWriter.mkClient (DBWriter.cl_id c) cid (DBWriter.cl_name c)
                           status (Some now))
        (DBWriter.clients db')).
Proof.
  unfold DBWriter.update_client_heartbeat, DBWriter._get_client_id_by_name,
    DBWriter.begin_session.
  destruct (DBWriter.faults db) as [|[|] fs]; simpl.
  - split; [repeat split|]. split; [|split; [|split]].
    + rewrite map_map. apply map_ext. intros c.
      now destruct (String.eqb (DBWriter.cl_client_id c) cid).
    + intros name. apply heartbeat_resolution.
    + intros Hn. rewrite <- (map_id (DBWriter.clients db)) at 2.
      apply map_ext_in. intros c Hin.
      destruct (String.eqb_spec (DBWriter.cl_client_id c) cid) as [E|_];
        [now apply Hn in Hin | reflexivity].
    + intros _ c Hin E. apply in_map_iff. exists c.
      split; [|exact Hin]. rewrite <- E, String.eqb_refl. reflexivity.
  - split; [repeat split|]. split; [reflexivity|]. split; [reflexivity|].
    split; [reflexivity|]. discriminate.
  - split; [repeat split|]. split; [|split; [|split]].
    + rewrite map_map. apply map_ext. intros c.
      now destruct (String.eqb (DBWriter.cl_client_id c) cid).
    + intros name. apply heartbeat_resolution.
    + intros Hn. rewrite <- (map_id (DBWriter.clients db)) at 2.
      apply map_ext_in. intros c Hin.
      destruct (String.eqb_spec (DBWriter.cl_client_id c) cid) as [E|_];
        [now apply Hn in Hin | reflexivity].
    + intros _ c Hin E. apply in_map_iff. exists c.
      split; [|exact Hin]. rewrite <- E, String.eqb_refl. reflexivity.
Qed.

End DatabaseWrites.

(** ** The controller: training and the database *)

Lemma bindM_ok {A B : Type} (m : GeomMedianController.M A)
    (k : A -> GeomMedianController.M B) (s s' : GeomMedianController.t)
    (b : B) :
  GeomMedianController.bindM m k s = (s', Ok b) ->
  exists s1 a, m s = (s1, Ok a) /\ k a s1 = (s', Ok b).
Proof.
  unfold GeomMedianController.bindM.
  destruct (m s) as [s1 [a|e]]; [eauto | discriminate].
Qed.

Lemma db_only_bind {A B : Type} (m : GeomMedianController.M A)
    (k : A -> GeomMedianController.M B) :
  db_only m -> (forall a, db_only (k a)) ->
  db_only (GeomMedianController.bindM m k).
Proof.
  intros Hm Hk s s' r. unfold GeomMedianController.bindM.
  destruct (m s) as [s1 [a|e]] eqn:E.
  - intros H. apply Hk in H. apply Hm in E. congruence.
  - intros [= <- _]. now apply Hm in E.
Qed.

Lemma db_only_ret {A : Type} (a : A) : db_only (GeomMedianController.ret a).
Proof. intros s s' r [= <- _]. reflexivity. Qed.

Lemma db_only_lift {A : Type} (r : result A) :
  db_only (GeomMedianController.lift r).
Proof. intros s s' r' [= <- _]. reflexivity. Qed.

Lemma db_only_get : db_only GeomMedianController.get.
Proof. intros s s' r' [= <- _]. reflexivity. Qed.

Lemma db_only_db_call (f : DBWriter.t -> DBWriter.t * option Z) :
  db_only (GeomMedianController.db_call f).
Proof.
  intros s s' r. unfold GeomMedianController.db_call.
  destruct (GeomMedianController.db_writer s) as [db|].
  - destruct (f db) as [db' o]. intros [= <- _]. reflexivity.
  - intros [= <- _]. reflexivity.
Qed.

Lemma db_only_write_clients now round_db_id distances crs i :
  db_only (GeomMedianController.write_clients now round_db_id distances crs i).
Proof.
  revert i. induction crs as [|cr crs IH]; intros i; simpl.
  - apply db_only_ret.
  - apply db_only_bind; [apply db_only_lift|]. intros trust.
    apply db_only_bind; [apply db_only_db_call|]. intros _.
    apply db_only_bind; [apply db_only_db_call|]. intros _.
    apply IH.
Qed.

Lemma without_db_fields s s' :
  without_db s' = without_db s ->
  GeomMedianController.num_rounds s' = GeomMedianController.num_rounds s /\
  GeomMedianController.min_clients s' = GeomMedianController.min_clients s /\
  GeomMedianController.aggregator s' = GeomMedianController.aggregator s /\
  GeomMedianController.global_model_weights s'
  = GeomMedianController.global_model_weights s.
Proof. unfold without_db. intros [= -> -> -> ->]. repeat split. Qed.

Lemma call_aggregate_without_db us s s' :
  without_db s' = without_db s ->
  GeomMedianController.call_aggregate us s'
  = (fst (GeomMedianController.call_aggregate us s'),
     snd (GeomMedianController.call_aggregate us s')) /\
  GeomMedianController.call_aggregate us (without_db s)
  = (without_db (fst (GeomMedianController.call_aggregate us s')),
     snd (GeomMedianController.call_aggregate us s')).
Proof.
  intros H. apply without_db_fields in H. destruct H as [Hn [Hm [Ha Hg]]].
  unfold GeomMedianController.call_aggregate. simpl. rewrite Ha.
  destruct (GeometricMedianAggregator.aggregate
              (GeomMedianController.aggregator s) us) as [agg' r].
  simpl. unfold without_db. simpl. rewrite Hn, Hm, Hg. split; reflexivity.
Qed.

(** A round that ends without an exception does the same to a controller
    without a database writer. *)
Lemma round_body_without_db env n s s' c :
  GeomMedianController.round_body env n s = (s', Ok c) ->
  GeomMedianController.round_body env n (without_db s)
  = (without_db s', Ok c).
Proof.
  unfold GeomMedianController.round_body.
  destruct (GeomMedianController.abort_triggered env).
  { intros [= <- <-]. reflexivity. }
  intros H.
  apply bindM_ok in H. destruct H as (s0 & self & Hget & H).
  injection Hget as <- <-.
  apply bindM_ok in H. destruct H as (s1 & rid & Hdb & H).
  pose proof (db_only_db_call _ _ _ _ Hdb) as Hw1.
  unfold GeomMedianController.bindM at 1 2.
  unfold GeomMedianController.get at 1.
  unfold GeomMedianController.db_call at 1.
  cbn [without_db GeomMedianController.db_writer
       GeomMedianController.min_clients GeomMedianController.aggregator].
  change (GeomMedianController.writer_and_id (without_db s) None)
    with (@None Z).
  destruct (length (GeomMedianController.collect_results
                      (GeomMedianController.client_tasks env))
            <? GeomMedianController.min_clients s).
  - assert (Hout : without_db s' = without_db s1 /\
                   c = GeomMedianController.NextRound).
    { destruct (GeomMedianController.writer_and_id s rid).
      - apply bindM_ok in H. destruct H as (s2 & a & Hdb2 & H).
        injection H as <- <-.
        split; [|reflexivity]. exact (db_only_db_call _ _ _ _ Hdb2).
      - injection H as <- <-. now split. }
    destruct Hout as [Hw ->]. rewrite Hw, Hw1. reflexivity.
  - apply bindM_ok in H. destruct H as (s2 & body & Hagg & H).
    destruct (call_aggregate_without_db
                (map GeomMedianController.body_weights
                   (GeomMedianController.collect_results
                      (GeomMedianController.client_tasks env)))
                s s1 Hw1) as [_ Hagg'].
    rewrite Hagg in Hagg'. simpl in Hagg'.
    unfold GeomMedianController.bindM at 1. rewrite Hagg'.
    apply bindM_ok in H. destruct H as (s3 & dists & Hd & H).
    injection Hd as <- Hd.
    unfold GeomMedianController.bindM at 1.
    unfold GeomMedianController.lift at 1. rewrite Hd.
    apply bindM_ok in H. destruct H as (s3 & head & Hh & H).
    injection Hh as <- Hh.
    unfold GeomMedianController.bindM at 1.
    unfold GeomMedianController.lift at 1. rewrite Hh.
    apply bindM_ok in H. destruct H as (s3 & u & Hset & H).
    injection Hset as <- _.
    unfold GeomMedianController.bindM at 1.
    unfold GeomMedianController.set_global_model_weights at 1.
    apply bindM_ok in H. destruct H as (s3 & avg_loss & Hl & H).
    injection Hl as <- Hl.
    unfold GeomMedianController.bindM at 1.
    unfold GeomMedianController.lift at 1. rewrite Hl.
    apply bindM_ok in H. destruct H as (s3 & avg_auc & Ha & H).
    injection Ha as <- Ha.
    unfold GeomMedianController.bindM at 1.
    unfold GeomMedianController.lift at 1. rewrite Ha.
    match type of H with
    | _ ?st = _ => remember st as s3 eqn:Es3
    end.
    assert (Hout : c = GeomMedianController.NextRound /\
                   without_db s' = without_db s3).
    { destruct (GeomMedianController.writer_and_id s rid) as [i|].
      - match type of H with
        | ?m _ = _ => assert (Hdbo : db_only m)
        end.
        { repeat (apply db_only_bind;
                  [first [ apply db_only_db_call | apply db_only_get
                         | apply db_only_write_clients ]
                  | intros ? ]).
          apply db_only_ret. }
        apply Hdbo in H as Hw. split; [|exact Hw].
        apply bindM_ok in H. destruct H as (? & ? & _ & H).
        apply bindM_ok in H. destruct H as (? & ? & _ & H).
        apply bindM_ok in H. destruct H as (? & ? & _ & H).
        apply bindM_ok in H. destruct H as (? & ? & _ & H).
        now injection H.
      - injection H as <- <-. split; reflexivity. }
    destruct Hout as [-> Hw]. rewrite Hw, Es3. reflexivity.
Qed.

Lemma rounds_from_without_db env n remaining s s' e :
  GeomMedianController.rounds_from env n remaining s = (s', e) ->
  (forall x, e <> GeomMedianController.Raised x) ->
  GeomMedianController.rounds_from env n remaining (without_db s)
  = (without_db s', e).
Proof.
  revert n s. induction remaining as [|k IH]; intros n s; simpl.
  - intros [= <- <-] _. reflexivity.
  - destruct (GeomMedianController.round_body (env n) n s)
      as [s1 [c|x]] eqn:Hb.
    + rewrite (round_body_without_db _ _ _ _ _ Hb).
      destruct c.
      * intros [= <- <-] _. reflexivity.
      * apply IH.
    + intros [= <- <-] Hne. now destruct (Hne x).
Qed.

(** The database never steers the training: whenever [control_flow] ends
    without an exception, the controller without a database writer (the
    default [db_url=None]), given the same replies, ends in the same way,
    with the same global model weights and the same aggregator, whatever
    the database held and whichever of its transactions failed. *)
Theorem training_ignores_database (env : nat -> GeomMedianController.round_env)
    (self s' : GeomMedianController.t) (e : GeomMedianController.exit) :
  GeomMedianController.control_flow env self = (s', e) ->
  (forall x, e <> GeomMedianController.Raised x) ->
  GeomMedianController.control_flow env (without_db self)
  = (without_db s', e).
Proof.
  unfold GeomMedianController.control_flow. simpl.
  apply rounds_from_without_db.
Qed.

Lemma training_ignores_database_witness :
  GeomMedianController.control_flow (fun _ => env_of three_ok_tasks)
    (without_db (GeomMedianController.__init__ 2 3 (Some flaky_db)))
  = (without_db
       (fst (GeomMedianController.control_flow
               (fun _ => env_of three_ok_tasks)
               (GeomMedianController.__init__ 2 3 (Some flaky_db)))),
     GeomMedianController.Finished).
Proof.
  apply (training_ignores_database (fun _ => env_of three_ok_tasks)
           (GeomMedianController.__init__ 2 3 (Some flaky_db))).
  - vm_compute. reflexivity.
  - intros x. discriminate.
Defined.

Lemma rounds_from_abort env n k m s :
  GeomMedianController.abort_triggered (env (n + k)) = true ->
  GeomMedianController.rounds_from env n (k + S m) s
  = (fst (GeomMedianController.rounds_from env n k s),
     match snd (GeomMedianController.rounds_from env n k s) with
     | GeomMedianController.Finished => GeomMedianController.Aborted
     | e => e
     end).
Proof.
  revert n s. induction k as [|k IH]; intros n s Ha; simpl.
  - rewrite Nat.add_0_r in Ha.
    unfold GeomMedianController.round_body. rewrite Ha. reflexivity.
  - destruct (GeomMedianController.round_body (env n) n s) as [s1 [[|]|x]];
      try reflexivity.
    apply IH. now rewrite Nat.add_succ_comm.
Qed.

(** Once the abort signal is set at the top of a round, that round and all
    later ones are skipped: [control_flow] ends with the controller and the
    database as the rounds before left them, and nothing that the later
    rounds would have received matters. *)
Theorem abort_skips_remaining_rounds
    (env : nat -> GeomMedianController.round_env)
    (self : GeomMedianController.t) (k : nat) :
  k < GeomMedianController.num_rounds self ->
  GeomMedianController.abort_triggered (env (S k)) = true ->
  GeomMedianController.control_flow env self
  = (fst (GeomMedianController.rounds_from env 1 k self),
     match snd (GeomMedianController.rounds_from env 1 k self) with
     | GeomMedianController.Finished => GeomMedianController.Aborted
     | e => e
     end).
Proof.
  intros Hk Ha. unfold GeomMedianController.control_flow.
  replace (GeomMedianController.num_rounds self)
    with (k + S (GeomMedianController.num_rounds self - S k)) by lia.
  apply rounds_from_abort. exact Ha.
Qed.

Lemma abort_skips_remaining_rounds_witness :
  let env := fun n => if n =? 2
                      then GeomMedianController.mkEnv true 1000 2000 2000
                             None three_ok_tasks 7 np_mean_axis0
                      else env_of two_ok_tasks in
  let self := GeomMedianController.__init__ 5 3 (Some fresh_db) in
  GeomMedianController.control_flow env self
  = (fst (GeomMedianController.rounds_from env 1 1 self),
     match snd (GeomMedianController.rounds_from env 1 1 self) with
     | GeomMedianController.Finished => GeomMedianController.Aborted
     | e => e
     end).
Proof.
  apply (abort_skips_remaining_rounds
           (fun n => if n =? 2
                     then GeomMedianController.mkEnv true 1000 2000 2000
                            None three_ok_tasks 7 np_mean_axis0
                     else env_of two_ok_tasks)
           (GeomMedianController.__init__ 5 3 (Some fresh_db)) 1).
  - simpl. lia.
  - reflexivity.
Defined.

Lemma aggregate_then_distances_empty_body self
    (cr : GeomMedianController.client_result)
    (crs : list GeomMedianController.client_result) (agg : GeometricMedianAggregator.t) :
  GeomMedianController.body_weights cr = [] ->
  match snd (GeometricMedianAggregator.aggregate self
               (map GeomMedianController.body_weights (cr :: crs))) with
  | Ok body =>
      GeometricMedianAggregator.compute_distances agg
        (map GeomMedianController.body_weights (cr :: crs)) body
      = Raise ValueError
  | Raise x => x = ValueError
  end.
Proof.
  intros Hb. simpl. rewrite Hb. destruct crs as [|cr2 crs]; simpl.
  - reflexivity.
  - reflexivity.
Qed.

(** A round that meets the quorum but whose first accepted reply carries
    no body weights (or no reply at all, with [min_clients = 0]) does not
    skip the round: the aggregation raises [ValueError] (from
    [np.concatenate] of nothing, or from [aggregate] of no updates), the
    global model weights stay as they were, and [control_flow] ends with
    that exception, no later round being run. *)
Theorem round_without_body_weights_raises
    (env : GeomMedianController.round_env) (n : nat)
    (self : GeomMedianController.t) :
  GeomMedianController.abort_triggered env = false ->
  GeomMedianController.min_clients self
  <= length (GeomMedianController.collect_results
               (GeomMedianController.client_tasks env)) ->
  match GeomMedianController.collect_results
          (GeomMedianController.client_tasks env) with
  | [] => True
  | cr :: _ => GeomMedianController.body_weights cr = []
  end ->
  exists self',
    GeomMedianController.round_body env n self = (self', Raise ValueError) /\
    GeomMedianController.global_model_weights self'
    = GeomMedianController.global_model_weights self /\
    forall envs remaining,
      envs n = env ->
      GeomMedianController.rounds_from envs n (S remaining) self
      = (self', GeomMedianController.Raised ValueError).
Proof.
  intros Ha Hq Hfirst.
  assert (Hbody : exists self',
            GeomMedianController.round_body env n self
            = (self', Raise ValueError) /\
            GeomMedianController.global_model_weights self'
            = GeomMedianController.global_model_weights self).
  { unfold GeomMedianController.round_body. rewrite Ha.
    unfold GeomMedianController.bindM at 1 2.
    unfold GeomMedianController.get at 1.
    destruct (GeomMedianController.db_call _ self) as [s1 [rid|x]] eqn:Hdb.
    2:{ exfalso. revert Hdb. unfold GeomMedianController.db_call.
        destruct (GeomMedianController.db_writer self) as [db|];
          [destruct (DBWriter.write_round _ _ _ _ _ _ _ _ _)|];
          discriminate. }
    pose proof (db_only_db_call _ _ _ _ Hdb) as Hw1.
    apply without_db_fields in Hw1. destruct Hw1 as [_ [_ [_ Hg]]].
    destruct (Nat.ltb_spec
                (length (GeomMedianController.collect_results
                           (GeomMedianController.client_tasks env)))
                (GeomMedianController.min_clients self)) as [Hlt|_];
      [lia|].
    unfold GeomMedianController.bindM at 1.
    unfold GeomMedianController.call_aggregate at 1.
    destruct (GeomMedianController.collect_results
                (GeomMedianController.client_tasks env)) as [|cr crs].
    - simpl. eexists. split; [reflexivity|]. exact Hg.
    - pose proof (aggregate_then_distances_empty_body
                    (GeomMedianController.aggregator s1) cr crs
                    (GeomMedianController.aggregator self) Hfirst) as Hagg.
      destruct (GeometricMedianAggregator.aggregate
                  (GeomMedianController.aggregator s1)
                  (map GeomMedianController.body_weights (cr :: crs)))
        as [agg' [body|x]]; cbn [snd] in Hagg.
      + unfold GeomMedianController.bindM at 1.
        unfold GeomMedianController.lift at 1. rewrite Hagg.
        eexists. split; [reflexivity|]. exact Hg.
      + subst x. eexists. split; [reflexivity|]. exact Hg. }
  destruct Hbody as [self' [Hb Hw]]. exists self'.
  split; [exact Hb|]. split; [exact Hw|].
  intros envs remaining <-. simpl. now rewrite Hb.
Qed.

Lemma round_without_body_weights_raises_witness :
  let env := env_of [GeomMedianController.mkClientTask "site-1"
                       (Some (GeomMedianController.mkShareable
                                GeomMedianController.RC_OK None None
                                None None None None))] in
  let self := GeomMedianController.__init__ 3 1 (Some fresh_db) in
  exists self',
    GeomMedianController.round_body env 1 self = (self', Raise ValueError) /\
    GeomMedianController.global_model_weights self'
    = GeomMedianController.global_model_weights self /\
    forall envs remaining,
      envs 1 = env ->
      GeomMedianController.rounds_from envs 1 (S remaining) self
      = (self', GeomMedianController.Raised ValueError).
Proof.
  apply (round_without_body_weights_raises
           (env_of [GeomMedianController.mkClientTask "site-1"
                      (Some (GeomMedianController.mkShareable
                               GeomMedianController.RC_OK None None
                               None None None None))])
           1 (GeomMedianController.__init__ 3 1 (Some fresh_db))).
  - reflexivity.
  - simpl. lia.
  - reflexivity.
Defined.


(** * Encrypted heads, and the privacy accounting in binary64 *)

(** ** The controller: heads that arrive encrypted *)

Lemma torch_stack_mean_cipher (mean_dim0 : list vec -> vec) (b : bytes)
    (rest : list weight) :
  torch_stack_mean mean_dim0 (Cipher b :: rest) = Raise TypeError.
Proof. reflexivity. Qed.

Lemma aggregate_head_cipher (mean_dim0 : list vec -> vec) (k : string)
    (b : bytes) (h : list (string * weight))
    (rest : list (list (string * weight))) :
  GeomMedianController.aggregate_head mean_dim0 (((k, Cipher b) :: h) :: rest)
  = Raise TypeError.
Proof.
  unfold GeomMedianController.aggregate_head.
  cbn [keys map fst GeomMedianController.aggregate_head_keys flat_map
       dict_get].
  rewrite String.eqb_refl. cbn [app].
  reflexivity.
Qed.

(** C2 (the code diverges): the controller decrypts no head.  In a round
    that meets the quorum and whose body aggregation succeeds, collected
    heads that are ciphertext bytes, which is what the clients send, are
    handed to [torch.stack] as they are: the head aggregation raises
    [TypeError], and so does the round, before the global model is
    assigned; [control_flow] ends with that exception.  No mean of
    decrypted heads is computed. *)
Theorem encrypted_heads_raise_type_error
    (env : GeomMedianController.round_env) (n : nat)
    (self : GeomMedianController.t)
    (cr : GeomMedianController.client_result)
    (crs : list GeomMedianController.client_result)
    (k : string) (b : bytes) (h : list (string * weight))
    (body : state_dict) (distances : list float64) :
  GeomMedianController.abort_triggered env = false ->
  GeomMedianController.collect_results (GeomMedianController.client_tasks env)
  = cr :: crs ->
  GeomMedianController.min_clients self <= length (cr :: crs) ->
  snd (GeometricMedianAggregator.aggregate
         (GeomMedianController.aggregator self)
         (map GeomMedianController.body_weights (cr :: crs))) = Ok body ->
  GeometricMedianAggregator.compute_distances
    (GeomMedianController.aggregator self)
    (map GeomMedianController.body_weights (cr :: crs)) body = Ok distances ->
  GeomMedianController.head_weights cr = (k, Cipher b) :: h ->
  GeomMedianController.aggregate_head
    (GeomMedianController.torch_mean_dim0 env)
    (map GeomMedianController.head_weights (cr :: crs)) = Raise TypeError /\
  exists self',
    GeomMedianController.round_body env n self = (self', Raise TypeError) /\
    GeomMedianController.global_model_weights self'
    = GeomMedianController.global_model_weights self /\
    forall envs remaining,
      envs n = env ->
      GeomMedianController.rounds_from envs n (S remaining) self
      = (self', GeomMedianController.Raised TypeError).
Proof.
  intros Ha Hcrs Hq Hagg Hd Hhead.
  assert (Hh : GeomMedianController.aggregate_head
                 (GeomMedianController.torch_mean_dim0 env)
                 (map GeomMedianController.head_weights (cr :: crs))
               = Raise TypeError).
  { cbn [map]. rewrite Hhead. apply aggregate_head_cipher. }
  split; [exact Hh|].
  assert (Hbody : exists self',
            GeomMedianController.round_body env n self
            = (self', Raise TypeError) /\
            GeomMedianController.global_model_weights self'
            = GeomMedianController.global_model_weights self).
  { unfold GeomMedianController.round_body. rewrite Ha, Hcrs.
    unfold GeomMedianController.bindM at 1 2.
    unfold GeomMedianController.get at 1.
    destruct (GeomMedianController.db_call _ self) as [s1 [rid|x]] eqn:Hdb.
    2:{ exfalso. revert Hdb. unfold GeomMedianController.db_call.
        destruct (GeomMedianController.db_writer self) as [db|];
          [destruct (DBWriter.write_round _ _ _ _ _ _ _ _ _)|];
          discriminate. }
    pose proof (db_only_db_call _ _ _ _ Hdb) as Hw1.
    apply without_db_fields in Hw1. destruct Hw1 as [_ [_ [Hagg1 Hg]]].
    destruct (Nat.ltb_spec (length (cr :: crs))
                (GeomMedianController.min_clients self)) as [Hlt|_];
      [lia|].
    unfold GeomMedianController.bindM at 1.
    unfold GeomMedianController.call_aggregate at 1.
    rewrite Hagg1.
    destruct (GeometricMedianAggregator.aggregate
                (GeomMedianController.aggregator self)
                (map GeomMedianController.body_weights (cr :: crs)))
      as [agg' r]. cbn [snd] in Hagg. subst r.
    unfold GeomMedianController.bindM at 1.
    unfold GeomMedianController.lift at 1. rewrite Hd.
    unfold GeomMedianController.bindM at 1.
    unfold GeomMedianController.lift at 1. rewrite Hh.
    eexists. split; [reflexivity|]. exact Hg. }
  destruct Hbody as [self' [Hb Hw]]. exists self'.
  split; [exact Hb|]. split; [exact Hw|].
  intros envs remaining <-. simpl. now rewrite Hb.
Qed.

Lemma encrypted_heads_raise_type_error_witness :
  let env := env_of encrypted_tasks in
  let self := GeomMedianController.__init__ 1 2 (Some fresh_db) in
  GeomMedianController.aggregate_head
    (GeomMedianController.torch_mean_dim0 env)
    (map GeomMedianController.head_weights
       (GeomMedianController.collect_results
          (GeomMedianController.client_tasks env))) = Raise TypeError /\
  exists self',
    GeomMedianController.round_body env 1 self = (self', Raise TypeError) /\
    GeomMedianController.global_model_weights self' = None /\
    forall envs remaining,
      envs 1 = env ->
      GeomMedianController.rounds_from envs 1 (S remaining) self
      = (self', GeomMedianController.Raised TypeError).
Proof.
  eapply (encrypted_heads_raise_type_error (env_of encrypted_tasks) 1
            (GeomMedianController.__init__ 1 2 (Some fresh_db))
            _ _ "classifier.weight" "cccc"
            [("classifier.bias", Cipher "cc")]).
  - reflexivity.
  - vm_compute. reflexivity.
  - simpl. lia.
  - vm_compute. reflexivity.
  - vm_compute. reflexivity.
  - reflexivity.
Defined.

(** ** Rounding into binary64 *)

Section Rounding.
Local Open Scope R_scope.

Lemma ln_2_pos : 0 < ln 2.
Proof. rewrite <- ln_1. apply ln_increasing; lra. Qed.

Lemma pow2_pos (k : Z) : 0 < powerRZ 2 k.
Proof. apply powerRZ_lt. lra. Qed.

Lemma pow2_exp (k : Z) : powerRZ 2 k = exp (IZR k * ln 2).
Proof. rewrite powerRZ_Rpower by lra. reflexivity. Qed.

Lemma pow2_le (j k : Z) : (j <= k)%Z -> powerRZ 2 j <= powerRZ 2 k.
Proof.
  intros H. rewrite !pow2_exp.
  destruct (Z.eq_dec j k) as [->|Hne]; [lra|].
  left. apply exp_increasing.
  apply Rmult_lt_compat_r; [apply ln_2_pos|].
  apply IZR_lt. lia.
Qed.

Lemma pow2_lt_inv (j k : Z) : powerRZ 2 j < powerRZ 2 k -> (j < k)%Z.
Proof.
  intros H. destruct (Z_lt_le_dec j k) as [Hlt|Hle]; [exact Hlt|].
  apply pow2_le in Hle. lra.
Qed.

Lemma pow2_add (j k : Z) : powerRZ 2 (j + k) = powerRZ 2 j * powerRZ 2 k.
Proof. apply powerRZ_add. lra. Qed.

Lemma pow2_IZR (k : Z) : (0 <= k)%Z -> powerRZ 2 k = IZR (2 ^ k).
Proof.
  intros H. rewrite <- (Z2Nat.id k H) at 1.
  rewrite <- pow_powerRZ. rewrite pow_IZR. now rewrite Z2Nat.id.
Qed.

Lemma mag_spec (x : R) :
  0 < x ->
  powerRZ 2 (PyFloat.mag x) <= x < powerRZ 2 (PyFloat.mag x + 1).
Proof.
  intros Hx. unfold PyFloat.mag.
  pose proof (Int_part_bounds (ln x / ln 2)) as [Hlo Hhi].
  pose proof ln_2_pos as H2.
  set (z := Int_part (ln x / ln 2)) in *.
  assert (E : ln x / ln 2 * ln 2 = ln x) by (field; lra).
  rewrite !pow2_exp, plus_IZR.
  assert (H1 : exp (IZR z * ln 2) <= exp (ln x)).
  { destruct (Req_dec (IZR z * ln 2) (ln x)) as [->|Hne]; [lra|].
    left. apply exp_increasing. nra. }
  assert (H3 : exp (ln x) < exp ((IZR z + 1) * ln 2))
    by (apply exp_increasing; nra).
  rewrite (exp_ln x Hx) in H1, H3. split; assumption.
Qed.

Lemma mag_unique (x : R) (k : Z) :
  powerRZ 2 k <= x -> x < powerRZ 2 (k + 1) -> PyFloat.mag x = k.
Proof.
  intros Hlo Hhi.
  assert (Hx : 0 < x) by (pose proof (pow2_pos k); lra).
  destruct (mag_spec x Hx) as [Mlo Mhi].
  assert (H1 : (PyFloat.mag x < k + 1)%Z) by (apply pow2_lt_inv; lra).
  assert (H2 : (k < PyFloat.mag x + 1)%Z) by (apply pow2_lt_inv; lra).
  lia.
Qed.

Lemma mag_le (x y : R) : 0 < x -> x <= y -> (PyFloat.mag x <= PyFloat.mag y)%Z.
Proof.
  intros Hx Hxy.
  destruct (mag_spec x Hx) as [Xlo _].
  destruct (mag_spec y ltac:(lra)) as [_ Yhi].
  assert (H : (PyFloat.mag x < PyFloat.mag y + 1)%Z)
    by (apply pow2_lt_inv; lra).
  lia.
Qed.

Lemma ulp_pos (x : R) : 0 < PyFloat.ulp x.
Proof. apply pow2_pos. Qed.

Lemma round_half_even_int (z : Z) : round_half_even (IZR z) = z.
Proof.
  assert (Hi : Int_part (IZR z) = z) by (symmetry; apply Int_part_spec; lra).
  unfold round_half_even. rewrite Hi.
  destruct (Rlt_dec (IZR z - IZR z) (1 / 2)); [reflexivity | lra].
Qed.

(** A number of the format is its own rounding. *)
Lemma round_pos_exact (m e : Z) :
  (0 < m < 2 ^ 53)%Z -> (-1074 <= e)%Z ->
  PyFloat.round_pos (IZR m * powerRZ 2 e) = IZR m * powerRZ 2 e.
Proof.
  intros Hm He.
  set (x := IZR m * powerRZ 2 e).
  assert (Hx : 0 < x).
  { apply Rmult_lt_0_compat; [apply IZR_lt; lia | apply pow2_pos]. }
  destruct (mag_spec x Hx) as [Mlo Mhi].
  assert (Hk : (PyFloat.mag x - 52 <= e)%Z).
  { assert (Hlt : powerRZ 2 (PyFloat.mag x) < powerRZ 2 (53 + e)).
    { eapply Rle_lt_trans; [exact Mlo|]. unfold x.
      rewrite pow2_add. apply Rmult_lt_compat_r; [apply pow2_pos|].
      rewrite (pow2_IZR 53) by lia. apply IZR_lt. lia. }
    apply pow2_lt_inv in Hlt. lia. }
  unfold PyFloat.round_pos, PyFloat.ulp. fold x.
  set (ex := Z.max (PyFloat.mag x - 52) (-1074)).
  assert (Hex : (ex <= e)%Z) by (unfold ex; lia).
  assert (E : x / powerRZ 2 ex = IZR (m * 2 ^ (e - ex))).
  { unfold x. replace e with ((e - ex) + ex)%Z at 1 by lia.
    rewrite pow2_add, mult_IZR, <- (pow2_IZR (e - ex)) by lia.
    field. apply Rgt_not_eq, pow2_pos. }
  rewrite E, round_half_even_int, mult_IZR, <- (pow2_IZR (e - ex)) by lia.
  unfold x. replace e with ((e - ex) + ex)%Z at 2 by lia.
  rewrite pow2_add. ring.
Qed.

Lemma round_pos_pow2 (k : Z) :
  (-1074 <= k)%Z -> PyFloat.round_pos (powerRZ 2 k) = powerRZ 2 k.
Proof.
  intros Hk. pose proof (round_pos_exact 1 k ltac:(lia) Hk) as H.
  now rewrite Rmult_1_l in H.
Qed.

Lemma round_pos_nonneg (x : R) : 0 < x -> 0 <= PyFloat.round_pos x.
Proof.
  intros Hx. unfold PyFloat.round_pos.
  apply Rmult_le_pos; [|left; apply ulp_pos].
  apply IZR_le.
  rewrite <- (round_half_even_int 0).
  apply round_half_even_monotone.
  left. apply Rdiv_lt_0_compat; [exact Hx | apply ulp_pos].
Qed.

(** Rounding does not cross a power of two. *)
Lemma round_pos_ge_pow2 (x : R) :
  0 < x -> (-1074 <= PyFloat.mag x - 52)%Z ->
  powerRZ 2 (PyFloat.mag x) <= PyFloat.round_pos x.
Proof.
  intros Hx Hn. destruct (mag_spec x Hx) as [Mlo _].
  unfold PyFloat.round_pos, PyFloat.ulp.
  rewrite Z.max_l by lia.
  set (k := PyFloat.mag x) in *.
  assert (E : powerRZ 2 k = IZR (2 ^ 52) * powerRZ 2 (k - 52)).
  { rewrite <- (pow2_IZR 52), <- pow2_add by lia. f_equal. lia. }
  rewrite E. apply Rmult_le_compat_r; [left; apply pow2_pos|].
  apply IZR_le. rewrite <- (round_half_even_int (2 ^ 52)).
  apply round_half_even_monotone.
  apply Rmult_le_reg_r with (powerRZ 2 (k - 52)); [apply pow2_pos|].
  unfold Rdiv. rewrite Rmult_assoc, Rinv_l, Rmult_1_r
    by (apply Rgt_not_eq, pow2_pos).
  now rewrite <- E.
Qed.

Lemma round_pos_le_pow2 (x : R) (j : Z) :
  0 < x -> x <= powerRZ 2 j ->
  (Z.max (PyFloat.mag x - 52) (-1074) <= j)%Z ->
  PyFloat.round_pos x <= powerRZ 2 j.
Proof.
  intros Hx Hj Hex.
  unfold PyFloat.round_pos, PyFloat.ulp.
  set (ex := Z.max (PyFloat.mag x - 52) (-1074)) in *.
  assert (E : powerRZ 2 j = IZR (2 ^ (j - ex)) * powerRZ 2 ex).
  { rewrite <- (pow2_IZR (j - ex)), <- pow2_add by lia. f_equal. lia. }
  rewrite E. apply Rmult_le_compat_r; [left; apply pow2_pos|].
  apply IZR_le. rewrite <- (round_half_even_int (2 ^ (j - ex))).
  apply round_half_even_monotone.
  apply Rmult_le_reg_r with (powerRZ 2 ex); [apply pow2_pos|].
  unfold Rdiv. rewrite Rmult_assoc, Rinv_l, Rmult_1_r
    by (apply Rgt_not_eq, pow2_pos).
  now rewrite <- E.
Qed.

Lemma round_pos_monotone (x y : R) :
  0 < x -> x <= y -> PyFloat.round_pos x <= PyFloat.round_pos y.
Proof.
  intros Hx Hxy.
  assert (Hy : 0 < y) by lra.
  pose proof (mag_le x y Hx Hxy) as Hm.
  set (ex := Z.max (PyFloat.mag x - 52) (-1074)).
  set (ey := Z.max (PyFloat.mag y - 52) (-1074)).
  destruct (Z.eq_dec ex ey) as [E|NE].
  - unfold PyFloat.round_pos, PyFloat.ulp. fold ex ey. rewrite <- E.
    apply Rmult_le_compat_r; [left; apply pow2_pos|].
    apply IZR_le, round_half_even_monotone.
    apply Rmult_le_compat_r; [left; apply Rinv_0_lt_compat, pow2_pos | exact Hxy].
  - assert (Hlt : (ex < ey)%Z) by (unfold ex, ey in *; lia).
    assert (Hey : (-1074 <= PyFloat.mag y - 52)%Z) by (unfold ex, ey in *; lia).
    assert (Hmag : (PyFloat.mag x + 1 <= PyFloat.mag y)%Z)
      by (unfold ex, ey in *; lia).
    apply Rle_trans with (powerRZ 2 (PyFloat.mag y)).
    + apply round_pos_le_pow2; [exact Hx | | fold ex; unfold ey in Hlt; lia].
      destruct (mag_spec x Hx) as [_ Mhi].
      left. eapply Rlt_le_trans; [exact Mhi|]. now apply pow2_le.
    + now apply round_pos_ge_pow2.
Qed.

End Rounding.

(** ** The order of floats, and the operations that keep it *)

Section FloatOrder.
Local Open Scope R_scope.

Lemma rnd_not_nan (x : R) : PyFloat.rnd x <> NaN.
Proof.
  unfold PyFloat.rnd.
  repeat match goal with
         | |- context [if ?c then _ else _] => destruct c
         end; discriminate.
Qed.

Lemma rnd_0 : PyFloat.rnd 0 = Finite 0.
Proof.
  unfold PyFloat.rnd.
  destruct (Rlt_dec 0 0); [lra|]. destruct (Rlt_dec 0 0); [lra | reflexivity].
Qed.

Lemma rnd_monotone (x y : R) :
  x <= y -> PyFloat.leb (PyFloat.rnd x) (PyFloat.rnd y) = true.
Proof.
  intros Hxy. unfold PyFloat.rnd.
  destruct (Rlt_dec 0 x) as [Hx|Hx].
  - pose proof (round_pos_monotone x y Hx Hxy) as Hm.
    destruct (Rlt_dec 0 y) as [_|Hy]; [|lra].
    destruct (Rle_dec (powerRZ 2 1024) (PyFloat.round_pos x));
      destruct (Rle_dec (powerRZ 2 1024) (PyFloat.round_pos y));
      simpl; try reflexivity; try lra.
    destruct (Rle_dec (PyFloat.round_pos x) (PyFloat.round_pos y));
      [reflexivity | lra].
  - destruct (Rlt_dec x 0) as [Hx'|Hx'].
    + pose proof (round_pos_nonneg (- x) ltac:(lra)) as Hnx.
      destruct (Rlt_dec 0 y) as [Hy|Hy].
      * pose proof (round_pos_nonneg y Hy) as Hny.
        destruct (Rle_dec (powerRZ 2 1024) (PyFloat.round_pos (- x)));
          destruct (Rle_dec (powerRZ 2 1024) (PyFloat.round_pos y));
          simpl; try reflexivity.
        destruct (Rle_dec (- PyFloat.round_pos (- x)) (PyFloat.round_pos y));
          [reflexivity | lra].
      * destruct (Rlt_dec y 0) as [Hy'|Hy'].
        -- pose proof (round_pos_monotone (- y) (- x) ltac:(lra) ltac:(lra))
             as Hm.
           destruct (Rle_dec (powerRZ 2 1024) (PyFloat.round_pos (- x)));
             destruct (Rle_dec (powerRZ 2 1024) (PyFloat.round_pos (- y)));
             simpl; try reflexivity; try lra.
           destruct (Rle_dec (- PyFloat.round_pos (- x))
                             (- PyFloat.round_pos (- y)));
             [reflexivity | lra].
        -- destruct (Rle_dec (powerRZ 2 1024) (PyFloat.round_pos (- x)));
             simpl; try reflexivity.
           destruct (Rle_dec (- PyFloat.round_pos (- x)) 0);
             [reflexivity | lra].
    + assert (x = 0) by lra. subst x.
      destruct (Rlt_dec 0 y) as [Hy|Hy].
      * pose proof (round_pos_nonneg y Hy) as Hny.
        destruct (Rle_dec (powerRZ 2 1024) (PyFloat.round_pos y));
          simpl; try reflexivity.
        destruct (Rle_dec 0 (PyFloat.round_pos y)); [reflexivity | lra].
      * destruct (Rlt_dec y 0); [lra|]. simpl.
        destruct (Rle_dec 0 0); [reflexivity | lra].
Qed.

Lemma rnd_nonneg (x : R) :
  0 <= x -> PyFloat.leb (Finite 0) (PyFloat.rnd x) = true.
Proof. intros H. rewrite <- rnd_0. now apply rnd_monotone. Qed.

Lemma rnd_nonpos (x : R) :
  x <= 0 -> PyFloat.leb (PyFloat.rnd x) (Finite 0) = true.
Proof. intros H. rewrite <- rnd_0. now apply rnd_monotone. Qed.

(** A float that is at least zero: a finite number that is not negative,
    or the positive infinity. *)
Lemma leb_0_inv (a : pyfloat) :
  PyFloat.leb (Finite 0) a = true ->
  (exists x, a = Finite x /\ 0 <= x) \/ a = Infinity false.
Proof.
  destruct a as [x|[|]|]; simpl; try discriminate.
  - destruct (Rle_dec 0 x); [|discriminate]. intros _. left. now exists x.
  - intros _. now right.
Qed.

Lemma leb_finite (x y : R) :
  PyFloat.leb (Finite x) (Finite y) = true <-> x <= y.
Proof.
  simpl. destruct (Rle_dec x y); split; intros; try reflexivity;
    try assumption; try discriminate. contradiction.
Qed.

Lemma leb_refl (a : pyfloat) : a <> NaN -> PyFloat.leb a a = true.
Proof.
  destruct a as [x|[|]|]; simpl; intros H; try reflexivity; [|congruence].
  destruct (Rle_dec x x); [reflexivity | lra].
Qed.

Lemma mul_not_nan (a b : pyfloat) :
  PyFloat.mul a b <> NaN -> a <> NaN /\ b <> NaN.
Proof. destruct a, b; simpl; intros H; split; congruence. Qed.

Lemma add_not_nan (a b : pyfloat) :
  PyFloat.add a b <> NaN -> a <> NaN /\ b <> NaN.
Proof. destruct a, b; simpl; intros H; split; congruence. Qed.

Lemma negative_nonneg (x : R) : 0 <= x -> PyFloat.negative x = false.
Proof. intros H. unfold PyFloat.negative. destruct (Rlt_dec x 0); [lra | reflexivity]. Qed.

Ltac leb_rnd :=
  match goal with
  | |- PyFloat.leb (PyFloat.rnd _) (PyFloat.rnd _) = true =>
      apply rnd_monotone; lra
  | |- PyFloat.leb (PyFloat.rnd ?a) (Infinity false) = true =>
      pose proof (rnd_not_nan a);
      destruct (PyFloat.rnd a) as [?|[|]|]; [reflexivity .. | congruence]
  | |- PyFloat.leb (Infinity true) (PyFloat.rnd ?a) = true =>
      pose proof (rnd_not_nan a);
      destruct (PyFloat.rnd a) as [?|[|]|]; [reflexivity .. | congruence]
  | |- match PyFloat.rnd ?a with _ => _ end = true =>
      pose proof (rnd_not_nan a);
      destruct (PyFloat.rnd a) as [?|[|]|]; [reflexivity .. | congruence]
  end.

(** Multiplication by a float that is at least zero keeps the order of
    floats that are at least zero, whenever neither product is NaN. *)
Lemma mul_monotone (a x y : pyfloat) :
  PyFloat.leb (Finite 0) a = true ->
  PyFloat.leb (Finite 0) x = true ->
  PyFloat.leb x y = true ->
  PyFloat.mul a x <> NaN -> PyFloat.mul a y <> NaN ->
  PyFloat.leb (PyFloat.mul a x) (PyFloat.mul a y) = true /\
  PyFloat.leb (Finite 0) (PyFloat.mul a x) = true.
Proof.
  intros Ha Hx Hxy Nx Ny.
  destruct (leb_0_inv a Ha) as [[av [-> Hav]]| ->];
    destruct (leb_0_inv x Hx) as [[xv [-> Hxv]]| ->].
  - destruct y as [yv|[|]|]; simpl in Hxy; try discriminate.
    + apply leb_finite in Hxy. simpl. split.
      * apply rnd_monotone. now apply Rmult_le_compat_l.
      * apply rnd_nonneg. now apply Rmult_le_pos.
    + simpl in *. destruct (Req_dec_T av 0); [congruence|].
      rewrite negative_nonneg by exact Hav. simpl. split.
      * pose proof (rnd_not_nan (av * xv)).
        destruct (PyFloat.rnd (av * xv)) as [?|[|]|]; try reflexivity.
        congruence.
      * apply rnd_nonneg. now apply Rmult_le_pos.
  - destruct y as [yv|[|]|]; simpl in Hxy; try discriminate.
    simpl in *. destruct (Req_dec_T av 0); [congruence|].
    rewrite negative_nonneg by exact Hav. simpl. now split.
  - destruct y as [yv|[|]|]; simpl in Hxy; try discriminate.
    + apply leb_finite in Hxy. simpl in *.
      destruct (Req_dec_T xv 0); [congruence|].
      destruct (Req_dec_T yv 0); [congruence|].
      rewrite !negative_nonneg by lra. simpl. now split.
    + simpl in *. destruct (Req_dec_T xv 0); [congruence|].
      rewrite negative_nonneg by lra. simpl. now split.
  - destruct y as [yv|[|]|]; simpl in Hxy; try discriminate.
    simpl. now split.
Qed.

Lemma mul_comm (a b : pyfloat) : PyFloat.mul a b = PyFloat.mul b a.
Proof.
  destruct a as [x|s|], b as [y|s'|]; simpl; try reflexivity.
  - now rewrite Rmult_comm.
  - now rewrite xorb_comm.
Qed.

Lemma add_monotone (x y u v : pyfloat) :
  PyFloat.leb x y = true -> PyFloat.leb u v = true ->
  PyFloat.add x u <> NaN -> PyFloat.add y v <> NaN ->
  PyFloat.leb (PyFloat.add x u) (PyFloat.add y v) = true.
Proof.
  intros Hxy Huv N1 N2.
  destruct x as [x|[|]|], y as [y|[|]|]; simpl in Hxy; try discriminate;
    destruct u as [u|[|]|], v as [v|[|]|]; simpl in Huv; try discriminate;
    simpl in *; try congruence; try reflexivity.
  all: try (apply leb_finite in Hxy).
  all: try (apply leb_finite in Huv).
  all: leb_rnd.
Qed.

Lemma math_sqrt_monotone (x y r s : pyfloat) :
  PyFloat.leb x y = true ->
  PyFloat.math_sqrt x = Ok r -> PyFloat.math_sqrt y = Ok s ->
  PyFloat.leb r s = true /\ PyFloat.leb (Finite 0) r = true.
Proof.
  intros Hxy Hr Hs.
  destruct x as [x|[|]|], y as [y|[|]|]; simpl in Hxy; try discriminate;
    simpl in Hr, Hs; try discriminate.
  - apply leb_finite in Hxy.
    destruct (Rlt_dec x 0); [discriminate|].
    destruct (Rlt_dec y 0); [discriminate|].
    injection Hr as <-. injection Hs as <-. split.
    + apply rnd_monotone. apply sqrt_le_1_alt. exact Hxy.
    + apply rnd_nonneg. apply sqrt_pos.
  - destruct (Rlt_dec x 0); [discriminate|].
    injection Hr as <-. injection Hs as <-. split.
    + pose proof (rnd_not_nan (sqrt x)).
      destruct (PyFloat.rnd (sqrt x)) as [?|[|]|]; try reflexivity. congruence.
    + apply rnd_nonneg. apply sqrt_pos.
  - injection Hr as <-. injection Hs as <-. now split.
Qed.

Lemma round_monotone (x y r s : pyfloat) (n : nat) :
  PyFloat.leb x y = true ->
  PyFloat.round x n = Ok r -> PyFloat.round y n = Ok s ->
  PyFloat.leb r s = true.
Proof.
  intros Hxy Hr Hs.
  assert (Hp : 0 < 10 ^ n) by (apply pow_lt; lra).
  assert (Hstep : forall a b, a <= b ->
            PyFloat.leb
              (PyFloat.rnd (IZR (round_half_even (a * 10 ^ n)) / 10 ^ n))
              (PyFloat.rnd (IZR (round_half_even (b * 10 ^ n)) / 10 ^ n))
            = true).
  { intros a b Hab. apply rnd_monotone.
    apply Rmult_le_compat_r; [left; now apply Rinv_0_lt_compat|].
    apply IZR_le, round_half_even_monotone.
    apply Rmult_le_compat_r; lra. }
  destruct x as [x|[|]|], y as [y|[|]|]; simpl in Hxy; try discriminate;
    simpl in Hr, Hs.
  1:{ apply leb_finite in Hxy. specialize (Hstep x y Hxy).
      destruct (PyFloat.rnd (IZR (round_half_even (x * 10 ^ n)) / 10 ^ n))
        as [?|?|]; try discriminate;
      destruct (PyFloat.rnd (IZR (round_half_even (y * 10 ^ n)) / 10 ^ n))
        as [?|?|]; try discriminate;
      injection Hr as <-; injection Hs as <-; exact Hstep. }
  all: repeat match goal with
         | H : match PyFloat.rnd ?a with _ => _ end = Ok _ |- _ =>
             pose proof (rnd_not_nan a);
             destruct (PyFloat.rnd a) as [?|[|]|];
             try discriminate H; try congruence; injection H as <-
         | H : Ok _ = Ok _ |- _ => injection H as <-
         end; reflexivity.
Qed.

Lemma round_not_nan (x r : pyfloat) (n : nat) :
  PyFloat.round x n = Ok r -> r <> NaN -> x <> NaN.
Proof. intros H Hr ->. simpl in H. congruence. Qed.

Lemma of_int_monotone (m n : Z) (a b : pyfloat) :
  (0 <= m <= n)%Z ->
  PyFloat.of_int m = Ok a -> PyFloat.of_int n = Ok b ->
  PyFloat.leb a b = true /\ PyFloat.leb (Finite 0) a = true.
Proof.
  intros Hmn Ha Hb. unfold PyFloat.of_int in *.
  pose proof (rnd_monotone (IZR m) (IZR n) ltac:(apply IZR_le; lia)) as Hle.
  pose proof (rnd_nonneg (IZR m) ltac:(apply IZR_le; lia)) as H0.
  destruct (PyFloat.rnd (IZR m)) as [?|?|]; try discriminate;
    destruct (PyFloat.rnd (IZR n)) as [?|?|]; try discriminate;
    injection Ha as <-; injection Hb as <-; now split.
Qed.

End FloatOrder.

(** ** The accounting bound and the number of rounds *)

Section PrivacySpent.
Local Open Scope R_scope.

Lemma bind_ok {A B : Type} (r : result A) (k : A -> result B) (b : B) :
  bind r k = Ok b -> exists a, r = Ok a /\ k a = Ok b.
Proof. destruct r as [a|e]; simpl; [eauto | discriminate]. Qed.

(** The first summand of the bound, [sqrt(2.0 * T * l)], as a function of
    the float [T >= 0]: where it is defined and no NaN, it keeps the
    order. *)
Lemma sqrt_term_monotone (t1 t2 l s1 s2 : pyfloat) :
  PyFloat.leb (Finite 0) t1 = true -> PyFloat.leb t1 t2 = true ->
  PyFloat.math_sqrt (PyFloat.mul (PyFloat.mul (Finite 2.0) t1) l) = Ok s1 ->
  PyFloat.math_sqrt (PyFloat.mul (PyFloat.mul (Finite 2.0) t2) l) = Ok s2 ->
  s1 <> NaN -> s2 <> NaN ->
  PyFloat.leb s1 s2 = true /\ PyFloat.leb (Finite 0) s1 = true.
Proof.
  intros H0 H12 Hs1 Hs2 N1 N2.
  assert (Hw1 : PyFloat.mul (PyFloat.mul (Finite 2.0) t1) l <> NaN).
  { intros E. rewrite E in Hs1. simpl in Hs1. congruence. }
  assert (Hw2 : PyFloat.mul (PyFloat.mul (Finite 2.0) t2) l <> NaN).
  { intros E. rewrite E in Hs2. simpl in Hs2. congruence. }
  destruct (mul_not_nan _ _ Hw1) as [Hu1 Hl].
  destruct (mul_not_nan _ _ Hw2) as [Hu2 _].
  destruct (mul_monotone (Finite 2.0) t1 t2) as [Hu Hu0]; try assumption.
  { apply leb_finite. lra. }
  set (u1 := PyFloat.mul (Finite 2.0) t1) in *.
  set (u2 := PyFloat.mul (Finite 2.0) t2) in *.
  assert (Hu20 : PyFloat.leb (Finite 0) u2 = true).
  { destruct (leb_0_inv u1 Hu0) as [[a [E Ha]]|E]; rewrite E in Hu;
      destruct u2 as [b|[|]|]; simpl in Hu; try discriminate; try reflexivity.
    apply leb_finite in Hu. apply leb_finite. lra. }
  destruct l as [lv|[|]|]; [| | |congruence].
  - destruct (Rle_dec 0 lv) as [Hlv|Hlv].
    + rewrite (mul_comm u1), (mul_comm u2) in *.
      destruct (mul_monotone (Finite lv) u1 u2) as [Hw _]; try assumption.
      { now apply leb_finite. }
      eapply math_sqrt_monotone; eassumption.
    + assert (Hz : forall u s, PyFloat.leb (Finite 0) u = true ->
                PyFloat.math_sqrt (PyFloat.mul u (Finite lv)) = Ok s ->
                s = Finite 0).
      { intros u s Hu' Hs.
        destruct (leb_0_inv u Hu') as [[a [-> Ha]]| ->]; simpl in Hs.
        - pose proof (rnd_nonpos (a * lv) ltac:(nra)) as Hneg.
          destruct (PyFloat.rnd (a * lv)) as [w|[|]|]; simpl in Hs, Hneg;
            try discriminate.
          apply leb_finite in Hneg.
          destruct (Rlt_dec w 0); [discriminate|].
          assert (w = 0) by lra. subst w.
          rewrite sqrt_0, rnd_0 in Hs. congruence.
        - destruct (Req_dec_T lv 0); [lra|].
          unfold PyFloat.negative in Hs.
          destruct (Rlt_dec lv 0); [|lra]. simpl in Hs. discriminate. }
      rewrite (Hz u1 s1 Hu0 Hs1), (Hz u2 s2 Hu20 Hs2).
      split; apply leb_finite; lra.
  - exfalso.
    destruct (leb_0_inv u1 Hu0) as [[a [E Ha]]|E]; rewrite E in Hs1;
      simpl in Hs1.
    + destruct (Req_dec_T a 0); simpl in Hs1; [congruence|].
      rewrite negative_nonneg in Hs1 by exact Ha. simpl in Hs1. discriminate.
    + discriminate.
  - assert (Hinf : forall u s, PyFloat.leb (Finite 0) u = true ->
                PyFloat.math_sqrt (PyFloat.mul u (Infinity false)) = Ok s ->
                s <> NaN -> s = Infinity false).
    { intros u s Hu' Hs Hn.
      destruct (leb_0_inv u Hu') as [[a [-> Ha]]| ->]; simpl in Hs.
      - destruct (Req_dec_T a 0); simpl in Hs; [congruence|].
        rewrite negative_nonneg in Hs by exact Ha. simpl in Hs. congruence.
      - congruence. }
    rewrite (Hinf u1 s1 Hu0 Hs1 N1), (Hinf u2 s2 Hu20 Hs2 N2). now split.
Qed.

(** C6 (as amended): in binary64, wherever [get_privacy_spent] returns for
    two numbers of rounds [0 <= T1 <= T2] and neither [epsilon_total] is
    NaN, the [epsilon_total] of [T1] is at most that of [T2].  It holds
    for every [epsilon] that is not negative and every [delta], on the one
    assumption about the C library that [math.exp(epsilon) >= 1]. *)
Theorem epsilon_total_nondecreasing (c_exp c_log : R -> pyfloat)
    (d : DPNoise64.t) (T1 T2 : Z) (r1 r2 : DPNoise64.privacy_spent) :
  (0 <= T1 <= T2)%Z ->
  PyFloat.leb (Finite 0) (DPNoise64.epsilon d) = true ->
  (forall e, PyFloat.math_exp c_exp (DPNoise64.epsilon d) = Ok e ->
             PyFloat.leb (Finite 1) e = true) ->
  DPNoise64.get_privacy_spent c_exp c_log d T1 = Ok r1 ->
  DPNoise64.get_privacy_spent c_exp c_log d T2 = Ok r2 ->
  DPNoise64.epsilon_total r1 <> NaN ->
  DPNoise64.epsilon_total r2 <> NaN ->
  PyFloat.leb (DPNoise64.epsilon_total r1) (DPNoise64.epsilon_total r2)
  = true.
Proof.
  intros HT Heps Hexp H1 H2 N1 N2.
  unfold DPNoise64.get_privacy_spent in H1, H2.
  apply bind_ok in H1. destruct H1 as (t1 & Ht1 & H1).
  apply bind_ok in H1. destruct H1 as (q & Hq & H1).
  apply bind_ok in H1. destruct H1 as (l & Hl & H1).
  apply bind_ok in H1. destruct H1 as (s1 & Hs1 & H1).
  apply bind_ok in H1. destruct H1 as (e & He & H1).
  apply bind_ok in H1. destruct H1 as (a1 & Ha1 & H1).
  apply bind_ok in H1. destruct H1 as (b1 & _ & H1).
  apply bind_ok in H1. destruct H1 as (c1 & _ & H1).
  injection H1 as <-.
  apply bind_ok in H2. destruct H2 as (t2 & Ht2 & H2).
  rewrite Hq in H2. cbn [bind] in H2. rewrite Hl in H2. cbn [bind] in H2.
  apply bind_ok in H2. destruct H2 as (s2 & Hs2 & H2).
  rewrite He in H2. cbn [bind] in H2.
  apply bind_ok in H2. destruct H2 as (a2 & Ha2 & H2).
  apply bind_ok in H2. destruct H2 as (b2 & _ & H2).
  apply bind_ok in H2. destruct H2 as (c2 & _ & H2).
  injection H2 as <-.
  cbn [DPNoise64.epsilon_total] in *.
  set (eps := DPNoise64.epsilon d) in *.
  set (E := PyFloat.sub e (Finite 1.0)) in *.
  destruct (of_int_monotone T1 T2 t1 t2 HT Ht1 Ht2) as [Ht Ht0].
  pose proof (round_not_nan _ _ _ Ha1 N1) as Nt1.
  pose proof (round_not_nan _ _ _ Ha2 N2) as Nt2.
  destruct (add_not_nan _ _ Nt1) as [NA1 NB1].
  destruct (add_not_nan _ _ Nt2) as [NA2 NB2].
  destruct (mul_not_nan _ _ NA1) as [_ Ns1].
  destruct (mul_not_nan _ _ NA2) as [_ Ns2].
  destruct (mul_not_nan _ _ NB1) as [Nv1 NE].
  destruct (mul_not_nan _ _ NB2) as [Nv2 _].
  destruct (sqrt_term_monotone t1 t2 l s1 s2 Ht0 Ht Hs1 Hs2 Ns1 Ns2)
    as [Hs Hs0].
  destruct (mul_monotone eps s1 s2 Heps Hs0 Hs NA1 NA2) as [HA _].
  rewrite (mul_comm t1 eps), (mul_comm t2 eps) in *.
  destruct (mul_monotone eps t1 t2 Heps Ht0 Ht Nv1 Nv2) as [Hv Hv0].
  assert (HE : PyFloat.leb (Finite 0) E = true).
  { specialize (Hexp e He). unfold E, PyFloat.sub.
    destruct e as [ev|[|]|]; simpl in Hexp; try discriminate.
    - apply leb_finite in Hexp. simpl. apply rnd_nonneg. lra.
    - reflexivity. }
  rewrite (mul_comm (PyFloat.mul eps t1) E),
          (mul_comm (PyFloat.mul eps t2) E) in *.
  destruct (mul_monotone E _ _ HE Hv0 Hv NB1 NB2) as [HB _].
  eapply round_monotone; [|exact Ha1 | exact Ha2].
  now apply add_monotone.
Qed.

End PrivacySpent.

(** ** Numbers that are floats *)

Section FloatValues.
Local Open Scope R_scope.

Lemma rnd_exact (m e : Z) :
  (0 < m < 2 ^ 53)%Z -> (-1074 <= e)%Z ->
  IZR m * powerRZ 2 e < powerRZ 2 1024 ->
  PyFloat.rnd (IZR m * powerRZ 2 e) = Finite (IZR m * powerRZ 2 e).
Proof.
  intros Hm He Hlt. unfold PyFloat.rnd.
  assert (Hx : 0 < IZR m * powerRZ 2 e).
  { apply Rmult_lt_0_compat; [apply IZR_lt; lia | apply pow2_pos]. }
  destruct (Rlt_dec 0 (IZR m * powerRZ 2 e)); [|contradiction].
  rewrite round_pos_exact by assumption.
  destruct (Rle_dec (powerRZ 2 1024) (IZR m * powerRZ 2 e)); [lra|reflexivity].
Qed.

Lemma rnd_int (n : Z) :
  (0 <= n < 2 ^ 53)%Z -> PyFloat.rnd (IZR n) = Finite (IZR n).
Proof.
  intros Hn. destruct (Z.eq_dec n 0) as [->|Hne]; [apply rnd_0|].
  pose proof (rnd_exact n 0 ltac:(lia) ltac:(lia)) as H.
  change (powerRZ 2 0) with 1 in H. rewrite Rmult_1_r in H. apply H.
  rewrite (pow2_IZR 1024) by lia. apply IZR_lt.
  apply Z.lt_trans with (2 ^ 53)%Z; [lia | now apply Z.pow_lt_mono_r].
Qed.

Lemma rnd_half : PyFloat.rnd (1 / 2) = Finite (1 / 2).
Proof.
  pose proof (rnd_exact 1 (-1) ltac:(lia) ltac:(lia)) as H.
  replace (IZR 1 * powerRZ 2 (-1)) with (1 / 2) in H by (simpl; lra).
  apply H. rewrite (pow2_IZR 1024) by lia.
  apply Rlt_le_trans with 1; [lra|]. apply IZR_le.
  change 1%Z with (2 ^ 0)%Z. apply Z.pow_le_mono_r; lia.
Qed.

(** From [2^1024] on, the rounding is the positive infinity. *)
Lemma rnd_overflow (x : R) :
  powerRZ 2 1024 <= x -> PyFloat.rnd x = Infinity false.
Proof.
  intros Hx. pose proof (pow2_pos 1024) as Hp. unfold PyFloat.rnd.
  destruct (Rlt_dec 0 x); [|lra].
  pose proof (round_pos_monotone (powerRZ 2 1024) x Hp Hx) as Hm.
  rewrite round_pos_pow2 in Hm by lia.
  destruct (Rle_dec (powerRZ 2 1024) (PyFloat.round_pos x));
    [reflexivity | lra].
Qed.

End FloatValues.

(** ** Operations on small integers are exact *)

Section FloatArithmetic.
Local Open Scope R_scope.

Lemma mul_int (a b : Z) :
  (0 <= a * b < 2 ^ 53)%Z ->
  PyFloat.mul (Finite (IZR a)) (Finite (IZR b)) = Finite (IZR (a * b)).
Proof. intros H. simpl. rewrite <- mult_IZR. now apply rnd_int. Qed.

Lemma add_int (a b : Z) :
  (0 <= a + b < 2 ^ 53)%Z ->
  PyFloat.add (Finite (IZR a)) (Finite (IZR b)) = Finite (IZR (a + b)).
Proof. intros H. simpl. rewrite <- plus_IZR. now apply rnd_int. Qed.

Lemma round_int (n : Z) (nd : nat) :
  (0 <= n < 2 ^ 53)%Z ->
  PyFloat.round (Finite (IZR n)) nd = Ok (Finite (IZR n)).
Proof.
  intros H. unfold PyFloat.round.
  assert (Hp : 0 < 10 ^ nd) by (apply pow_lt; lra).
  assert (E : IZR n * 10 ^ nd = IZR (n * 10 ^ Z.of_nat nd)).
  { rewrite mult_IZR. f_equal. now rewrite <- pow_IZR. }
  rewrite E, round_half_even_int, <- E.
  replace (IZR n * 10 ^ nd / 10 ^ nd) with (IZR n) by (field; lra).
  now rewrite rnd_int.
Qed.

Lemma round_half (nd : nat) :
  (1 <= nd)%nat -> PyFloat.round (Finite (1 / 2)) nd = Ok (Finite (1 / 2)).
Proof.
  intros H. unfold PyFloat.round.
  assert (Hp : 0 < 10 ^ nd) by (apply pow_lt; lra).
  destruct nd as [|nd]; [lia|].
  assert (E : 1 / 2 * 10 ^ S nd = IZR (5 * 10 ^ Z.of_nat nd)).
  { rewrite mult_IZR, <- pow_IZR. simpl. lra. }
  rewrite E, round_half_even_int, <- E.
  replace (1 / 2 * 10 ^ S nd / 10 ^ S nd) with (1 / 2) by (field; lra).
  now rewrite rnd_half.
Qed.

Lemma sub_int (a b : Z) :
  (0 <= a - b < 2 ^ 53)%Z ->
  PyFloat.sub (Finite (IZR a)) (Finite (IZR b)) = Finite (IZR (a - b)).
Proof.
  intros H. unfold PyFloat.sub. simpl.
  replace (IZR a + - IZR b) with (IZR (a - b)) by (rewrite minus_IZR; ring).
  now apply rnd_int.
Qed.

Lemma sqrt_int (k : Z) :
  (0 <= k < 2 ^ 26)%Z ->
  PyFloat.math_sqrt (Finite (IZR (k * k))) = Ok (Finite (IZR k)).
Proof.
  intros H. unfold PyFloat.math_sqrt.
  assert (Hk : 0 <= IZR k) by (apply IZR_le; lia).
  destruct (Rlt_dec (IZR (k * k)) 0) as [Hlt|_].
  { rewrite mult_IZR in Hlt. nra. }
  rewrite mult_IZR, sqrt_square by exact Hk.
  rewrite rnd_int; [reflexivity|].
  split; [lia|]. apply Z.lt_trans with (2 ^ 26)%Z; [lia | reflexivity].
Qed.

End FloatArithmetic.

(** ** A correctly rounded C library *)

Section RoundedLibm.
Local Open Scope R_scope.

(** A number between 0 and an integer below [2^53] rounds to a finite
    float in the same range. *)
Lemma rnd_bounded (x : R) (n : Z) :
  (0 <= n < 2 ^ 53)%Z -> 0 <= x <= IZR n ->
  exists v, PyFloat.rnd x = Finite v /\ 0 <= v <= IZR n.
Proof.
  intros Hn [H0 Hx].
  pose proof (rnd_monotone 0 x H0) as Hlo.
  pose proof (rnd_monotone x (IZR n) Hx) as Hhi.
  rewrite rnd_0 in Hlo. rewrite rnd_int in Hhi by exact Hn.
  destruct (PyFloat.rnd x) as [v|[|]|]; simpl in Hlo, Hhi;
    try discriminate.
  apply leb_finite in Hlo. apply leb_finite in Hhi.
  exists v. split; [reflexivity | lra].
Qed.

(** A finite float is below [2^1024]. *)
Lemma rnd_finite_lt (x v : R) :
  PyFloat.rnd x = Finite v -> v < powerRZ 2 1024.
Proof.
  pose proof (pow2_pos 1024) as Hp.
  unfold PyFloat.rnd. intros H.
  destruct (Rlt_dec 0 x) as [Hx|_].
  - destruct (Rle_dec (powerRZ 2 1024) (PyFloat.round_pos x)) as [|Hlt];
      [discriminate|].
    injection H as <-. lra.
  - destruct (Rlt_dec x 0) as [Hx|_].
    + destruct (Rle_dec (powerRZ 2 1024) (PyFloat.round_pos (- x)));
        [discriminate|].
      injection H as <-.
      pose proof (round_pos_nonneg (- x) ltac:(lra)). lra.
    + injection H as <-. exact Hp.
Qed.

Lemma ln_2_le_1 : ln 2 <= 1.
Proof.
  pose proof (exp_ineq1 1 ltac:(lra)) as H.
  assert (H2 : ln 2 < ln (exp 1)) by (apply ln_increasing; lra).
  rewrite ln_exp in H2. lra.
Qed.

(** On the floats from 1 on, the logarithm of the correctly rounded
    library is finite and not negative. *)
Lemma rounded_log_range (x : R) :
  1 <= x < powerRZ 2 1024 ->
  exists y, rounded_log x = Finite y /\ 0 <= y.
Proof.
  intros [H1 Hx]. unfold rounded_log.
  assert (Hl0 : 0 <= ln x).
  { rewrite <- ln_1. destruct H1 as [H1|<-]; [|lra].
    left. apply ln_increasing; lra. }
  assert (Hl : ln x <= IZR 1024).
  { rewrite pow2_exp in Hx.
    assert (H : ln x < ln (exp (IZR 1024 * ln 2)))
      by (apply ln_increasing; lra).
    rewrite ln_exp in H. pose proof ln_2_le_1. pose proof ln_2_pos. nra. }
  destruct (rnd_bounded (ln x) 1024 ltac:(lia) (conj Hl0 Hl)) as [v [-> Hv]].
  exists v. split; [reflexivity | lra].
Qed.

(** Its exponential is at least 1 from 0 on. *)
Lemma rounded_exp_ge_1 (x : R) :
  0 <= x -> PyFloat.leb (Finite 1) (rounded_exp x) = true.
Proof.
  intros Hx. unfold rounded_exp.
  assert (H : 1 <= exp x).
  { rewrite <- exp_0. destruct Hx as [Hx|<-]; [|lra].
    left. now apply exp_increasing. }
  pose proof (rnd_monotone 1 (exp x) H) as Hm.
  now rewrite (rnd_int 1) in Hm by lia.
Qed.

Lemma rounded_exp_1 :
  exists e, rounded_exp 1 = Finite e /\ 1 <= e <= 3.
Proof.
  unfold rounded_exp.
  pose proof (rounded_exp_ge_1 1 ltac:(lra)) as H1. unfold rounded_exp in H1.
  assert (H3 : 0 <= exp 1 <= IZR 3).
  { split; [left; apply exp_pos | exact exp_le_3]. }
  destruct (rnd_bounded (exp 1) 3 ltac:(lia) H3) as [e [E He]].
  rewrite E in *. apply leb_finite in H1. exists e.
  split; [reflexivity | lra].
Qed.

Lemma rounded_log_2 :
  exists l, rounded_log 2 = Finite l /\ 0 <= l <= 1.
Proof.
  unfold rounded_log.
  assert (H : 0 <= ln 2 <= IZR 1).
  { split; [left; exact ln_2_pos | exact ln_2_le_1]. }
  destruct (rnd_bounded (ln 2) 1 ltac:(lia) H) as [l [-> Hl]].
  exists l. split; [reflexivity | exact Hl].
Qed.

(** [exp(1024)] overflows. *)
Lemma rounded_exp_1024 : rounded_exp 1024 = Infinity false.
Proof.
  unfold rounded_exp. apply rnd_overflow.
  rewrite pow2_exp.
  pose proof ln_2_le_1. pose proof ln_2_pos.
  assert (H1 : IZR 1024 * ln 2 <= 1024) by nra.
  destruct H1 as [Hlt|E]; [left; now apply exp_increasing | rewrite E; lra].
Qed.

End RoundedLibm.

(** ** Runs of [get_privacy_spent] *)

Section PrivacySpentRuns.
Local Open Scope R_scope.

Lemma mul_bounded (x y : R) (n : Z) :
  (0 <= n < 2 ^ 53)%Z -> 0 <= x * y <= IZR n ->
  exists v, PyFloat.mul (Finite x) (Finite y) = Finite v /\ 0 <= v <= IZR n.
Proof. intros Hn H. simpl. now apply rnd_bounded. Qed.

Lemma add_bounded (x y : R) (n : Z) :
  (0 <= n < 2 ^ 53)%Z -> 0 <= x + y <= IZR n ->
  exists v, PyFloat.add (Finite x) (Finite y) = Finite v /\ 0 <= v <= IZR n.
Proof. intros Hn H. simpl. now apply rnd_bounded. Qed.

Lemma sub_bounded (x y : R) (n : Z) :
  (0 <= n < 2 ^ 53)%Z -> 0 <= x - y <= IZR n ->
  exists v, PyFloat.sub (Finite x) (Finite y) = Finite v /\ 0 <= v <= IZR n.
Proof.
  intros Hn H. unfold PyFloat.sub. simpl. apply rnd_bounded; [exact Hn|].
  lra.
Qed.

Lemma sqrt_bounded (x : R) (n : Z) :
  (0 <= n < 2 ^ 26)%Z -> 0 <= x <= IZR (n * n) ->
  exists v, PyFloat.math_sqrt (Finite x) = Ok (Finite v) /\ 0 <= v <= IZR n.
Proof.
  intros Hn [H0 Hx]. unfold PyFloat.math_sqrt.
  destruct (Rlt_dec x 0); [lra|].
  assert (Hs : 0 <= sqrt x <= IZR n).
  { split; [apply sqrt_pos|].
    assert (Hk : 0 <= IZR n) by (apply IZR_le; lia).
    rewrite <- (sqrt_square (IZR n)) by exact Hk.
    apply sqrt_le_1_alt. now rewrite <- mult_IZR. }
  destruct (rnd_bounded (sqrt x) n) as [v [-> Hv]]; [|exact Hs|].
  { split; [lia|]. apply Z.lt_trans with (2 ^ 26)%Z; [lia | reflexivity]. }
  exists v. split; [reflexivity | exact Hv].
Qed.

Lemma round_bounded (x : R) (n : Z) (nd : nat) :
  (0 <= n < 2 ^ 53)%Z -> 0 <= x <= IZR n ->
  exists v, PyFloat.round (Finite x) nd = Ok (Finite v) /\ 0 <= v <= IZR n.
Proof.
  intros Hn [H0 Hx]. unfold PyFloat.round.
  assert (Hp : 0 < 10 ^ nd) by (apply pow_lt; lra).
  assert (E : IZR n * 10 ^ nd = IZR (n * 10 ^ Z.of_nat nd)).
  { rewrite mult_IZR. f_equal. now rewrite <- pow_IZR. }
  pose proof (round_half_even_monotone 0 (x * 10 ^ nd) ltac:(nra)) as Hlo.
  pose proof (round_half_even_monotone (x * 10 ^ nd) (IZR n * 10 ^ nd)
                ltac:(nra)) as Hhi.
  rewrite (round_half_even_int 0) in Hlo.
  rewrite E, round_half_even_int in Hhi.
  apply IZR_le in Hlo, Hhi. rewrite <- E in Hhi.
  set (k := IZR (round_half_even (x * 10 ^ nd))) in *.
  assert (Hq : 0 <= k / 10 ^ nd <= IZR n).
  { split.
    - apply Rmult_le_pos; [exact Hlo | left; now apply Rinv_0_lt_compat].
    - apply Rmult_le_reg_r with (10 ^ nd); [exact Hp|].
      unfold Rdiv. rewrite Rmult_assoc, Rinv_l by lra. lra. }
  destruct (rnd_bounded (k / 10 ^ nd) n Hn Hq) as [v [-> Hv]].
  exists v. split; [reflexivity | exact Hv].
Qed.

Lemma mul_0_l (x : R) : PyFloat.mul (Finite 0) (Finite x) = Finite 0.
Proof. simpl. rewrite Rmult_0_l. apply rnd_0. Qed.

Lemma mul_0_r (x : R) : PyFloat.mul (Finite x) (Finite 0) = Finite 0.
Proof. simpl. rewrite Rmult_0_r. apply rnd_0. Qed.

Lemma truediv_1_half :
  PyFloat.truediv (Finite 1.0) (Finite (1 / 2)) = Ok (Finite 2).
Proof.
  unfold PyFloat.truediv. destruct (Req_dec_T (1 / 2) 0); [lra|].
  replace (1.0 / (1 / 2)) with (IZR 2) by lra. now rewrite rnd_int by lia.
Qed.

(** [delta_total] and [sigma] of the mechanisms with [delta = 0.5]. *)
Lemma delta_total_half (T : Z) :
  (0 <= T <= 1)%Z ->
  PyFloat.add (PyFloat.mul (Finite (IZR T)) (Finite (1 / 2))) (Finite (1 / 2))
  = Finite (IZR (1 + T) / 2).
Proof.
  intros HT. assert (E : T = 0%Z \/ T = 1%Z) by lia.
  destruct E as [-> | ->]; cbn [PyFloat.mul PyFloat.add].
  - replace (0 * (1 / 2)) with 0 by lra. rewrite rnd_0. cbn [PyFloat.add].
    replace (0 + 1 / 2) with (1 / 2) by lra. rewrite rnd_half.
    f_equal; simpl; lra.
  - replace (1 * (1 / 2)) with (1 / 2) by lra. rewrite rnd_half.
    cbn [PyFloat.add].
    replace (1 / 2 + 1 / 2) with (IZR 1) by lra. rewrite rnd_int by lia.
    f_equal; simpl; lra.
Qed.

Lemma half_delta_zero_rounds :
  DPNoise64.get_privacy_spent rounded_exp rounded_log half_delta 0
  = Ok (DPNoise64.mkSpent (Finite 0) (Finite (1 / 2)) 0 (Finite 1)).
Proof.
  unfold DPNoise64.get_privacy_spent, half_delta.
  cbn [DPNoise64.epsilon DPNoise64.delta DPNoise64.sigma].
  unfold PyFloat.of_int. rewrite (rnd_int 0) by lia. cbn [bind].
  rewrite truediv_1_half. cbn [bind]. unfold PyFloat.math_log.
  destruct (Rlt_dec 0 2); [|lra].
  destruct rounded_log_2 as [l [-> Hl]]. cbn [bind].
  rewrite mul_0_r, mul_0_l.
  rewrite (sqrt_int 0 ltac:(lia) : PyFloat.math_sqrt (Finite 0) = _).
  cbn [bind PyFloat.math_exp].
  destruct rounded_exp_1 as [e [-> He]]. cbn [bind].
  rewrite mul_0_r, mul_0_l.
  destruct (sub_bounded e 1.0 2 ltac:(lia) ltac:(simpl; lra)) as [E [-> HE]].
  rewrite mul_0_l, (add_int 0 0) by lia. cbn [Z.add].
  rewrite (round_int 0) by lia. cbn [bind].
  rewrite (delta_total_half 0) by lia.
  replace (IZR (1 + 0) / 2) with (1 / 2) by (simpl; lra).
  rewrite round_half by lia. cbn [bind].
  rewrite (round_int 1) by lia. reflexivity.
Qed.

Lemma half_delta_one_round :
  exists v,
    DPNoise64.get_privacy_spent rounded_exp rounded_log half_delta 1
    = Ok (DPNoise64.mkSpent (Finite v) (Finite 1) 1 (Finite 1)) /\
    0 <= v <= 4.
Proof.
  unfold DPNoise64.get_privacy_spent, half_delta.
  cbn [DPNoise64.epsilon DPNoise64.delta DPNoise64.sigma].
  unfold PyFloat.of_int. rewrite (rnd_int 1) by lia. cbn [bind].
  rewrite truediv_1_half. cbn [bind]. unfold PyFloat.math_log.
  destruct (Rlt_dec 0 2); [|lra].
  destruct rounded_log_2 as [l [-> Hl]]. cbn [bind].
  replace (Finite 2.0) with (Finite (IZR 2)) by (f_equal; lra).
  rewrite (mul_int 2 1) by lia. cbn [Z.mul Pos.mul].
  destruct (mul_bounded 2 l 4 ltac:(lia) ltac:(simpl; lra)) as [w [-> Hw]].
  destruct (sqrt_bounded w 2 ltac:(lia) Hw) as [s [-> Hs]].
  cbn [bind PyFloat.math_exp].
  destruct rounded_exp_1 as [e [-> He]]. cbn [bind].
  destruct (mul_bounded 1 s 2 ltac:(lia) ltac:(simpl in *; lra))
    as [a [-> Ha]].
  rewrite (mul_int 1 1) by lia. cbn [Z.mul Pos.mul].
  destruct (sub_bounded e 1.0 2 ltac:(lia) ltac:(simpl; lra)) as [E [-> HE]].
  destruct (mul_bounded 1 E 2 ltac:(lia) ltac:(simpl in *; lra))
    as [b [-> Hb]].
  destruct (add_bounded a b 4 ltac:(lia) ltac:(simpl in *; lra))
    as [c [-> Hc]].
  destruct (round_bounded c 4 6 ltac:(lia) Hc) as [v [-> Hv]]. cbn [bind].
  rewrite (delta_total_half 1) by lia.
  replace (IZR (1 + 1) / 2) with (IZR 1) by (simpl; lra).
  rewrite !(round_int 1) by lia. cbn [bind].
  exists v. split; [reflexivity | simpl in Hv; lra].
Qed.

Lemma epsilon_total_nondecreasing_witness :
  exists r1 r2,
    DPNoise64.get_privacy_spent rounded_exp rounded_log half_delta 0 = Ok r1 /\
    DPNoise64.get_privacy_spent rounded_exp rounded_log half_delta 1 = Ok r2 /\
    DPNoise64.epsilon_total r1 = Finite 0 /\
    PyFloat.leb (DPNoise64.epsilon_total r1) (DPNoise64.epsilon_total r2)
    = true.
Proof.
  destruct half_delta_one_round as [v [H1 Hv]].
  exists (DPNoise64.mkSpent (Finite 0) (Finite (1 / 2)) 0 (Finite 1)),
         (DPNoise64.mkSpent (Finite v) (Finite 1) 1 (Finite 1)).
  split; [exact half_delta_zero_rounds|].
  split; [exact H1|].
  split; [reflexivity|].
  apply (epsilon_total_nondecreasing rounded_exp rounded_log half_delta 0 1).
  - lia.
  - apply leb_finite. lra.
  - intros e H. cbn [half_delta DPNoise64.epsilon PyFloat.math_exp] in H.
    pose proof (rounded_exp_ge_1 1 ltac:(lra)) as Hge.
    destruct (rounded_exp 1) as [x|s|]; try discriminate.
    now injection H as <-.
  - exact half_delta_zero_rounds.
  - exact H1.
  - discriminate.
  - discriminate.
Defined.

(** C6 (as stated) fails in binary64.  With [epsilon = 1] and the
    subnormal [delta = 2^-1030], which lies between 0 and 1, [1.0 / delta]
    overflows to the infinity, whose logarithm is the infinity; at [T = 0]
    the square root is taken of [0.0 * inf], which is NaN.  So whatever
    the C library computes, [get_privacy_spent(0)] reports an
    [epsilon_total] that is NaN whenever it returns, and NaN is not at
    most the value of any other [T]; with the correctly rounded library
    it does return. *)
Lemma epsilon_total_nan_for_tiny_delta :
  0 < powerRZ 2 (-1030) < 1 /\
  (forall c_exp c_log r0,
      DPNoise64.get_privacy_spent c_exp c_log tiny_delta 0 = Ok r0 ->
      DPNoise64.epsilon_total r0 = NaN /\
      forall r1, PyFloat.leb (DPNoise64.epsilon_total r0)
                             (DPNoise64.epsilon_total r1) = false) /\
  exists r0,
    DPNoise64.get_privacy_spent rounded_exp rounded_log tiny_delta 0 = Ok r0.
Proof.
  assert (Hq : PyFloat.truediv (Finite 1.0) (Finite (powerRZ 2 (-1030)))
               = Ok (Infinity false)).
  { unfold PyFloat.truediv.
    destruct (Req_dec_T (powerRZ 2 (-1030)) 0) as [E|_].
    { pose proof (pow2_pos (-1030)). lra. }
    pose proof (pow2_pos (-1030)) as Hp.
    assert (P : powerRZ 2 1030 * powerRZ 2 (-1030) = 1).
    { rewrite <- pow2_add. reflexivity. }
    assert (E : 1.0 / powerRZ 2 (-1030) = powerRZ 2 1030).
    { apply (Rmult_eq_reg_r (powerRZ 2 (-1030))); [|lra].
      rewrite P. unfold Rdiv. rewrite Rmult_assoc, Rinv_l by lra. lra. }
    f_equal. apply rnd_overflow. rewrite E. apply pow2_le. lia. }
  assert (Hnan : PyFloat.mul (Finite 0) (Infinity false) = NaN).
  { simpl. destruct (Req_dec_T 0 0); [reflexivity | lra]. }
  split; [|split].
  - split; [apply pow2_pos|].
    change 1 with (powerRZ 2 0).
    destruct (Rlt_le_dec (powerRZ 2 (-1030)) (powerRZ 2 0)) as [H|H];
      [exact H|].
    exfalso. pose proof (pow2_le (-1030) (-1) ltac:(lia)) as H1.
    assert (powerRZ 2 (-1) < powerRZ 2 0) by (simpl; lra). lra.
  - intros c_exp c_log r0 H.
    unfold DPNoise64.get_privacy_spent, tiny_delta in H.
    cbn [DPNoise64.epsilon DPNoise64.delta DPNoise64.sigma] in H.
    unfold PyFloat.of_int in H. rewrite (rnd_int 0) in H by lia.
    cbn [bind] in H. rewrite Hq in H. cbn [bind PyFloat.math_log] in H.
    rewrite mul_0_r, Hnan in H. cbn [PyFloat.math_sqrt bind] in H.
    apply bind_ok in H. destruct H as (e & _ & H).
    replace (PyFloat.mul (Finite 1) NaN) with NaN in H by reflexivity.
    cbn [PyFloat.add PyFloat.round bind] in H.
    apply bind_ok in H. destruct H as (b & _ & H).
    apply bind_ok in H. destruct H as (c & _ & H).
    injection H as <-. split; [reflexivity|]. intros r1. reflexivity.
  - unfold DPNoise64.get_privacy_spent, tiny_delta.
    cbn [DPNoise64.epsilon DPNoise64.delta DPNoise64.sigma].
    unfold PyFloat.of_int. rewrite (rnd_int 0) by lia.
    cbn [bind]. rewrite Hq. cbn [bind PyFloat.math_log].
    rewrite mul_0_r, Hnan. cbn [PyFloat.math_sqrt bind PyFloat.math_exp].
    destruct rounded_exp_1 as [e [-> He]]. cbn [bind].
    replace (PyFloat.mul (Finite 1) NaN) with NaN by reflexivity.
    cbn [PyFloat.add]. change (PyFloat.round NaN 6) with (Ok NaN).
    cbn [bind]. rewrite mul_0_l. cbn [PyFloat.add].
    pose proof (pow2_pos (-1030)) as Hp.
    pose proof (pow2_le (-1030) 0 ltac:(lia)) as Hle.
    change (powerRZ 2 0) with 1 in Hle.
    destruct (rnd_bounded (0 + powerRZ 2 (-1030)) 1 ltac:(lia)
                ltac:(simpl; lra)) as [dv [-> Hdv]].
    destruct (round_bounded dv 1 10 ltac:(lia) Hdv) as [b [-> Hb]].
    cbn [bind]. rewrite (round_int 1) by lia. cbn [bind].
    eexists. reflexivity.
Qed.

End PrivacySpentRuns.

(** ** The guards of the constructor *)

Section ConstructorGuards.
Local Open Scope R_scope.

Lemma rnd_1 : PyFloat.rnd 1 = Finite 1.
Proof. apply (rnd_int 1). lia. Qed.

Lemma truediv_nonzero (a b : pyfloat) :
  PyFloat.leb b (Finite 0) = false ->
  exists q, PyFloat.truediv a b = Ok q.
Proof.
  intros Hb. destruct b as [y|s|]; simpl in *.
  - destruct (Rle_dec y 0); [discriminate|].
    destruct (Req_dec_T y 0); [lra|]. eauto.
  - eauto.
  - eauto.
Qed.

Lemma compute_sigma_returns (c_log : R -> pyfloat) (d : DPNoise64.t) :
  (forall x, 1 <= x < powerRZ 2 1024 ->
             exists y, c_log x = Finite y /\ 0 <= y) ->
  PyFloat.leb (DPNoise64.epsilon d) (Finite 0) = false ->
  PyFloat.leb (DPNoise64.delta d) (Finite 0) = false ->
  PyFloat.geb (DPNoise64.delta d) (Finite 1) = false ->
  exists s, DPNoise64.compute_sigma c_log d = Ok s.
Proof.
  intros Hlog He Hd0 Hd1. unfold DPNoise64.compute_sigma.
  unfold PyFloat.geb in Hd1.
  destruct (DPNoise64.delta d) as [dv|[|]|] eqn:Ed; simpl in Hd0, Hd1;
    try discriminate.
  - destruct (Rle_dec dv 0) as [|Hpos]; [discriminate|].
    destruct (Rle_dec 1 dv) as [|Hlt]; [discriminate|].
    unfold PyFloat.truediv at 1.
    destruct (Req_dec_T dv 0); [lra|]. cbn [bind].
    assert (Hq : 1 <= 1.25 / dv).
    { apply Rmult_le_reg_r with dv; [lra|].
      unfold Rdiv. rewrite Rmult_assoc, Rinv_l by lra. lra. }
    pose proof (rnd_monotone 1 (1.25 / dv) Hq) as Hle.
    rewrite rnd_1 in Hle.
    assert (Hl : exists l, PyFloat.math_log c_log (PyFloat.rnd (1.25 / dv))
                           = Ok l /\ PyFloat.leb (Finite 0) l = true).
    { destruct (PyFloat.rnd (1.25 / dv)) as [qv|[|]|] eqn:Eq; simpl in Hle;
        try discriminate.
      - apply leb_finite in Hle. simpl.
        destruct (Rlt_dec 0 qv); [|lra].
        destruct (Hlog qv (conj Hle (rnd_finite_lt _ _ Eq))) as [y [-> Hy]].
        eexists. split; [reflexivity|]. now apply leb_finite.
      - eexists. split; reflexivity. }
    destruct Hl as [l [-> Hl0]]. cbn [bind].
    assert (Hr : exists r, PyFloat.math_sqrt (PyFloat.mul (Finite 2.0) l)
                           = Ok r).
    { destruct (leb_0_inv l Hl0) as [[lv [-> Hlv]]| ->]; simpl.
      - pose proof (rnd_nonneg (2.0 * lv) ltac:(lra)) as Hn.
        destruct (PyFloat.rnd (2.0 * lv)) as [w|[|]|]; simpl in Hn;
          try discriminate; simpl.
        + apply leb_finite in Hn. destruct (Rlt_dec w 0); [lra|]. eauto.
        + eauto.
      - destruct (Req_dec_T 2.0 0); [lra|].
        rewrite negative_nonneg by lra. simpl. eauto. }
    destruct Hr as [r ->]. cbn [bind].
    now apply truediv_nonzero.
  - cbn [PyFloat.truediv bind PyFloat.math_log PyFloat.mul PyFloat.math_sqrt].
    destruct (DPNoise64.sensitivity d); cbn [PyFloat.mul];
      now apply truediv_nonzero.
Qed.

(** In binary64 the constructor raises [ValueError] exactly when one of
    its guards [epsilon <= 0], [delta <= 0], [delta >= 1] is true, and
    otherwise returns, whatever the sensitivity and the clipping norm are
    (the C library's [log] being finite and not negative on the floats
    from 1 on).  A guard is false on NaN: a NaN [epsilon] or [delta] is
    accepted, and [DPNoise(nan, nan)] is constructed with a NaN
    [sigma]. *)
Theorem DPNoise_init_validation (c_log : R -> pyfloat)
    (epsilon delta sensitivity max_grad_norm : pyfloat) :
  (forall x, 1 <= x < powerRZ 2 1024 ->
             exists y, c_log x = Finite y /\ 0 <= y) ->
  (PyFloat.leb epsilon (Finite 0) = true \/
   PyFloat.leb delta (Finite 0) = true \/
   PyFloat.geb delta (Finite 1) = true ->
   DPNoise64.__init__ c_log epsilon delta sensitivity max_grad_norm
   = Raise ValueError) /\
  (PyFloat.leb epsilon (Finite 0) = false ->
   PyFloat.leb delta (Finite 0) = false ->
   PyFloat.geb delta (Finite 1) = false ->
   exists sigma,
     DPNoise64.__init__ c_log epsilon delta sensitivity max_grad_norm
     = Ok (DPNoise64.mk epsilon delta sensitivity max_grad_norm sigma)) /\
  DPNoise64.__init__ c_log NaN NaN sensitivity max_grad_norm
  = Ok (DPNoise64.mk NaN NaN sensitivity max_grad_norm NaN).
Proof.
  intros Hlog. split; [|split].
  - unfold DPNoise64.__init__. intros [H|[H|H]].
    + now rewrite H.
    + rewrite H. now destruct (PyFloat.leb epsilon (Finite 0)).
    + rewrite H, orb_true_r. now destruct (PyFloat.leb epsilon (Finite 0)).
  - intros He Hd0 Hd1. unfold DPNoise64.__init__.
    rewrite He, Hd0, Hd1. cbn [orb].
    destruct (compute_sigma_returns c_log
                (DPNoise64.mk epsilon delta sensitivity max_grad_norm NaN)
                Hlog He Hd0 Hd1) as [s ->].
    exists s. reflexivity.
  - unfold DPNoise64.__init__, DPNoise64.compute_sigma. simpl.
    now destruct sensitivity.
Qed.

Lemma DPNoise_init_validation_witness :
  (PyFloat.leb (Finite 1) (Finite 0) = true \/
   PyFloat.leb (Finite (1 / 2)) (Finite 0) = true \/
   PyFloat.geb (Finite (1 / 2)) (Finite 1) = true ->
   DPNoise64.__init__ rounded_log (Finite 1) (Finite (1 / 2)) (Finite (-3))
                      (Finite 0)
   = Raise ValueError) /\
  (PyFloat.leb (Finite 1) (Finite 0) = false ->
   PyFloat.leb (Finite (1 / 2)) (Finite 0) = false ->
   PyFloat.geb (Finite (1 / 2)) (Finite 1) = false ->
   exists sigma,
     DPNoise64.__init__ rounded_log (Finite 1) (Finite (1 / 2)) (Finite (-3))
                        (Finite 0)
     = Ok (DPNoise64.mk (Finite 1) (Finite (1 / 2)) (Finite (-3)) (Finite 0)
                        sigma)) /\
  DPNoise64.__init__ rounded_log NaN NaN (Finite (-3)) (Finite 0)
  = Ok (DPNoise64.mk NaN NaN (Finite (-3)) (Finite 0) NaN).
Proof.
  apply (DPNoise_init_validation rounded_log (Finite 1) (Finite (1 / 2))
           (Finite (-3)) (Finite 0)).
  exact rounded_log_range.
Defined.

End ConstructorGuards.

(** ** Where [get_privacy_spent] returns *)

Section PrivacySpentDomain.
Local Open Scope R_scope.

(** [get_privacy_spent(0)]: whenever it returns and the reported
    [epsilon_total] is not NaN, that value is [0.0]. *)
Theorem privacy_spent_zero_rounds (c_exp c_log : R -> pyfloat)
    (d : DPNoise64.t) (r : DPNoise64.privacy_spent) :
  DPNoise64.get_privacy_spent c_exp c_log d 0 = Ok r ->
  DPNoise64.epsilon_total r <> NaN ->
  DPNoise64.epsilon_total r = Finite 0 /\ DPNoise64.num_rounds r = 0%Z.
Proof.
  intros H N. unfold DPNoise64.get_privacy_spent in H.
  unfold PyFloat.of_int in H. rewrite (rnd_int 0) in H by lia.
  cbn [bind] in H.
  apply bind_ok in H. destruct H as (q & _ & H).
  apply bind_ok in H. destruct H as (l & _ & H).
  rewrite mul_0_r in H.
  apply bind_ok in H. destruct H as (s & Hs & H).
  apply bind_ok in H. destruct H as (e & _ & H).
  apply bind_ok in H. destruct H as (a & Ha & H).
  apply bind_ok in H. destruct H as (b & _ & H).
  apply bind_ok in H. destruct H as (c & _ & H).
  injection H as <-. cbn [DPNoise64.epsilon_total DPNoise64.num_rounds] in *.
  split; [|reflexivity].
  pose proof (round_not_nan _ _ _ Ha N) as Nt.
  destruct (add_not_nan _ _ Nt) as [NA NB].
  destruct (mul_not_nan _ _ NA) as [Ne Ns].
  destruct (mul_not_nan _ _ NB) as [_ NE].
  assert (Es : s = Finite 0).
  { destruct l as [lv|sg|].
    - rewrite mul_0_l in Hs.
      rewrite (sqrt_int 0 ltac:(lia) : PyFloat.math_sqrt (Finite 0) = _)
        in Hs.
      now injection Hs as <-.
    - simpl in Hs. destruct (Req_dec_T 0 0); [|lra]. simpl in Hs. congruence.
    - simpl in Hs. congruence. }
  subst s.
  destruct (DPNoise64.epsilon d) as [ev|sg|].
  - rewrite mul_0_r, mul_0_l in Ha.
    destruct (PyFloat.sub e (Finite 1.0)) as [E|sg|].
    + rewrite mul_0_l, (add_int 0 0), (round_int 0) in Ha by lia.
      now injection Ha as <-.
    + exfalso. apply NB. rewrite mul_0_l. simpl.
      destruct (Req_dec_T 0 0); [reflexivity | lra].
    + congruence.
  - exfalso. apply NA. simpl. destruct (Req_dec_T 0 0); [reflexivity | lra].
  - congruence.
Qed.

Lemma privacy_spent_zero_rounds_witness :
  DPNoise64.epsilon_total
    (DPNoise64.mkSpent (Finite 0) (Finite (1 / 2)) 0 (Finite 1)) = Finite 0 /\
  DPNoise64.num_rounds
    (DPNoise64.mkSpent (Finite 0) (Finite (1 / 2)) 0 (Finite 1)) = 0%Z.
Proof.
  apply (privacy_spent_zero_rounds rounded_exp rounded_log half_delta).
  - exact half_delta_zero_rounds.
  - discriminate.
Defined.

(** Where the C library's [exp] overflows at [epsilon],
    [get_privacy_spent] returns for no number of rounds: the call of
    [math.exp] raises [OverflowError] unless an earlier operation has
    raised. *)
Theorem privacy_spent_exp_overflow (c_exp c_log : R -> pyfloat)
    (d : DPNoise64.t) (ev : R) (sg : bool) (T : Z) :
  DPNoise64.epsilon d = Finite ev ->
  c_exp ev = Infinity sg ->
  (forall r, DPNoise64.get_privacy_spent c_exp c_log d T <> Ok r) /\
  (forall t q l s,
      PyFloat.of_int T = Ok t ->
      PyFloat.truediv (Finite 1.0) (DPNoise64.delta d) = Ok q ->
      PyFloat.math_log c_log q = Ok l ->
      PyFloat.math_sqrt (PyFloat.mul (PyFloat.mul (Finite 2.0) t) l) = Ok s ->
      DPNoise64.get_privacy_spent c_exp c_log d T = Raise OverflowError).
Proof.
  intros He Hc.
  assert (Hexp : PyFloat.math_exp c_exp (DPNoise64.epsilon d)
                 = Raise OverflowError).
  { rewrite He. simpl. now rewrite Hc. }
  split.
  - intros r H. unfold DPNoise64.get_privacy_spent in H.
    apply bind_ok in H. destruct H as (t & _ & H).
    apply bind_ok in H. destruct H as (q & _ & H).
    apply bind_ok in H. destruct H as (l & _ & H).
    apply bind_ok in H. destruct H as (s & _ & H).
    rewrite Hexp in H. discriminate.
  - intros t q l s Ht Hq Hl Hs. unfold DPNoise64.get_privacy_spent.
    rewrite Ht. cbn [bind]. rewrite Hq. cbn [bind]. rewrite Hl. cbn [bind].
    rewrite Hs. cbn [bind]. rewrite Hexp. reflexivity.
Qed.

Lemma privacy_spent_exp_overflow_witness :
  (forall r,
      DPNoise64.get_privacy_spent rounded_exp rounded_log huge_epsilon 1
      <> Ok r) /\
  DPNoise64.get_privacy_spent rounded_exp rounded_log huge_epsilon 1
  = Raise OverflowError.
Proof.
  destruct (privacy_spent_exp_overflow rounded_exp rounded_log huge_epsilon
              1024 false 1 eq_refl rounded_exp_1024) as [H1 H2].
  split; [exact H1|].
  destruct rounded_log_2 as [l [El Hl]].
  destruct (mul_bounded 2 l 4 ltac:(lia) ltac:(simpl; lra)) as [w [Ew Hw]].
  destruct (sqrt_bounded w 2 ltac:(lia) Hw) as [s [Es Hs]].
  apply (H2 (Finite 1) (Finite 2) (Finite l) (Finite s)).
  - unfold PyFloat.of_int. now rewrite (rnd_int 1) by lia.
  - exact truediv_1_half.
  - unfold PyFloat.math_log. destruct (Rlt_dec 0 2); [|lra].
    now rewrite El.
  - replace (Finite 2.0) with (Finite (IZR 2)) by (f_equal; lra).
    rewrite (mul_int 2 1) by lia. cbn [Z.mul Pos.mul].
    rewrite Ew. exact Es.
Defined.

End PrivacySpentDomain.
